(** * Turkish medical NLP backend (spacy-backend/app.py): a shallow embedding

    The development follows the layout of the Python module:
    - [PyStr]: the [str] operations the module relies on ([upper], [lower],
      [capitalize], [title], [strip], [split], [find], [in]), over strings
      represented as lists of Unicode code points;
    - [Re]: a backtracking matcher for the fragment of [re] used by the six
      patient-name patterns, with [finditer];
    - [Spacy]: tokens, documents, token patterns and what a [Matcher] may
      return;
    - [NLP]: the class [TurkishMedicalNLP] (state, [initialize], the
      extraction methods);
    - [Routes]: the Flask handlers, as functions from a request body to a
      response.
    Theorems come after all definitions. *)

From Stdlib Require Import String Ascii Bool NArith ZArith QArith Lia List
  Sorted.
Import ListNotations.
Close Scope Q_scope.

(* ================================================================= *)
(** * Python strings *)

Module PyStr.

Local Open Scope N_scope.

(** A Python [str] is a sequence of code points. *)
Definition text := list N.

(** ** Literals

    String literals are written as in the source file and decoded from
    UTF-8, the encoding in which Python reads the module.  The source file
    stores its Turkish literals double-encoded; the literals below are the
    code points Python actually sees. *)

Fixpoint utf8_decode (bs : list N) (need : nat) (acc : N) : text :=
  match bs with
  | [] => []
  | b :: r =>
    match need with
    | O =>
      if (b <? 128)%N then b :: utf8_decode r 0 0%N
      else if (b <? 224)%N then utf8_decode r 1 (b - 192)%N
      else if (b <? 240)%N then utf8_decode r 2 (b - 224)%N
      else utf8_decode r 3 (b - 240)%N
    | S O => (acc * 64 + (b - 128))%N :: utf8_decode r 0 0%N
    | S n => utf8_decode r n (acc * 64 + (b - 128))%N
    end
  end.

Definition u (s : string) : text :=
  utf8_decode (map N_of_ascii (list_ascii_of_string s)) 0 0%N.

(** ** Character classes and case mappings

    [str.isspace] is modelled in full.  The case mappings and [str.isalpha]
    are modelled on U+0000..U+017F (Basic Latin, Latin-1 Supplement, Latin
    Extended-A), which contains every letter of the Turkish alphabet and
    every cased character occurring in the module; a code point above
    U+017F is treated as an uncased non-letter. *)

Definition between (lo hi c : N) : bool := ((lo <=? c) && (c <=? hi))%N.

Definition isspace_cp (c : N) : bool :=
  between 9 13 c || between 28 32 c || (c =? 133)%N || (c =? 160)%N
  || (c =? 5760)%N || between 8192 8202 c || (c =? 8232)%N || (c =? 8233)%N
  || (c =? 8239)%N || (c =? 8287)%N || (c =? 12288)%N.

Definition isalpha_cp (c : N) : bool :=
  between 65 90 c || between 97 122 c || (c =? 170)%N || (c =? 181)%N
  || (c =? 186)%N || between 192 214 c || between 216 246 c
  || between 248 383 c.

(** Within the modelled range the cased characters are the letters. *)
Definition iscased_cp (c : N) : bool := isalpha_cp c.

Definition upper_cp (c : N) : text :=
  if between 97 122 c then [c - 32]
  else if (c =? 181) then [924]
  else if (c =? 223) then [83; 83]
  else if between 224 246 c || between 248 254 c then [c - 32]
  else if (c =? 255) then [376]
  else if between 256 303 c || between 306 311 c || between 330 375 c
       then (if N.odd c then [c - 1] else [c])
  else if (c =? 305) then [73]
  else if between 313 328 c || between 377 382 c
       then (if N.even c then [c - 1] else [c])
  else if (c =? 329) then [700; 78]
  else if (c =? 383) then [83]
  else [c].

Definition lower_cp (c : N) : text :=
  if between 65 90 c then [c + 32]
  else if between 192 214 c || between 216 222 c then [c + 32]
  else if between 256 303 c || between 306 311 c || between 330 375 c
       then (if N.even c then [c + 1] else [c])
  else if (c =? 304) then [105; 775]
  else if between 313 328 c || between 377 382 c
       then (if N.odd c then [c + 1] else [c])
  else if (c =? 376) then [255]
  else [c].

Definition title_cp (c : N) : text :=
  if (c =? 223) then [83; 115] else upper_cp c.

(** [s.upper()], [s.lower()] *)
Definition upper (s : text) : text := flat_map upper_cp s.
Definition lower (s : text) : text := flat_map lower_cp s.

(** [s.capitalize()]: first character title-cased, the rest lower-cased. *)
Definition capitalize (s : text) : text :=
  match s with
  | [] => []
  | c :: r => title_cp c ++ lower r
  end.

(** [s.title()]: a character following a cased character is lower-cased,
    any other is title-cased. *)
Fixpoint title_from (prev_cased : bool) (s : text) : text :=
  match s with
  | [] => []
  | c :: r =>
    (if prev_cased then lower_cp c else title_cp c)
      ++ title_from (iscased_cp c) r
  end.

Definition title (s : text) : text := title_from false s.

(** [s.isalpha()] *)
Definition isalpha (s : text) : bool :=
  match s with
  | [] => false
  | _ => forallb isalpha_cp s
  end.

(** ** Whitespace handling *)

Fixpoint lstrip (s : text) : text :=
  match s with
  | [] => []
  | c :: r => if isspace_cp c then lstrip r else s
  end.

Definition rstrip (s : text) : text := rev (lstrip (rev s)).

(** [s.strip()] *)
Definition strip (s : text) : text := rstrip (lstrip s).

(** [s.split()]: the maximal runs of non-whitespace characters.  [cur] is
    the word being read, reversed. *)
Fixpoint split_ws_from (cur : text) (s : text) : list text :=
  match s with
  | [] => match cur with [] => [] | _ => [rev cur] end
  | c :: r =>
    if isspace_cp c
    then match cur with
         | [] => split_ws_from [] r
         | _ => rev cur :: split_ws_from [] r
         end
    else split_ws_from (c :: cur) r
  end.

Definition split_ws (s : text) : list text := split_ws_from [] s.

(** [sep.join(parts)] *)
Fixpoint join (sep : text) (parts : list text) : text :=
  match parts with
  | [] => []
  | [p] => p
  | p :: rest => p ++ sep ++ join sep rest
  end.

(** [s.split(sep)[-1]] for a one-character separator: what follows the
    last occurrence of [sep], or all of [s] when there is none. *)
Fixpoint after_last (sep : N) (s : text) : text :=
  match s with
  | [] => []
  | c :: r =>
    if (c =? sep)%N then after_last sep r
    else if existsb (N.eqb sep) r then after_last sep r
    else s
  end.

(** [re.sub(r'\s+', ' ', s)]: every maximal run of whitespace becomes one
    space. *)
Fixpoint collapse_ws_from (in_run : bool) (s : text) : text :=
  match s with
  | [] => []
  | c :: r =>
    if isspace_cp c
    then (if in_run then collapse_ws_from true r
          else 32%N :: collapse_ws_from true r)
    else c :: collapse_ws_from false r
  end.

Definition collapse_ws (s : text) : text := collapse_ws_from false s.

(** ** Substring search *)

Fixpoint startswith (p s : text) : bool :=
  match p, s with
  | [], _ => true
  | _ :: _, [] => false
  | a :: p', b :: s' => (a =? b)%N && startswith p' s'
  end.

(** [sub in s] *)
Fixpoint str_in (sub s : text) : bool :=
  startswith sub s ||
  match s with
  | [] => false
  | _ :: r => str_in sub r
  end.

(** [s.find(sub)]: the lowest index at which [sub] occurs, or -1. *)
Fixpoint find_from (i : Z) (sub s : text) : Z :=
  if startswith sub s then i
  else match s with
       | [] => (-1)%Z
       | _ :: r => find_from (i + 1)%Z sub r
       end.

Definition find (s sub : text) : Z := find_from 0%Z sub s.

(** [len(s)] *)
Definition len (s : text) : Z := Z.of_nat (length s).

(** [s[i:j]] for [0 <= i <= j] *)
Definition slice (s : text) (i j : nat) : text := firstn (j - i) (skipn i s).

Fixpoint text_eqb (a b : text) : bool :=
  match a, b with
  | [], [] => true
  | x :: a', y :: b' => (x =? y)%N && text_eqb a' b'
  | _, _ => false
  end.

(** ** Characters that a change of case removes *)

(** The code points of the modelled range, U+0000..U+017F. *)
Definition table_range : list N := map N.of_nat (seq 0 384).

(** A character that [lower] (resp. [upper]) replaces by something else,
    and a string that holds one. *)
Definition changed_by_lower (c : N) : bool := negb (text_eqb (lower_cp c) [c]).
Definition changed_by_upper (c : N) : bool := negb (text_eqb (upper_cp c) [c]).

Definition has_capital (s : text) : bool := existsb changed_by_lower s.
Definition has_small (s : text) : bool := existsb changed_by_upper s.

End PyStr.

(* ================================================================= *)
(** * Regular expressions *)

(** The fragment of Python's [re] used by [extract_patient_name]: literal
    characters, character sets, concatenation, the greedy quantifiers [*],
    [+] and [?], and one capturing group.  Matching is by backtracking, as
    in [re]: a quantifier first tries to match its operand once more and
    gives the match back when the rest of the pattern fails.  The flag
    [re.MULTILINE] only changes the anchors, which the patterns do not
    use. *)

Module Re.

Import PyStr.

(** An entry of a character set [[...]]. *)
Inductive citem : Type :=
| CChar (c : N)
| CRange (lo hi : N)
| CSpace                     (* \s *)
| CDigit.                    (* \d *)

(** The digit zero of every decimal number system of Unicode; the ten
    digits of a system are consecutive code points.  On a [str] pattern
    [\d] accepts all of them, not only [0-9]. *)
Definition decimal_zeros : list N :=
  [ 48; 1632; 1776; 1984; 2406; 2534; 2662; 2790;
    2918; 3046; 3174; 3302; 3430; 3558; 3664; 3792;
    3872; 4160; 4240; 6112; 6160; 6470; 6608; 6784;
    6800; 6992; 7088; 7232; 7248; 42528; 43216; 43264;
    43472; 43504; 43600; 44016; 65296; 66720; 68912; 69734;
    69872; 69942; 70096; 70384; 70736; 70864; 71248; 71360;
    71472; 71904; 72016; 72784; 73040; 73120; 92768; 92864;
    93008; 120782; 120792; 120802; 120812; 120822; 123200; 123632;
    125264; 130032 ]%N.

Definition isdecimal_cp (c : N) : bool :=
  existsb (fun z => between z (z + 9)%N c) decimal_zeros.

Definition in_item (i : citem) (c : N) : bool :=
  match i with
  | CChar x => (c =? x)%N
  | CRange lo hi => between lo hi c
  | CSpace => isspace_cp c
  | CDigit => isdecimal_cp c
  end.

Definition in_class (l : list citem) (c : N) : bool :=
  existsb (fun i => in_item i c) l.

Inductive regex : Type :=
| Eps
| Chr (c : N)
| Cls (l : list citem)
| Seq (a b : regex)
| Star (a : regex)
| Plus (a : regex)
| Opt (a : regex)
| Grp (a : regex).            (* the capturing group, group 1 *)

(** Group 1 of a match: where it starts and the text it holds. *)
Definition capture := option (nat * text).

(** A continuation receives the rest of the input, the offset reached and
    the capture, and returns the end of the whole match. *)
Definition cont := text -> nat -> capture -> option (nat * capture).

(** Greedy iteration of [body]: one more round if it succeeds and advances,
    otherwise the continuation.  No operand of [*] or [+] in the patterns
    matches the empty string; a round that does not advance is refused.
    [fuel] bounds the number of rounds and is at least the length of the
    input. *)
Fixpoint star_loop (body : cont -> cont) (fuel : nat) (k : cont) : cont :=
  fun s pos cap =>
    match fuel with
    | O => k s pos cap
    | S n =>
      match body (fun s' pos' cap' =>
                    if (pos <? pos')%nat then star_loop body n k s' pos' cap'
                    else None) s pos cap with
      | Some r => Some r
      | None => k s pos cap
      end
    end.

Fixpoint run (r : regex) (k : cont) : cont :=
  match r with
  | Eps => k
  | Chr c =>
    fun s pos cap =>
      match s with
      | x :: s' => if (x =? c)%N then k s' (S pos) cap else None
      | [] => None
      end
  | Cls l =>
    fun s pos cap =>
      match s with
      | x :: s' => if in_class l x then k s' (S pos) cap else None
      | [] => None
      end
  | Seq a b => run a (run b k)
  | Star a => fun s pos cap => star_loop (run a) (S (length s)) k s pos cap
  | Plus a =>
    run a (fun s pos cap => star_loop (run a) (S (length s)) k s pos cap)
  | Opt a =>
    fun s pos cap =>
      match run a k s pos cap with
      | Some r => Some r
      | None => k s pos cap
      end
  | Grp a =>
    fun s pos cap =>
      run a (fun s' pos' _ => k s' pos' (Some (pos, firstn (pos' - pos) s)))
          s pos cap
  end.

(** [pattern.match(string, pos)]: a match starting exactly at [pos], where
    [s] is the input from [pos] on. *)
Definition match_at (r : regex) (s : text) (pos : nat)
  : option (nat * capture) :=
  run r (fun _ pos' cap' => Some (pos', cap')) s pos None.

(** A match object: [m.start()], [m.end()], [m.start(1)], [m.group(1)]. *)
Record rmatch : Type := {
  m_start : nat;
  m_end : nat;
  g1_start : nat;
  g1_text : text
}.

Definition g1_end (m : rmatch) : nat := g1_start m + length (g1_text m).

Definition mk_match (pos e : nat) (cap : capture) : rmatch :=
  match cap with
  | Some (gs, gt) =>
    {| m_start := pos; m_end := e; g1_start := gs; g1_text := gt |}
  | None => {| m_start := pos; m_end := e; g1_start := pos; g1_text := [] |}
  end.

(** [re.finditer]: the non-overlapping matches, leftmost first.  [s] is the
    input from offset [pos] on; [skip] counts the characters still covered
    by the previous match. *)
Fixpoint scan (r : regex) (s : text) (pos skip : nat) : list rmatch :=
  match skip with
  | S k =>
    match s with
    | [] => []
    | _ :: s' => scan r s' (S pos) k
    end
  | O =>
    match match_at r s pos with
    | Some (e, cap) =>
      mk_match pos e cap ::
      match s with
      | [] => []
      | _ :: s' => scan r s' (S pos) (e - pos - 1)
      end
    | None =>
      match s with
      | [] => []
      | _ :: s' => scan r s' (S pos) 0
      end
    end
  end.

Definition finditer (r : regex) (s : text) : list rmatch := scan r s 0 0.

(** [re.search(r, s) is not None] *)
Fixpoint search (r : regex) (s : text) : bool :=
  match match_at r s 0 with
  | Some _ => true
  | None => match s with [] => false | _ :: s' => search r s' end
  end.

(** ** Building patterns *)

Fixpoint seq_of (l : list regex) : regex :=
  match l with
  | [] => Eps
  | [r] => r
  | r :: rest => Seq r (seq_of rest)
  end.

(** A run of literal characters. *)
Definition lit (s : string) : regex := seq_of (map Chr (u s)).

(** The characters listed in a set. *)
Definition chars (s : string) : list citem := map CChar (u s).

Fixpoint repeat_n (n : nat) (r : regex) : regex :=
  match n with
  | O => Eps
  | S O => r
  | S k => Seq r (repeat_n k r)
  end.

(** From the input [s] at offset [pos] the matcher can only move to a
    suffix [s'] of [s], at the offset [pos'] that accounts for what it
    consumed. *)
Definition reaches (s : text) (pos : nat) (s' : text) (pos' : nat) : Prop :=
  length s' + pos' = length s + pos /\ length s' <= length s.

(** A step of the matcher that only uses its continuation on inputs it
    can reach. *)
Definition local_step (step : cont -> cont) : Prop :=
  forall k1 k2 s pos cap,
    (forall s' pos' cap', reaches s pos s' pos' ->
                          k1 s' pos' cap' = k2 s' pos' cap') ->
    step k1 s pos cap = step k2 s pos cap.

(** [s] is what is left of [whole] from offset [pos] on. *)
Definition located (whole s : text) (pos : nat) : Prop :=
  s = skipn pos whole /\ pos <= length whole.

(** The capture holds the characters of [whole] at the offsets it
    records. *)
Definition capture_in (whole : text) (cap : capture) : Prop :=
  match cap with
  | Some (gs, gt) =>
    slice whole gs (gs + length gt) = gt /\ gs + length gt <= length whole
  | None => True
  end.

(** Group 1 of a match holds the characters of [whole] between
    [m.start(1)] and [m.end(1)]. *)
Definition in_place (whole : text) (m : rmatch) : Prop :=
  slice whole (g1_start m) (g1_end m) = g1_text m
  /\ g1_end m <= length whole.

(** A step of the matcher that keeps the capture where it belongs. *)
Definition keeps_captures (whole : text) (step : cont -> cont) : Prop :=
  forall k s pos cap res,
    located whole s pos -> capture_in whole cap ->
    step k s pos cap = Some res ->
    exists w s' cap',
      s = w ++ s'
      /\ capture_in whole cap'
      /\ k s' (pos + length w) cap' = Some res.

(** The capture lies between the offsets [lo] and [hi]. *)
Definition capture_between (lo : nat) (cap : capture) (hi : nat) : Prop :=
  match cap with
  | Some (gs, gt) => lo <= gs /\ gs + length gt <= hi
  | None => True
  end.

(** A step of the matcher that keeps the capture between the start of the
    match and the offset reached. *)
Definition keeps_between (lo : nat) (step : cont -> cont) : Prop :=
  forall k s pos cap res,
    lo <= pos -> capture_between lo cap pos ->
    step k s pos cap = Some res ->
    exists w s' cap',
      s = w ++ s'
      /\ capture_between lo cap' (pos + length w)
      /\ k s' (pos + length w) cap' = Some res.

(** Group 1 of a match lies inside the match. *)
Definition well_placed (m : rmatch) : Prop :=
  m_start m <= g1_start m /\ g1_end m <= m_end m.

(** A text, and a capture, free of the characters of [forbidden]. *)
Definition clean (forbidden : list N) (w : text) : Prop :=
  Forall (fun c => ~ In c forbidden) w.

Definition clean_capture (forbidden : list N) (cap : capture) : Prop :=
  match cap with
  | Some (_, g) => clean forbidden g
  | None => True
  end.

(** A step of the matcher that, when it succeeds, has consumed a clean
    word, kept a clean capture clean, and handed the rest of the input to
    its continuation. *)
Definition consumes_clean (forbidden : list N) (step : cont -> cont)
  : Prop :=
  forall k s pos cap res,
    step k s pos cap = Some res ->
    exists w s' cap',
      s = w ++ s'
      /\ clean forbidden w
      /\ (clean_capture forbidden cap -> clean_capture forbidden cap')
      /\ k s' (pos + length w) cap' = Some res.

(** [avoids forbidden r]: no literal and no character set of [r] accepts
    a character of [forbidden]. *)
Fixpoint avoids (forbidden : list N) (r : regex) : bool :=
  match r with
  | Eps => true
  | Chr c => forallb (fun x => negb (c =? x)%N) forbidden
  | Cls l => forallb (fun x => negb (in_class l x)) forbidden
  | Seq a b => avoids forbidden a && avoids forbidden b
  | Star a | Plus a | Opt a | Grp a => avoids forbidden a
  end.

End Re.

(* ================================================================= *)
(** * Exceptions *)

Module Py.

Import PyStr.

(** The exceptions that matter to the module, each with its message.
    [OSError] is what [spacy.load] raises for a model that is not
    installed, and the only one [initialize] handles in its loop. *)
Inductive exn : Type :=
| OSError (msg : text)
| TypeError (msg : text)
| AttributeError (msg : text)
| OtherError (msg : text).

(** [str(e)] *)
Definition exn_str (e : exn) : text :=
  match e with
  | OSError m | TypeError m | AttributeError m | OtherError m => m
  end.

Inductive result (A : Type) : Type :=
| Ok (a : A)
| Raise (e : exn).

Arguments Ok {A} a.
Arguments Raise {A} e.

(** JSON values, as [request.get_json()] returns them. *)
Inductive json : Type :=
| JNull
| JBool (b : bool)
| JInt (z : Z)
| JFloat (q : Q)
| JStr (s : text)
| JArr (l : list json)
| JObj (fields : list (text * json)).

(** [d.get(key, default)] on a [dict] *)
Fixpoint dict_get (fields : list (text * json)) (key : text) (default : json)
  : json :=
  match fields with
  | [] => default
  | (k, v) :: rest => if text_eqb k key then v else dict_get rest key default
  end.

(** Truth value of a JSON value: [None], [False], zero and the empty
    string, list and dict are false. *)
Definition truthy (v : json) : bool :=
  match v with
  | JNull => false
  | JBool b => b
  | JInt z => negb (z =? 0)%Z
  | JFloat q => negb (Qeq_bool q 0)
  | JStr s => match s with [] => false | _ => true end
  | JArr l => match l with [] => false | _ => true end
  | JObj l => match l with [] => false | _ => true end
  end.

End Py.

(* ================================================================= *)
(** * spaCy: documents, token patterns, matches *)

Module Spacy.

Import PyStr Re Py.

Record Token : Type := {
  tok_text : text;           (* token.text *)
  tok_idx : nat;             (* token.idx, offset of its first character *)
  tok_ws : bool;             (* token.whitespace_ is a space *)
  tok_pos : text;            (* token.pos_ *)
  tok_lemma : text           (* token.lemma_ *)
}.

(** A named entity found by the statistical model. *)
Record Ent : Type := {
  ent_text : text;
  ent_label : text;
  ent_start_char : nat;
  ent_end_char : nat
}.

Record Doc : Type := {
  doc_tokens : list Token;
  doc_ents : list Ent;
  doc_sents : list text;
  doc_lang : text
}.

(** What [self.nlp] can hold: a pretrained model loaded by name, or a blank
    pipeline of a language with the components added to it. *)
Inductive pipeline : Type :=
| Pretrained (name : text)
| Blank (lang : text) (pipes : list text).

(** ** Spans: [doc[start:end]] *)

Definition span_tokens (d : Doc) (s e : nat) : list Token :=
  firstn (e - s) (skipn s (doc_tokens d)).

(** [span.text]: the tokens with the whitespace that follows each, except
    after the last. *)
Fixpoint tokens_text (toks : list Token) : text :=
  match toks with
  | [] => []
  | [t] => tok_text t
  | t :: rest =>
    tok_text t ++ (if tok_ws t then [32%N] else []) ++ tokens_text rest
  end.

Definition span_text (d : Doc) (s e : nat) : text :=
  tokens_text (span_tokens d s e).

(** [span.start_char], [span.end_char] *)
Definition span_start_char (d : Doc) (s e : nat) : nat :=
  match span_tokens d s e with
  | [] => 0
  | t :: _ => tok_idx t
  end.

Definition span_end_char (d : Doc) (s e : nat) : nat :=
  match rev (span_tokens d s e) with
  | [] => 0
  | t :: _ => tok_idx t + length (tok_text t)
  end.

(** ** Token patterns

    One dictionary of a pattern constrains one token; the attributes the
    module uses are [LOWER], [TEXT] with [REGEX], [IS_ALPHA] and [LENGTH]
    with [>=]. *)
Record tokspec : Type := {
  ts_lower : option text;        (* {"LOWER": s} *)
  ts_regex : option regex;       (* {"TEXT": {"REGEX": r}} *)
  ts_is_alpha : option bool;     (* {"IS_ALPHA": b} *)
  ts_min_length : option nat     (* {"LENGTH": {">=": n}} *)
}.

Definition LOWER (s : string) : tokspec :=
  {| ts_lower := Some (u s); ts_regex := None;
     ts_is_alpha := None; ts_min_length := None |}.

Definition TEXT_REGEX (r : regex) : tokspec :=
  {| ts_lower := None; ts_regex := Some r;
     ts_is_alpha := None; ts_min_length := None |}.

Definition IS_ALPHA : tokspec :=
  {| ts_lower := None; ts_regex := None;
     ts_is_alpha := Some true; ts_min_length := None |}.

Definition IS_ALPHA_LENGTH_GE (n : nat) : tokspec :=
  {| ts_lower := None; ts_regex := None;
     ts_is_alpha := Some true; ts_min_length := Some n |}.

Definition opt_holds {A : Type} (o : option A) (p : A -> bool) : bool :=
  match o with
  | None => true
  | Some a => p a
  end.

(** Does a token satisfy a token specification? *)
Definition tok_ok (ts : tokspec) (t : Token) : bool :=
  opt_holds (ts_lower ts) (fun s => text_eqb (lower (tok_text t)) s)
  && opt_holds (ts_regex ts) (fun r => search r (tok_text t))
  && opt_holds (ts_is_alpha ts) (fun b => Bool.eqb (isalpha (tok_text t)) b)
  && opt_holds (ts_min_length ts) (fun n => (n <=? length (tok_text t))%nat).

(** Does a run of tokens satisfy a pattern, token by token? *)
Fixpoint toks_ok (p : list tokspec) (toks : list Token) : bool :=
  match p, toks with
  | [], [] => true
  | ts :: p', t :: toks' => tok_ok ts t && toks_ok p' toks'
  | _, _ => false
  end.

(** What [matcher.add] has registered: keys with their patterns. *)
Definition registry := list (text * list (list tokspec)).

(** A match [(match_id, start, end)]; the key stands for its hash, so that
    [nlp.vocab.strings[match_id]] is the first component. *)
Definition tmatch : Type := text * nat * nat.

(** A match is justified when its tokens satisfy a pattern registered
    under its key. *)
Definition justified (reg : registry) (d : Doc) (m : tmatch) : Prop :=
  let '(key, s, e) := m in
  exists pats p,
    In (key, pats) reg /\ In p pats /\ toks_ok p (span_tokens d s e) = true.

(** ** The library

    The calls into spaCy, whose results the module takes as they come.
    - [spacy_load name]: [spacy.load(name)];
    - [nlp_call p t]: [nlp(t)] for the pipeline [p];
    - [matcher_call reg d]: [matcher(d)] for a matcher holding [reg]; the
      order of its matches is the library's;
    - [nlp_refuses v]: the exception of [nlp(v)] for a [v] that is not a
      string;
    - [ent_confidence e]: the lookup [e._.get("confidence", 0.8)];
    - [doc_similarity d1 d2]: [d1.similarity(d2)];
    - [now]: [datetime.now().isoformat()].

    [nlp_call], [matcher_call] and [doc_similarity] are functions: the
    model follows the module from the point where such a call has
    returned.  Whatever a statement below says of a method's outcome is
    said of the runs in which these calls return; an exception raised
    inside one of them (a text longer than the pipeline accepts, sentence
    boundaries that were never set) leaves the method at that call and is
    not described here.  The two calls whose failure the module itself
    handles or passes on, [spacy_load] and [ent_confidence], may raise. *)
Record Env : Type := {
  spacy_load : text -> result pipeline;
  nlp_call : pipeline -> text -> Doc;
  nlp_refuses : json -> exn;
  matcher_call : registry -> Doc -> list tmatch;
  ent_confidence : Ent -> result Q;
  doc_similarity : Doc -> Doc -> Q;
  now : text
}.

(** A matcher only reports matches of the patterns it holds. *)
Definition matcher_sound (E : Env) : Prop :=
  forall reg d m, In m (matcher_call E reg d) -> justified reg d m.

(** ** A reference library

    A tokenizer that splits at whitespace and sets punctuation apart, and
    a matcher that reports every match, by first token and then in the
    order of registration.  They stand for spaCy where an example has to
    run. *)

Definition is_punct (c : N) : bool :=
  (c =? 58)%N || (c =? 46)%N || (c =? 44)%N || (c =? 59)%N.

Definition mk_token (idx : nat) (rev_chars : text) (ws : bool) : Token :=
  {| tok_text := rev rev_chars; tok_idx := idx - length rev_chars;
     tok_ws := ws; tok_pos := []; tok_lemma := rev rev_chars |}.

(** [cur] is the token being read, reversed; [pos] the offset of the next
    character. *)
Fixpoint tokenize_from (cur : text) (pos : nat) (s : text) : list Token :=
  match s with
  | [] => match cur with [] => [] | _ => [mk_token pos cur false] end
  | c :: r =>
    if isspace_cp c then
      match cur with
      | [] => tokenize_from [] (S pos) r
      | _ => mk_token pos cur true :: tokenize_from [] (S pos) r
      end
    else if is_punct c then
      match cur with
      | [] => tokenize_from [c] (S pos) r
      | _ => mk_token pos cur false :: tokenize_from [c] (S pos) r
      end
    else
      match cur with
      | [p] => if is_punct p
               then mk_token pos cur false :: tokenize_from [c] (S pos) r
               else tokenize_from (c :: cur) (S pos) r
      | _ => tokenize_from (c :: cur) (S pos) r
      end
  end.

Definition ref_nlp_call (_ : pipeline) (t : text) : Doc :=
  {| doc_tokens := tokenize_from [] 0 t; doc_ents := [];
     doc_sents := [t]; doc_lang := u "tr" |}.

Definition matches_at (reg : registry) (d : Doc) (i : nat) : list tmatch :=
  flat_map (fun kp : text * list (list tokspec) =>
    flat_map (fun p : list tokspec =>
      if toks_ok p (span_tokens d i (i + length p))
      then [(fst kp, i, i + length p)] else []) (snd kp)) reg.

Definition ref_matcher_call (reg : registry) (d : Doc) : list tmatch :=
  flat_map (matches_at reg d) (seq 0 (length (doc_tokens d))).

(** A machine on which no model is installed. *)
Definition ref_env : Env :=
  {| spacy_load := fun name => Raise (OSError (u "[E050] Can't find model"));
     nlp_call := ref_nlp_call;
     nlp_refuses := fun _ => TypeError (u "Argument 'string' has incorrect type");
     matcher_call := ref_matcher_call;
     ent_confidence := fun _ => Ok (8 # 10)%Q;
     doc_similarity := fun _ _ => 0%Q;
     now := u "2024-01-01T00:00:00" |}.

(** A machine whose pipeline marks the tokens [Ali] and [Ankara] as
    entities, and whose confidence lookup fails on a location.  It stands
    for a statistical model where an example needs entities. *)
Definition gazetteer_label (w : text) : option text :=
  if text_eqb w (u "Ali") then Some (u "PERSON")
  else if text_eqb w (u "Ankara") then Some (u "LOC")
  else None.

Definition gazetteer_ents (toks : list Token) : list Ent :=
  flat_map (fun tok =>
    match gazetteer_label (tok_text tok) with
    | Some l => [ {| ent_text := tok_text tok; ent_label := l;
                     ent_start_char := tok_idx tok;
                     ent_end_char := tok_idx tok + length (tok_text tok) |} ]
    | None => []
    end) toks.

Definition ner_nlp_call (_ : pipeline) (t : text) : Doc :=
  {| doc_tokens := tokenize_from [] 0 t;
     doc_ents := gazetteer_ents (tokenize_from [] 0 t);
     doc_sents := [t]; doc_lang := u "tr" |}.

Definition ner_env : Env :=
  {| spacy_load := fun name => Raise (OSError (u "[E050] Can't find model"));
     nlp_call := ner_nlp_call;
     nlp_refuses := fun _ => TypeError (u "Argument 'string' has incorrect type");
     matcher_call := ref_matcher_call;
     ent_confidence := fun e =>
       if text_eqb (ent_label e) (u "LOC")
       then Raise (TypeError (u "get() takes 2 positional arguments but 3 were given"))
       else Ok (8 # 10)%Q;
     doc_similarity := fun _ _ => 0%Q;
     now := u "2024-01-01T00:00:00" |}.

(** A machine on which the first model is installed but cannot be read:
    [spacy.load] fails with an exception that is not an [OSError]. *)
Definition broken_env : Env :=
  {| spacy_load := fun name =>
       Raise (OtherError (u "[E002] Can't find factory"));
     nlp_call := ref_nlp_call;
     nlp_refuses := fun _ => TypeError (u "Argument 'string' has incorrect type");
     matcher_call := ref_matcher_call;
     ent_confidence := fun _ => Ok (8 # 10)%Q;
     doc_similarity := fun _ _ => 0%Q;
     now := u "2024-01-01T00:00:00" |}.

End Spacy.

(* ================================================================= *)
(** * The class [TurkishMedicalNLP] *)

Module NLP.

Import PyStr Re Py Spacy.

(** ** Results *)

(** An entry of ["entities"] or ["custom_entities"]. *)
Record EntitySpan : Type := {
  es_text : text;
  es_label : text;
  es_start : Z;
  es_end : Z;
  es_confidence : Q
}.

(** An entry of ["medical_terms"]. *)
Record TermHit : Type := {
  hit_term : text;
  hit_category : text;
  hit_start : Z;
  hit_end : Z
}.

Record Classification : Type := {
  cls_type : text;
  cls_confidence : Q
}.

(** What [extract_patient_name] returns when it finds a name. *)
Record PatientName : Type := {
  pn_name : text;
  pn_start : Z;
  pn_end : Z;
  pn_confidence : Q;
  pn_method : text
}.

Record TokenInfo : Type := {
  ti_text : text;
  ti_pos : text;
  ti_lemma : text
}.

Record ProcessResult : Type := {
  pr_entities : list EntitySpan;
  pr_custom_entities : list EntitySpan;
  pr_classification : Classification;
  pr_medical_terms : list TermHit;
  pr_tokens : list TokenInfo;
  pr_sentences : list text;
  pr_language : text;
  pr_processing_time : text
}.

Record SimilarityResult : Type := {
  sim_similarity : Q;
  sim_text1_tokens : Z;
  sim_text2_tokens : Z;
  sim_method : text
}.

(** ** The object *)

Record Service : Type := {
  nlp : option pipeline;                       (* None until loaded *)
  medical_terms : list (text * list text);     (* a dict, in key order *)
  initialized : bool;
  matcher : option registry                    (* unset until built *)
}.

(** [__init__]; [custom_entities] is set to an empty dict there and never
    used again. *)
Definition __init__ : Service :=
  {| nlp := None; medical_terms := []; initialized := false;
     matcher := None |}.

(** A method runs on the object, may change it and may raise; what it
    changed before raising stays changed. *)
Definition M (A : Type) : Type := Service -> result A * Service.

Definition ret {A : Type} (a : A) : M A := fun st => (Ok a, st).

Definition raise {A : Type} (e : exn) : M A := fun st => (Raise e, st).

Definition bind {A B : Type} (c : M A) (k : A -> M B) : M B :=
  fun st =>
    match c st with
    | (Ok a, st') => k a st'
    | (Raise e, st') => (Raise e, st')
    end.

Notation "x <- c ;; k" := (bind c (fun x => k))
  (at level 61, c at next level, right associativity).
Notation "c ;;; k" := (bind c (fun _ => k))
  (at level 61, right associativity).

Fixpoint mapM {A B : Type} (f : A -> result B) (l : list A)
  : result (list B) :=
  match l with
  | [] => Ok []
  | a :: rest =>
    match f a with
    | Raise e => Raise e
    | Ok b =>
      match mapM f rest with
      | Raise e => Raise e
      | Ok bs => Ok (b :: bs)
      end
    end
  end.

Definition lift {A : Type} (r : result A) : M A := fun st => (r, st).

(** ** Configuration written into the methods *)

Definition models_to_try : list text :=
  [ u "tr_core_news_lg"; u "tr_core_news_md"; u "tr_core_news_sm";
    u "xx_ent_wiki_sm"; u "en_core_web_sm" ].

(** The patterns [_add_medical_patterns] registers, key by key. *)
Definition tc_pattern : list tokspec :=
  [ TEXT_REGEX (repeat_n 11 (Cls [CDigit])) ].

Definition device_patterns : list (list tokspec) :=
  [ [LOWER "iÅŸitme"; LOWER "cihazÄ±"];
    [LOWER "hearing"; LOWER "aid"];
    [LOWER "koklear"; LOWER "implant"];
    [LOWER "cochlear"; LOWER "implant"] ].

Definition condition_patterns : list (list tokspec) :=
  [ [LOWER "iÅŸitme"; LOWER "kaybÄ±"];
    [LOWER "hearing"; LOWER "loss"];
    [LOWER "saÄŸÄ±rlÄ±k"];
    [LOWER "tinnitus"];
    [LOWER "vertigo"] ].

Definition patient_patterns : list (list tokspec) :=
  [ [LOWER "hasta"; LOWER "adi"; LOWER "soyadi"; LOWER ":";
     IS_ALPHA_LENGTH_GE 2];
    [LOWER "hasta"; LOWER "adÄ±"; LOWER "soyadÄ±"; LOWER ":";
     IS_ALPHA_LENGTH_GE 2];
    [LOWER "hasta"; LOWER "adi"; LOWER ":"; IS_ALPHA_LENGTH_GE 2];
    [LOWER "hasta"; LOWER "adÄ±"; LOWER ":"; IS_ALPHA_LENGTH_GE 2];
    [LOWER "patient"; LOWER "name"; LOWER ":"; IS_ALPHA_LENGTH_GE 2] ].

Definition doctor_patterns : list (list tokspec) :=
  [ [LOWER "dr"; LOWER "."; IS_ALPHA];
    [LOWER "doktor"; IS_ALPHA];
    [LOWER "mÃ¼dÃ¼r"; IS_ALPHA];
    [LOWER "sorumlu"; IS_ALPHA] ].

Definition medical_registry : registry :=
  [ (u "TC_NUMBER", [tc_pattern]);
    (u "MEDICAL_DEVICE", device_patterns);
    (u "MEDICAL_CONDITION", condition_patterns);
    (u "PATIENT_NAME", patient_patterns);
    (u "DOCTOR_STAFF", doctor_patterns) ].

(** The dictionary [_load_medical_terms] installs. *)
Definition medical_terms_table : list (text * list text) :=
  [ (u "hearing_conditions",
     [ u "iÅŸitme kaybÄ±"; u "iÅŸitme azalmasÄ±"; u "saÄŸÄ±rlÄ±k";
       u "hearing loss"; u "sensÃ¶rinÃ¶ral iÅŸitme kaybÄ±";
       u "iletim tipi iÅŸitme kaybÄ±"; u "karma tip iÅŸitme kaybÄ±";
       u "presbykÃ¼zi"; u "ototoksisite" ]);
    (u "devices",
     [ u "iÅŸitme cihazÄ±"; u "hearing aid"; u "iÅŸitme aleti";
       u "BTE"; u "ITE"; u "CIC"; u "RIC"; u "kulak arkasÄ± cihaz";
       u "kulak iÃ§i cihaz"; u "koklear implant"; u "cochlear implant" ]);
    (u "procedures",
     [ u "odyometri"; u "audiometry"; u "iÅŸitme testi";
       u "timpanometri"; u "ABR"; u "ameliyat"; u "surgery" ]) ].

(** The regular expressions of [extract_patient_name]. *)
Definition sp : regex := Cls [CSpace].                       (* \s *)
Definition colon_or_dash : regex := Cls [CChar 58; CChar 45]. (* [:\-] *)

Definition upper_set : list citem := CRange 65 90 :: chars "Ã‡ÄžIÄ°Ã–ÅžÃœ".
Definition lower_set : list citem := CRange 97 122 :: chars "Ã§ÄŸÄ±Ã¶ÅŸÃ¼".

(** The group of the upper-case patterns: one or more characters of the
    upper-case set or whitespace. *)
Definition upper_name : regex := Grp (Plus (Cls (upper_set ++ [CSpace]))).

(** The group of the mixed-case patterns: a word made of one character of
    the upper-case set and one or more of the lower-case set, then any
    number of such words, each after whitespace. *)
Definition name_word : regex := Seq (Cls upper_set) (Plus (Cls lower_set)).
Definition mixed_name : regex :=
  Grp (Seq name_word (Star (Seq (Plus sp) name_word))).

(** The label parts: ADI? SOYADI? with whitespace between, or ADI? alone,
    then optional whitespace, a colon or dash, optional whitespace. *)
Definition adi_soyadi : list regex :=
  [ lit "AD"; Opt (Chr 73); Plus sp; lit "SOYAD"; Opt (Chr 73);
    Star sp; colon_or_dash; Star sp ].
Definition adi : list regex :=
  [ lit "AD"; Opt (Chr 73); Star sp; colon_or_dash; Star sp ].
Definition hasta : list regex := [ lit "HASTA"; Plus sp ].

Definition patterns : list regex :=
  [ seq_of (hasta ++ adi_soyadi ++ [upper_name]);
    seq_of (hasta ++ adi ++ [upper_name]);
    seq_of (hasta ++ adi_soyadi ++ [mixed_name]);
    seq_of (hasta ++ adi ++ [mixed_name]);
    seq_of ([ lit "PATIENT"; Plus sp; lit "NAME"; Star sp; colon_or_dash;
              Star sp; mixed_name ]);
    seq_of (adi_soyadi ++ [mixed_name]) ].

Definition exclude_terms : list text :=
  [ u "DOKTOR"; u "DR"; u "MÃœDÃœR"; u "SORUMLU"; u "HEKIM"; u "UZMAN";
    u "PROF"; u "DOÃ‡";
    u "SGK"; u "HASTANE"; u "KLINIK"; u "MERKEZ"; u "SAÄžLIK"; u "TIP";
    u "UNIVERSITE";
    u "UMIT KANAY"; u "ÃœMÄ°T KANAY" ].

(** ** Methods *)

Section Methods.

Variable E : Env.

(** The loop over [models_to_try]: the first model that loads ends it, an
    [OSError] moves on to the next name, any other exception leaves the
    loop and the [try] block, and the [else] branch runs when the list is
    exhausted. *)
Inductive loaded : Type :=
| Loaded (p : pipeline)
| Exhausted
| Failed (e : exn).

Fixpoint load_first (names : list text) : loaded :=
  match names with
  | [] => Exhausted
  | model_name :: rest =>
    match spacy_load E model_name with
    | Ok p => Loaded p
    | Raise (OSError _) => load_first rest
    | Raise e => Failed e
    end
  end.

(** [spacy.blank("tr")], and the same after [add_pipe("sentencizer")] *)
Definition blank_tr : pipeline := Blank (u "tr") [].
Definition blank_tr_sentencizer : pipeline :=
  Blank (u "tr") [u "sentencizer"].

Definition _add_medical_patterns (self : Service) : Service :=
  {| nlp := nlp self; medical_terms := medical_terms self;
     initialized := initialized self; matcher := Some medical_registry |}.

Definition _load_medical_terms (self : Service) : Service :=
  {| nlp := nlp self; medical_terms := medical_terms_table;
     initialized := initialized self; matcher := matcher self |}.

Definition set_nlp (p : pipeline) (self : Service) : Service :=
  {| nlp := Some p; medical_terms := medical_terms self;
     initialized := initialized self; matcher := matcher self |}.

Definition set_initialized (b : bool) (self : Service) : Service :=
  {| nlp := nlp self; medical_terms := medical_terms self;
     initialized := b; matcher := matcher self |}.

Definition set_medical_terms (d : list (text * list text)) (self : Service)
  : Service :=
  {| nlp := nlp self; medical_terms := d;
     initialized := initialized self; matcher := matcher self |}.

(** [initialize]; logging is left out. *)
Definition initialize : M unit := fun self =>
  match load_first models_to_try with
  | Loaded p =>
    (Ok tt,
     set_initialized true
       (_load_medical_terms (_add_medical_patterns (set_nlp p self))))
  | Exhausted =>
    (Ok tt,
     set_initialized true
       (_load_medical_terms
          (_add_medical_patterns (set_nlp blank_tr_sentencizer self))))
  | Failed e =>
    (Raise e,
     set_initialized false (set_medical_terms [] (set_nlp blank_tr self)))
  end.

(** [if not self.initialized: self.initialize()] *)
Definition ensure_initialized : M unit := fun self =>
  if initialized self then (Ok tt, self) else initialize self.

(** [self.nlp(text)] *)
Definition call_nlp (t : text) : M Doc := fun self =>
  match nlp self with
  | Some p => (Ok (nlp_call E p t), self)
  | None => (Raise (TypeError (u "'NoneType' object is not callable")), self)
  end.

(** [self.matcher(doc)] *)
Definition call_matcher (d : Doc) : M (list tmatch) := fun self =>
  match matcher self with
  | Some reg => (Ok (matcher_call E reg d), self)
  | None =>
    (Raise (AttributeError
              (u "'TurkishMedicalNLP' object has no attribute 'matcher'")),
     self)
  end.

Definition custom_entity (d : Doc) (m : tmatch) : EntitySpan :=
  let '(label, s, e) := m in
  {| es_text := span_text d s e; es_label := label;
     es_start := Z.of_nat (span_start_char d s e);
     es_end := Z.of_nat (span_end_char d s e);
     es_confidence := 0.9%Q |}.

Definition _extract_custom_entities (t : text) : M (list EntitySpan) :=
  doc <- call_nlp t ;;
  matches <- call_matcher doc ;;
  ret (map (custom_entity doc) matches).

(** [any(term in text_lower for term in terms)] *)
Definition any_in (terms : list text) (text_lower : text) : bool :=
  existsb (fun term => str_in term text_lower) terms.

Definition _classify_document (t : text) (doc : Doc) : Classification :=
  let text_lower := lower t in
  if any_in [u "sgk"; u "sosyal gÃ¼venlik"; u "cihaz raporu"] text_lower
  then {| cls_type := u "sgk_device_report"; cls_confidence := 0.95%Q |}
  else if any_in [u "reÃ§ete"; u "prescription"; u "ilaÃ§"] text_lower
  then {| cls_type := u "prescription"; cls_confidence := 0.90%Q |}
  else if any_in [u "odyometri"; u "audiometry"; u "iÅŸitme testi"]
                 text_lower
  then {| cls_type := u "audiometry_report"; cls_confidence := 0.88%Q |}
  else if any_in [u "rapor"; u "muayene"; u "bulgular"] text_lower
  then {| cls_type := u "medical_report"; cls_confidence := 0.75%Q |}
  else {| cls_type := u "other"; cls_confidence := 0.50%Q |}.

(** The hits of one category, term by term. *)
Definition term_hits (text_lower : text) (category : text)
  (terms : list text) : list TermHit :=
  flat_map (fun term =>
    if str_in (lower term) text_lower
    then [ {| hit_term := term; hit_category := category;
              hit_start := find text_lower (lower term);
              hit_end := (find text_lower (lower term) + len term)%Z |} ]
    else []) terms.

Definition _extract_medical_terms (self : Service) (t : text)
  : list TermHit :=
  let text_lower := lower t in
  flat_map (fun ct : text * list text =>
              term_hits text_lower (fst ct) (snd ct))
           (medical_terms self).

(** *** [extract_patient_name] *)

(** One match of one regular expression: the name is cleaned, checked
    against [exclude_terms] and for its length, and put in proper case. *)
Definition regex_candidate (m : rmatch) : list PatientName :=
  let name := strip (g1_text m) in
  let name := collapse_ws name in
  let name := strip name in
  let is_excluded :=
    existsb (fun exclude_term => str_in exclude_term (upper name))
            exclude_terms in
  if negb is_excluded && (3 <? length name)%nat
  then
    let formatted_name := join (u " ") (map capitalize (split_ws name)) in
    [ {| pn_name := formatted_name;
         pn_start := Z.of_nat (g1_start m);
         pn_end := Z.of_nat (g1_end m);
         pn_confidence := 0.9%Q;
         pn_method := u "pattern_matching" |} ]
  else [].

(** The two nested loops: every pattern, every match of it. *)
Definition regex_names (t : text) : list PatientName :=
  flat_map (fun pattern =>
              flat_map regex_candidate (finditer pattern (upper t)))
           patterns.

(** One match of the token matcher. *)
Definition matcher_candidate (doc : Doc) (m : tmatch) : list PatientName :=
  let '(label, s, e) := m in
  if text_eqb label (u "PATIENT_NAME")
  then
    let name_part := strip (after_last 58 (span_text doc s e)) in
    if (3 <? length name_part)%nat
    then [ {| pn_name := title name_part;
              pn_start := Z.of_nat (span_start_char doc s e);
              pn_end := Z.of_nat (span_end_char doc s e);
              pn_confidence := 0.8%Q;
              pn_method := u "spacy_matching" |} ]
    else []
  else [].

Definition matcher_names (doc : Doc) (matches : list tmatch)
  : list PatientName :=
  flat_map (matcher_candidate doc) matches.

Definition Qgtb (a b : Q) : bool := negb (Qle_bool a b).

(** [max(best :: l, key=key)]: a later element replaces the current one
    only when its key is strictly greater. *)
Fixpoint max_from {A : Type} (key : A -> Q) (best : A) (l : list A) : A :=
  match l with
  | [] => best
  | x :: rest =>
    if Qgtb (key x) (key best) then max_from key x rest
    else max_from key best rest
  end.

(** [max(found_names, key=...) if found_names else None] *)
Definition best_match (found_names : list PatientName)
  : option PatientName :=
  match found_names with
  | [] => None
  | x :: rest => Some (max_from pn_confidence x rest)
  end.

(** The pool of candidates: the regular expressions', or the token
    matcher's when those found none. *)
Definition found_names (t : text) : M (list PatientName) :=
  match regex_names t with
  | [] =>
    doc <- call_nlp t ;;
    matches <- call_matcher doc ;;
    ret (matcher_names doc matches)
  | found => ret found
  end.

Definition extract_patient_name (t : text) : M (option PatientName) :=
  ensure_initialized ;;;
  found <- found_names t ;;
  ret (best_match found).

(** *** [process_document] and [calculate_similarity] *)

Definition entity_of (ent : Ent) : result EntitySpan :=
  match ent_confidence E ent with
  | Raise e => Raise e
  | Ok c =>
    Ok {| es_text := ent_text ent; es_label := ent_label ent;
          es_start := Z.of_nat (ent_start_char ent);
          es_end := Z.of_nat (ent_end_char ent);
          es_confidence := c |}
  end.

Definition token_info (t : Token) : TokenInfo :=
  {| ti_text := tok_text t; ti_pos := tok_pos t; ti_lemma := tok_lemma t |}.

Definition process_document (t : text) (doc_type : json)
  : M ProcessResult :=
  ensure_initialized ;;;
  doc <- call_nlp t ;;
  entities <- lift (mapM entity_of (doc_ents doc)) ;;
  custom_entities <- _extract_custom_entities t ;;
  fun self =>
    (Ok {| pr_entities := entities;
           pr_custom_entities := custom_entities;
           pr_classification := _classify_document t doc;
           pr_medical_terms := _extract_medical_terms self t;
           pr_tokens := map token_info (doc_tokens doc);
           pr_sentences := doc_sents doc;
           pr_language := doc_lang doc;
           pr_processing_time := now E |},
     self).

Definition calculate_similarity (text1 text2 : text) : M SimilarityResult :=
  ensure_initialized ;;;
  doc1 <- call_nlp text1 ;;
  doc2 <- call_nlp text2 ;;
  ret {| sim_similarity := doc_similarity E doc1 doc2;
         sim_text1_tokens := Z.of_nat (length (doc_tokens doc1));
         sim_text2_tokens := Z.of_nat (length (doc_tokens doc2));
         sim_method := u "spacy_vectors" |}.

End Methods.

(** ** Notions used to state the properties *)

(** The service has been initialized: a pipeline is loaded and the matcher
    holds the patterns of [_add_medical_patterns]. *)
Definition ready (self : Service) : Prop :=
  initialized self = true
  /\ (exists p, nlp self = Some p)
  /\ matcher self = Some medical_registry.

(** Every model of the list either loads or is reported as not installed
    ([OSError]). *)
Definition unavailable (E : Env) (model_name : text) : Prop :=
  exists msg, spacy_load E model_name = Raise (OSError msg).

Definition loads_or_unavailable (E : Env) : Prop :=
  forall model_name, In model_name models_to_try ->
    (exists p, spacy_load E model_name = Ok p) \/ unavailable E model_name.

(** The classification as a table: keyword sets with the result of each,
    in the order of the [if]/[elif] chain, and the result of [else]. *)
Definition classification_rules : list (list text * Classification) :=
  [ ([u "sgk"; u "sosyal gÃ¼venlik"; u "cihaz raporu"],
     {| cls_type := u "sgk_device_report"; cls_confidence := 0.95%Q |});
    ([u "reÃ§ete"; u "prescription"; u "ilaÃ§"],
     {| cls_type := u "prescription"; cls_confidence := 0.90%Q |});
    ([u "odyometri"; u "audiometry"; u "iÅŸitme testi"],
     {| cls_type := u "audiometry_report"; cls_confidence := 0.88%Q |});
    ([u "rapor"; u "muayene"; u "bulgular"],
     {| cls_type := u "medical_report"; cls_confidence := 0.75%Q |}) ].

Definition classification_default : Classification :=
  {| cls_type := u "other"; cls_confidence := 0.50%Q |}.

(** The result of the first rule one of whose keywords occurs. *)
Fixpoint first_rule (rules : list (list text * Classification))
  (text_lower : text) : Classification :=
  match rules with
  | [] => classification_default
  | (keywords, c) :: rest =>
    if any_in keywords text_lower then c else first_rule rest text_lower
  end.

(** The entries of a term dictionary in iteration order: category by
    category, and inside a category term by term. *)
Definition term_entries (d : list (text * list text)) : list (text * text) :=
  flat_map (fun ct : text * list text => map (pair (fst ct)) (snd ct)) d.

(** [sub] is a substring of [s]. *)
Definition substring (sub s : text) : Prop :=
  exists before after, s = before ++ sub ++ after.

(** One of the keywords is a substring of [s]. *)
Definition mentions (keywords : list text) (s : text) : Prop :=
  exists keyword, In keyword keywords /\ substring keyword s.

(** [sub] occurs in [s] at index [i]. *)
Definition occurs_at (sub s : text) (i : nat) : Prop :=
  startswith sub (skipn i s) = true /\ i <= length s.

(** [i] is the index of the first occurrence of [sub] in [s]. *)
Definition first_occurrence (sub s : text) (i : Z) : Prop :=
  exists n, i = Z.of_nat n /\ occurs_at sub s n
            /\ forall j, j < n -> ~ occurs_at sub s j.



(** The hit reported for a term that occurs. *)
Definition hit_of (text_lower category term : text) : TermHit :=
  {| hit_term := term; hit_category := category;
     hit_start := find text_lower (lower term);
     hit_end := (find text_lower (lower term) + len term)%Z |}.

(** Is [h] a hit for the entry [(category, term)]? *)
Definition hit_for (category term : text) (h : TermHit) : bool :=
  text_eqb (hit_category h) category && text_eqb (hit_term h) term.

(** Equality of dictionary entries, and lists without repeated entries. *)
Definition entry_eqb (a b : text * text) : bool :=
  text_eqb (fst a) (fst b) && text_eqb (snd a) (snd b).

Fixpoint distinct (l : list (text * text)) : bool :=
  match l with
  | [] => true
  | e :: rest => negb (existsb (entry_eqb e) rest) && distinct rest
  end.

(** Every occurrence of every term of the dictionary has a hit of its
    own. *)
Definition reports_every_occurrence (self : Service) (t : text) : Prop :=
  forall category term i,
    In (category, term) (term_entries (medical_terms self)) ->
    occurs_at (lower term) (lower t) i ->
    exists h, In h (_extract_medical_terms self t)
              /\ hit_category h = category /\ hit_term h = term
              /\ hit_start h = Z.of_nat i.

(** The candidates of one pattern, one for every match that passes the
    checks, and the order of two candidates in the text. *)
Definition candidates_of (t : text) (pattern : Re.regex)
  : list PatientName :=
  flat_map regex_candidate (Re.finditer pattern (upper t)).

Definition precedes (a b : PatientName) : Prop :=
  (pn_end a <= pn_start b)%Z.

(** [pool] lists candidates of the regular expressions in the order of
    discovery: of two of its candidates, the earlier one comes from a
    pattern that stands earlier in the pattern list, or both come from
    the same pattern and the earlier one stands before the other in the
    text. *)
Definition discovery_order (t : text) (pool : list PatientName) : Prop :=
  forall i j a b,
    i < j -> nth_error pool i = Some a -> nth_error pool j = Some b ->
    exists pi pj ri rj,
      nth_error patterns pi = Some ri /\ nth_error patterns pj = Some rj
      /\ In a (candidates_of t ri) /\ In b (candidates_of t rj)
      /\ (pi < pj \/ (pi = pj /\ precedes a b)).

(** [r] is the element at index [i] of [pool], no element has a greater
    confidence, and every earlier one has a smaller confidence. *)
Definition earliest_maximum (pool : list PatientName) (i : nat)
  (r : PatientName) : Prop :=
  nth_error pool i = Some r
  /\ (forall x, In x pool -> (pn_confidence x <= pn_confidence r)%Q)
  /\ (forall j x, j < i -> nth_error pool j = Some x ->
                  (pn_confidence x < pn_confidence r)%Q).

(** The document [self.nlp(text)] and the token matches [self.matcher(doc)]
    of a service that holds a pipeline and a matcher. *)
Definition doc_of (E : Env) (self : Service) (t : text) : option Doc :=
  match nlp self with
  | Some p => Some (nlp_call E p t)
  | None => None
  end.

Definition matches_of (E : Env) (self : Service) (d : Doc)
  : list tmatch :=
  match matcher self with
  | Some reg => matcher_call E reg d
  | None => []
  end.

(** A service marked initialized holds a pipeline, the registered
    patterns and the term dictionary. *)
Definition consistent (self : Service) : Prop :=
  initialized self = true ->
  (exists p, nlp self = Some p)
  /\ matcher self = Some medical_registry
  /\ medical_terms self = medical_terms_table.

(** A computation that leaves the service as it found it, and one that
    at most initializes a service that was not initialized. *)
Definition keeps_state {A : Type} (m : M A) : Prop :=
  forall self, snd (m self) = self.

Definition at_most_initializes (E : Env) {A : Type} (m : M A) : Prop :=
  forall self,
    snd (m self) = self
    \/ (initialized self = false
        /\ snd (m self) = snd (initialize E self)).

(** The keywords of the classification that hold no capital letter, rule
    by rule. *)
Definition effective_rules : list (list text * Classification) :=
  map (fun rule : list text * Classification =>
         (filter (fun keyword => negb (has_capital keyword)) (fst rule),
          snd rule))
      classification_rules.

(** The entries of [exclude_terms] that hold no small letter. *)
Definition effective_exclude_terms : list text :=
  filter (fun exclude_term => negb (has_small exclude_term)) exclude_terms.

(** A token specification whose [LOWER] value holds a capital letter, and
    the registered patterns free of such specifications. *)
Definition lower_has_capital (ts : tokspec) : bool :=
  match ts_lower ts with
  | Some s => has_capital s
  | None => false
  end.

Definition effective_registry : registry :=
  map (fun kp : text * list (list tokspec) =>
         (fst kp,
          filter (fun p => negb (existsb lower_has_capital p)) (snd kp)))
      medical_registry.

Definition is_ascii (s : text) : bool := forallb (fun c => (c <? 128)%N) s.

(** The cleaning of a captured name: [strip], then whitespace runs
    collapsed, then [strip] again. *)
Definition cleaned (raw : text) : text := strip (collapse_ws (strip raw)).

(** Non-empty words without whitespace. *)
Definition plain_words (words : list text) : Prop :=
  words <> []
  /\ Forall (fun w => w <> [] /\ Forall (fun c => isspace_cp c = false) w)
            words.

(** U+00DC and U+00FC, the upper- and lower-case U with diaeresis. *)
Definition u_diaeresis : list N := [220; 252]%N.

(** The service as [initialize] leaves it where no model is installed. *)
Definition blank_service : Service :=
  snd (initialize ref_env __init__).

End NLP.

(* ================================================================= *)
(** * The routes *)

(** A handler takes what [request.get_json()] gave (a JSON value, or the
    exception it raised) and the global [nlp_service], and produces a
    response.  Everything a handler does is inside [try]; the [except]
    clause turns any exception into a response with status 500. *)

Module Routes.

Import PyStr Py Spacy.

Inductive Body : Type :=
| ErrorBody (error : text)
| FailureBody (error : text) (timestamp : text)
| ProcessBody (result : NLP.ProcessResult) (timestamp : text)
| SimilarityBody (result : NLP.SimilarityResult) (timestamp : text)
| EntitiesBody (entities custom_entities : list NLP.EntitySpan)
    (medical_terms : list NLP.TermHit) (timestamp : text)
| PatientBody (patient_info : option NLP.PatientName) (timestamp : text)
| InitializedBody (message : text) (timestamp : text)
| HealthBody (initialized : bool) (timestamp : text).

Record Response : Type := {
  status : nat;
  body : Body
}.

Definition handler : Type := NLP.Service -> Response * NLP.Service.

Section Handlers.

Variable E : Env.

Notation "x <- c ;; k" := (NLP.bind c (fun x => k))
  (at level 61, c at next level, right associativity).

(** [type(v).__name__] of a decoded JSON value *)
Definition type_name (v : json) : string :=
  match v with
  | JNull => "NoneType"
  | JBool _ => "bool"
  | JInt _ => "int"
  | JFloat _ => "float"
  | JStr _ => "str"
  | JArr _ => "list"
  | JObj _ => "dict"
  end.

(** The [AttributeError] of a method looked up on a value without it *)
Definition no_attribute (v : json) (name : string) : exn :=
  AttributeError
    (u "'" ++ u (type_name v) ++ u "' object has no attribute '" ++ u name
       ++ u "'").

(** [data.get(key, default)]; only a JSON object has the method. *)
Definition get (data : json) (key : string) (default : json)
  : NLP.M json :=
  match data with
  | JObj fields => NLP.ret (dict_get fields (u key) default)
  | _ => NLP.raise (no_attribute data "get")
  end.

(** A method called with something that is not a string initializes the
    service if it has to and then fails at the first use of the value,
    with the exception [e] of that use. *)
Definition not_a_string {A : Type} (e : exn) : NLP.M A :=
  NLP.bind (NLP.ensure_initialized E) (fun _ => NLP.raise e).

(** [f] applied to the string [v]; [first_use] gives the exception of the
    method for a [v] that is not a string. *)
Definition with_text {A : Type} (first_use : json -> exn) (v : json)
  (f : text -> NLP.M A) : NLP.M A :=
  match v with
  | JStr t => f t
  | _ => not_a_string (first_use v)
  end.

Definition ok (b : Body) : Response := {| status := 200; body := b |}.

Definition bad_request (msg : string) : Response :=
  {| status := 400; body := ErrorBody (u msg) |}.

(** [try: ... except Exception as e: return jsonify({...}), 500] *)
Definition try_except (block : NLP.M Response) : handler := fun service =>
  match block service with
  | (Ok r, service') => (r, service')
  | (Raise e, service') =>
    ({| status := 500; body := FailureBody (exn_str e) (now E) |}, service')
  end.

Definition health_check : handler := fun service =>
  (ok (HealthBody (NLP.initialized service) (now E)), service).

Definition initialize_nlp : handler :=
  try_except
    (_ <- NLP.initialize E ;;
     NLP.ret (ok (InitializedBody
                    (u "NLP service initialized successfully") (now E)))).

Definition process_document (request : result json) : handler :=
  try_except
    (data <- NLP.lift request ;;
     text <- get data "text" (JStr []) ;;
     doc_type <- get data "type" (JStr (u "medical")) ;;
     if negb (truthy text) then NLP.ret (bad_request "No text provided")
     else
       result <- with_text (nlp_refuses E) text
                   (fun t => NLP.process_document E t doc_type) ;;
       NLP.ret (ok (ProcessBody result (now E)))).

Definition calculate_similarity (request : result json) : handler :=
  try_except
    (data <- NLP.lift request ;;
     text1 <- get data "text1" (JStr []) ;;
     text2 <- get data "text2" (JStr []) ;;
     if negb (truthy text1) || negb (truthy text2)
     then NLP.ret (bad_request "Both texts required")
     else
       result <- with_text (nlp_refuses E) text1 (fun t1 =>
                   with_text (nlp_refuses E) text2 (fun t2 =>
                     NLP.calculate_similarity E t1 t2)) ;;
       NLP.ret (ok (SimilarityBody result (now E)))).

Definition extract_entities (request : result json) : handler :=
  try_except
    (data <- NLP.lift request ;;
     text <- get data "text" (JStr []) ;;
     if negb (truthy text) then NLP.ret (bad_request "No text provided")
     else
       result <- with_text (nlp_refuses E) text
                   (fun t => NLP.process_document E t
                               (JStr (u "medical"))) ;;
       NLP.ret (ok (EntitiesBody (NLP.pr_entities result)
                                 (NLP.pr_custom_entities result)
                                 (NLP.pr_medical_terms result) (now E)))).

Definition extract_patient_name (request : result json) : handler :=
  try_except
    (data <- NLP.lift request ;;
     text <- get data "text" (JStr []) ;;
     if negb (truthy text) then NLP.ret (bad_request "No text provided")
     else
       patient_info <- with_text (fun v => no_attribute v "upper") text
                         (NLP.extract_patient_name E) ;;
       NLP.ret (ok (PatientBody patient_info (now E)))).

End Handlers.

(** The field [key] of a request body holds the non-empty string [t]. *)
Definition has_text (fields : list (text * json)) (key : string) (t : text)
  : Prop :=
  dict_get fields (u key) (JStr []) = JStr t /\ t <> [].

(** The field [key] of a request body is absent, null or the empty
    string. *)
Definition empty_or_absent (fields : list (text * json)) (key : string)
  : Prop :=
  dict_get fields (u key) (JStr []) = JStr []
  \/ dict_get fields (u key) (JStr []) = JNull.

End Routes.

(* ================================================================= *)
(** * Properties *)

Import PyStr Re Py Spacy NLP.

(** * Properties of the string operations *)

Section Strings.

Lemma text_eqb_eq : forall a b, text_eqb a b = true <-> a = b.
Proof.
  induction a as [|x a IH]; destruct b as [|y b]; simpl; split;
    try discriminate; try reflexivity; intro H.
  - apply andb_true_iff in H. destruct H as [Hx Hr].
    apply N.eqb_eq in Hx. apply IH in Hr. congruence.
  - injection H as -> ->. rewrite N.eqb_refl. simpl. now apply IH.
Qed.

Lemma text_eqb_refl : forall a, text_eqb a a = true.
Proof. intro a. now apply text_eqb_eq. Qed.

Lemma str_in_cons : forall sub c s,
  str_in sub (c :: s) = startswith sub (c :: s) || str_in sub s.
Proof. reflexivity. Qed.

(** [find] returns the first index at which the substring occurs. *)
Lemma find_from_first : forall sub s i,
  str_in sub s = true ->
  exists n, find_from i sub s = (i + Z.of_nat n)%Z
            /\ occurs_at sub s n
            /\ forall j, j < n -> ~ occurs_at sub s j.
Proof.
  intros sub s. induction s as [|c r IH]; intros i Hin.
  - simpl in Hin. rewrite orb_false_r in Hin.
    exists 0. simpl. rewrite Hin. unfold occurs_at. simpl.
    repeat split; [lia | exact Hin | lia | intros j Hj; lia].
  - rewrite str_in_cons in Hin. simpl find_from.
    destruct (startswith sub (c :: r)) eqn:Hs.
    + exists 0. unfold occurs_at. simpl skipn.
      repeat split; [lia | exact Hs | simpl; lia | intros j Hj; lia].
    + simpl in Hin. destruct (IH (i + 1)%Z Hin) as (n & Hf & [Ho Hl] & Hmin).
      exists (S n). unfold occurs_at. simpl skipn.
      repeat split.
      * rewrite Hf. lia.
      * exact Ho.
      * simpl. lia.
      * intros j Hj [Hoj _]. destruct j as [|j].
        -- simpl in Hoj. congruence.
        -- simpl in Hoj. apply (Hmin j); [lia|].
           split; [exact Hoj|]. lia.
Qed.

Lemma find_first_occurrence : forall sub s,
  str_in sub s = true -> first_occurrence sub s (find s sub).
Proof.
  intros sub s Hin. unfold find.
  destruct (find_from_first sub s 0%Z Hin) as (n & Hf & Ho & Hmin).
  exists n. repeat split; try apply Ho; [rewrite Hf; lia | exact Hmin].
Qed.


End Strings.

(** * Document classification *)

Section Classification.

Lemma first_rule_spec : forall rules text_lower,
  (exists before keywords c after,
      rules = before ++ (keywords, c) :: after
      /\ Forall (fun r => any_in (fst r) text_lower = false) before
      /\ any_in keywords text_lower = true
      /\ first_rule rules text_lower = c)
  \/ (Forall (fun r => any_in (fst r) text_lower = false) rules
      /\ first_rule rules text_lower = classification_default).
Proof.
  induction rules as [|[kw c] rest IH]; intro tl.
  - right. split; [constructor | reflexivity].
  - simpl. destruct (any_in kw tl) eqn:Hk.
    + left. exists [], kw, c, rest. repeat split; auto.
    + destruct (IH tl) as [(b & k & c' & a & -> & Hb & Hk' & Hr) | [Hall Hr]].
      * left. exists ((kw, c) :: b), k, c', a. repeat split; auto.
      * right. split; auto.
Qed.

Lemma classify_is_first_rule : forall t doc,
  _classify_document t doc = first_rule classification_rules (lower t).
Proof. intros. reflexivity. Qed.

End Classification.

(** * The term dictionary *)

Section TermDictionary.

Lemma entry_eqb_eq : forall a b, entry_eqb a b = true <-> a = b.
Proof.
  intros [a1 a2] [b1 b2]. unfold entry_eqb. simpl.
  rewrite andb_true_iff, !text_eqb_eq. split.
  - intros [-> ->]. reflexivity.
  - intro H. injection H as -> ->. split; reflexivity.
Qed.

Lemma distinct_NoDup : forall l, distinct l = true -> NoDup l.
Proof.
  induction l as [|e rest IH]; simpl; intro H.
  - constructor.
  - apply andb_true_iff in H. destruct H as [Hn Hd].
    constructor; [|now apply IH].
    intro Hin. apply negb_true_iff in Hn.
    assert (existsb (entry_eqb e) rest = true) as Hex.
    { apply existsb_exists. exists e. split; [exact Hin|].
      now apply entry_eqb_eq. }
    congruence.
Qed.

(** The hits are the entries whose term occurs, in the order of the
    entries. *)
Lemma extract_by_entries : forall self t,
  _extract_medical_terms self t
  = map (fun e => hit_of (lower t) (fst e) (snd e))
        (filter (fun e => str_in (lower (snd e)) (lower t))
                (term_entries (medical_terms self))).
Proof.
  intros self t. unfold _extract_medical_terms, term_entries.
  induction (medical_terms self) as [|[cat terms] d IH]; [reflexivity|].
  cbn [flat_map fst snd]. rewrite filter_app, map_app, IH. f_equal.
  clear IH. unfold term_hits.
  induction terms as [|term terms IHt]; [reflexivity|].
  cbn [flat_map map filter snd fst].
  destruct (str_in (lower term) (lower t)); cbn [app map]; rewrite IHt;
    reflexivity.
Qed.

Lemma filter_single : forall (l : list (text * text)) e,
  NoDup l -> In e l -> filter (entry_eqb e) l = [e].
Proof.
  induction l as [|x l IH]; intros e Hnd Hin; [contradiction|].
  inversion Hnd as [|? ? Hx Hl]; subst. simpl.
  destruct (entry_eqb e x) eqn:Hex.
  - apply entry_eqb_eq in Hex. subst x. f_equal.
    clear IH Hin Hnd.
    induction l as [|y l IHl]; [reflexivity|]. simpl.
    destruct (entry_eqb e y) eqn:Hey.
    + apply entry_eqb_eq in Hey. subst y. exfalso. apply Hx. now left.
    + apply IHl.
      * intro H. apply Hx. now right.
      * now inversion Hl.
  - destruct Hin as [-> | Hin].
    + assert (entry_eqb e e = true) by now apply entry_eqb_eq. congruence.
    + now apply IH.
Qed.

Lemma hit_for_hit_of : forall tl category term e,
  hit_for category term (hit_of tl (fst e) (snd e))
  = entry_eqb (category, term) e.
Proof.
  intros tl category term [c x]. unfold hit_for, hit_of, entry_eqb. simpl.
  destruct (text_eqb c category) eqn:H1, (text_eqb category c) eqn:H2,
           (text_eqb x term) eqn:H3, (text_eqb term x) eqn:H4;
    try reflexivity; exfalso;
    repeat match goal with
           | H : text_eqb _ _ = true |- _ => apply text_eqb_eq in H; subst
           end;
    rewrite ?text_eqb_refl in *; discriminate.
Qed.

Lemma filter_filter_comm : forall (A : Type) (f g : A -> bool) l,
  filter f (filter g l) = filter g (filter f l).
Proof.
  induction l as [|x l IH]; [reflexivity|]. simpl.
  destruct (f x) eqn:Hf, (g x) eqn:Hg; simpl; rewrite ?Hf, ?Hg, IH;
    reflexivity.
Qed.

Lemma filter_map_comm : forall (A B : Type) (g : A -> B) (f : B -> bool) l,
  filter f (map g l) = map g (filter (fun x => f (g x)) l).
Proof.
  induction l as [|x l IH]; [reflexivity|]. simpl.
  destruct (f (g x)); simpl; rewrite IH; reflexivity.
Qed.

Lemma table_entries_distinct :
  NoDup (term_entries medical_terms_table).
Proof. apply distinct_NoDup. vm_compute. reflexivity. Qed.

(** C2, amended.  For every text and every term of the dictionary,
    [_extract_medical_terms] reports exactly one hit for the term when it
    occurs in the text as a case-insensitive substring, placed at its first
    occurrence, and none when it does not occur; a term that occurs several
    times still has a single hit. *)
Theorem one_hit_per_occurring_term : forall self t category term,
  medical_terms self = medical_terms_table ->
  In (category, term) (term_entries medical_terms_table) ->
  filter (hit_for category term) (_extract_medical_terms self t)
  = if str_in (lower term) (lower t)
    then [hit_of (lower t) category term]
    else [].
Proof.
  intros self t category term Hd Hin.
  rewrite extract_by_entries, Hd, filter_map_comm.
  rewrite (filter_ext _ (entry_eqb (category, term)))
    by (intro e; apply hit_for_hit_of).
  rewrite filter_filter_comm.
  rewrite (@filter_single _ _ table_entries_distinct Hin).
  cbn [filter snd]. destruct (str_in (lower term) (lower t)); reflexivity.
Qed.

Lemma abr_listed : In (u "procedures", u "ABR") (term_entries medical_terms_table).
Proof. vm_compute. tauto. Qed.

Lemma blank_service_terms : medical_terms blank_service = medical_terms_table.
Proof. reflexivity. Qed.

Lemma one_hit_per_occurring_term_witness :
  filter (hit_for (u "procedures") (u "ABR"))
         (_extract_medical_terms blank_service (u "ABR ABR"))
  = [hit_of (lower (u "ABR ABR")) (u "procedures") (u "ABR")].
Proof.
  exact (one_hit_per_occurring_term blank_service (u "ABR ABR")
           (u "procedures") (u "ABR") blank_service_terms abr_listed).
Defined.

(** C2 as stated fails: in "ABR ABR" the term "ABR" occurs at index 4 as
    well, and no hit starts there. *)
Lemma second_occurrence_not_reported :
  ~ reports_every_occurrence blank_service (u "ABR ABR").
Proof.
  intro H.
  destruct (H (u "procedures") (u "ABR") 4) as (h & Hin & _ & _ & Hs).
  - vm_compute. tauto.
  - split; [reflexivity | vm_compute; lia].
  - vm_compute in Hin. destruct Hin as [<- | []].
    vm_compute in Hs. discriminate.
Qed.

End TermDictionary.

(** * Initialization *)

Section Initialization.

Variable E : Env.

Lemma load_first_spec : forall names,
  match load_first E names with
  | Loaded p =>
    exists before model_name after,
      names = before ++ model_name :: after
      /\ spacy_load E model_name = Ok p
      /\ Forall (unavailable E) before
  | Exhausted => Forall (unavailable E) names
  | Failed e =>
    exists before model_name after,
      names = before ++ model_name :: after
      /\ spacy_load E model_name = Raise e
      /\ (forall msg, e <> OSError msg)
      /\ Forall (unavailable E) before
  end.
Proof.
  induction names as [|n rest IH]; simpl.
  - constructor.
  - destruct (spacy_load E n) as [p | e] eqn:Hn.
    + exists [], n, rest. repeat split; auto.
    + destruct e as [msg | msg | msg | msg];
        try (exists [], n, rest; repeat split; auto; intros; discriminate).
      assert (unavailable E n) as Hu by (exists msg; exact Hn).
      destruct (load_first E rest) as [p | | e].
      * destruct IH as (b & m & a & -> & Hm & Hb).
        exists (n :: b), m, a. repeat split; auto.
      * constructor; auto.
      * destruct IH as (b & m & a & -> & Hm & He & Hb).
        exists (n :: b), m, a. repeat split; auto.
Qed.

Lemma initialize_ready : forall self self',
  initialize E self = (Ok tt, self') -> ready self'.
Proof.
  intros self self' H. unfold initialize in H.
  destruct (load_first E models_to_try); inversion H; subst;
    (split; [reflexivity | split; [eexists; reflexivity | reflexivity]]).
Qed.

(** C6, amended.  When every model of the list either loads or fails with
    [OSError] (the model is not installed), [initialize] does not raise and
    leaves a pipeline in place: the first model of the list that loads, or,
    when none does, a blank Turkish pipeline with a sentencizer; the
    matcher and the term dictionary are installed and [initialized] is
    set. *)
Theorem initialize_degrades_to_blank : forall self,
  loads_or_unavailable E ->
  exists tier self',
    initialize E self = (Ok tt, self')
    /\ nlp self' = Some tier
    /\ initialized self' = true
    /\ matcher self' = Some medical_registry
    /\ medical_terms self' = medical_terms_table
    /\ ((exists before model_name after,
            models_to_try = before ++ model_name :: after
            /\ spacy_load E model_name = Ok tier
            /\ Forall (unavailable E) before)
        \/ (tier = blank_tr_sentencizer
            /\ Forall (unavailable E) models_to_try)).
Proof.
  intros self Hall. unfold initialize.
  pose proof (load_first_spec models_to_try) as Hspec.
  destruct (load_first E models_to_try) as [p | | e].
  - exists p. eexists. repeat split. left. exact Hspec.
  - exists blank_tr_sentencizer. eexists. repeat split. right. auto.
  - exfalso. destruct Hspec as (b & m & a & Heq & Hm & He & _).
    destruct (Hall m) as [[p Hp] | [msg Hmsg]].
    + rewrite Heq. apply in_or_app. right. now left.
    + congruence.
    + rewrite Hm in Hmsg. injection Hmsg as ->. now apply (He msg).
Qed.

(** C9.  Calling [initialize] a second time right after a first call
    gives the same outcome and leaves the service in the same state as the
    first call did: the same pipeline, matcher, term dictionary and flag;
    and when the calls succeed the state they leave has [initialized]
    set. *)
Theorem initialize_twice_as_once : forall self,
  initialize E (snd (initialize E self)) = initialize E self
  /\ (fst (initialize E self) = Ok tt ->
      initialized (snd (initialize E (snd (initialize E self)))) = true).
Proof.
  intro self. unfold initialize.
  destruct (load_first E models_to_try); split; try reflexivity.
  simpl. discriminate.
Qed.

End Initialization.

Lemma ref_env_loads_or_unavailable : loads_or_unavailable ref_env.
Proof. intros n _. right. eexists. reflexivity. Qed.

Lemma initialize_degrades_to_blank_witness :
  loads_or_unavailable ref_env
  /\ exists tier self',
       initialize ref_env __init__ = (Ok tt, self')
       /\ nlp self' = Some tier
       /\ initialized self' = true
       /\ matcher self' = Some medical_registry
       /\ medical_terms self' = medical_terms_table
       /\ ((exists before model_name after,
               models_to_try = before ++ model_name :: after
               /\ spacy_load ref_env model_name = Ok tier
               /\ Forall (unavailable ref_env) before)
           \/ (tier = blank_tr_sentencizer
               /\ Forall (unavailable ref_env) models_to_try)).
Proof.
  split.
  - exact ref_env_loads_or_unavailable.
  - exact (initialize_degrades_to_blank ref_env __init__
             ref_env_loads_or_unavailable).
Defined.

Lemma initialize_twice_as_once_witness :
  initialized (snd (initialize ref_env (snd (initialize ref_env __init__))))
  = true.
Proof.
  apply (proj2 (initialize_twice_as_once ref_env __init__)). reflexivity.
Defined.

(** C6 as stated fails: when [spacy.load] fails with an exception other
    than [OSError], [initialize] raises it again, after putting a bare
    blank pipeline in place and clearing [initialized]. *)
Lemma initialize_reraises :
  initialize broken_env __init__
  = (Raise (OtherError (u "[E002] Can't find factory")),
     {| nlp := Some blank_tr; medical_terms := []; initialized := false;
        matcher := None |}).
Proof. reflexivity. Qed.

(** * The routes reject a request without text *)

Section EmptyInput.

Variable E : Env.

Lemma falsy_when_empty_or_absent : forall fields key,
  Routes.empty_or_absent fields key ->
  truthy (dict_get fields (u key) (JStr [])) = false.
Proof. intros fields key [-> | ->]; reflexivity. Qed.

(** C5.  A request whose JSON body is an object in which the text is
    empty or absent is answered with status 400 and an error body by the
    routes [/process] and [/extract_patient], and so is a request to
    [/similarity] in whose body object either text is empty or absent; the
    handler does not raise and the service is left untouched: nothing is
    initialized and nothing is extracted. *)
Theorem empty_text_is_rejected : forall service fields,
  (Routes.empty_or_absent fields "text" ->
   Routes.process_document E (Ok (JObj fields)) service
   = ({| Routes.status := 400;
         Routes.body := Routes.ErrorBody (u "No text provided") |}, service)
   /\ Routes.extract_patient_name E (Ok (JObj fields)) service
      = ({| Routes.status := 400;
            Routes.body := Routes.ErrorBody (u "No text provided") |},
         service))
  /\ (Routes.empty_or_absent fields "text1"
      \/ Routes.empty_or_absent fields "text2" ->
      Routes.calculate_similarity E (Ok (JObj fields)) service
      = ({| Routes.status := 400;
            Routes.body := Routes.ErrorBody (u "Both texts required") |},
         service)).
Proof.
  intros service fields. split.
  - intro H. apply falsy_when_empty_or_absent in H.
    unfold Routes.process_document, Routes.extract_patient_name,
      Routes.try_except, Routes.get, bind, lift, ret.
    rewrite H. split; reflexivity.
  - intro H.
    unfold Routes.calculate_similarity, Routes.try_except, Routes.get,
      bind, lift, ret.
    destruct H as [H | H]; apply falsy_when_empty_or_absent in H;
      rewrite H; cbn [negb orb]; rewrite ?orb_true_r; reflexivity.
Qed.

End EmptyInput.

Lemma empty_text_is_rejected_witness :
  Routes.process_document ref_env (Ok (JObj [(u "text", JStr [])]))
                          __init__
  = ({| Routes.status := 400;
        Routes.body := Routes.ErrorBody (u "No text provided") |}, __init__)
  /\ Routes.extract_patient_name ref_env
       (Ok (JObj [(u "type", JStr (u "medical"))])) __init__
     = ({| Routes.status := 400;
           Routes.body := Routes.ErrorBody (u "No text provided") |},
        __init__)
  /\ Routes.calculate_similarity ref_env
       (Ok (JObj [(u "text1", JStr (u "a")); (u "text2", JNull)])) __init__
     = ({| Routes.status := 400;
           Routes.body := Routes.ErrorBody (u "Both texts required") |},
        __init__).
Proof.
  split; [|split].
  - apply (proj1 (empty_text_is_rejected ref_env __init__
                    [(u "text", JStr [])])).
    left. reflexivity.
  - apply (proj1 (empty_text_is_rejected ref_env __init__
                    [(u "type", JStr (u "medical"))])).
    left. reflexivity.
  - apply (proj2 (empty_text_is_rejected ref_env __init__
                    [(u "text1", JStr (u "a")); (u "text2", JNull)])).
    right. right. reflexivity.
Defined.

(** C5 does not extend to every request without a text.  A body that is
    not a JSON object holds no text either: for the body [null], and for
    an empty array, the routes answer with status 500 and the message of
    the failed [data.get], not with the rejection of status 400. *)
Lemma body_without_fields_is_answered_500 :
  let failure (type : string) :=
    {| Routes.status := 500;
       Routes.body :=
         Routes.FailureBody
           (u "'" ++ u type ++ u "' object has no attribute 'get'")
           (now ref_env) |} in
  Routes.process_document ref_env (Ok JNull) __init__
  = (failure "NoneType"%string, __init__)
  /\ Routes.extract_patient_name ref_env (Ok JNull) __init__
     = (failure "NoneType"%string, __init__)
  /\ Routes.calculate_similarity ref_env (Ok JNull) __init__
     = (failure "NoneType"%string, __init__)
  /\ Routes.process_document ref_env (Ok (JArr [])) __init__
     = (failure "list"%string, __init__)
  /\ Routes.status
       (fst (Routes.process_document ref_env (Ok JNull) __init__)) <> 400.
Proof.
  intro failure. repeat split. vm_compute. discriminate.
Qed.

(** * Choosing among the candidates *)

Section Selection.

Lemma Qgtb_lt : forall a b, Qgtb a b = true <-> (b < a)%Q.
Proof.
  intros a b. unfold Qgtb. rewrite negb_true_iff. split; intro H.
  - apply Qnot_le_lt. intro Hle. apply Qle_bool_iff in Hle. congruence.
  - destruct (Qle_bool a b) eqn:Hb; [|reflexivity].
    apply Qle_bool_iff in Hb. exfalso. now apply (Qlt_not_le b a).
Qed.

Lemma Qgtb_le : forall a b, Qgtb a b = false <-> (a <= b)%Q.
Proof.
  intros a b. unfold Qgtb. rewrite negb_false_iff. apply Qle_bool_iff.
Qed.

(** [max] returns the first of the elements whose key is greatest. *)
Lemma max_from_first_greatest :
  forall (A : Type) (key : A -> Q) (l : list A) (best : A),
  exists i,
    nth_error (best :: l) i = Some (max_from key best l)
    /\ (forall x, In x (best :: l) ->
                  (key x <= key (max_from key best l))%Q)
    /\ (forall j x, j < i -> nth_error (best :: l) j = Some x ->
                    (key x < key (max_from key best l))%Q).
Proof.
  intros A key. induction l as [|x rest IH]; intro best.
  - exists 0. simpl. repeat split.
    + intros y [<- | []]. apply Qle_refl.
    + intros j y Hj. lia.
  - simpl max_from. destruct (Qgtb (key x) (key best)) eqn:Hgt.
    + apply Qgtb_lt in Hgt.
      destruct (IH x) as (i & Hi & Hall & Hbefore).
      set (r := max_from key x rest) in *.
      assert (key x <= key r)%Q as Hx by (apply Hall; now left).
      exists (S i). repeat split.
      * exact Hi.
      * intros y [<- | Hy]; [|now apply Hall].
        apply Qlt_le_weak. now apply (Qlt_le_trans _ (key x)).
      * intros j y Hj Hnth. destruct j as [|j].
        -- simpl in Hnth. injection Hnth as <-.
           now apply (Qlt_le_trans _ (key x)).
        -- apply (Hbefore j); [lia | exact Hnth].
    + apply Qgtb_le in Hgt.
      destruct (IH best) as (i & Hi & Hall & Hbefore).
      set (r := max_from key best rest) in *.
      assert (key best <= key r)%Q as Hb by (apply Hall; now left).
      destruct i as [|i].
      * exists 0. simpl in Hi. injection Hi as Hr. repeat split.
        -- simpl. now rewrite Hr.
        -- intros y [<- | [<- | Hy]]; auto.
           ++ now apply (Qle_trans _ (key best)).
           ++ apply Hall. now right.
        -- intros j y Hj. lia.
      * exists (S (S i)). repeat split.
        -- exact Hi.
        -- intros y [<- | [<- | Hy]]; auto.
           ++ now apply (Qle_trans _ (key best)).
           ++ apply Hall. now right.
        -- intros j y Hj Hnth.
           assert (key best < key r)%Q as Hlt
             by (apply (Hbefore 0 best); [lia | reflexivity]).
           destruct j as [|[|j]]; simpl in Hnth.
           ++ injection Hnth as <-. exact Hlt.
           ++ injection Hnth as <-. now apply (Qle_lt_trans _ (key best)).
           ++ apply (Hbefore (S j)); [lia | exact Hnth].
Qed.

Lemma best_match_earliest_maximum : forall pool,
  pool <> [] ->
  exists i r, best_match pool = Some r /\ earliest_maximum pool i r.
Proof.
  intros [|x rest] Hne; [congruence|].
  destruct (max_from_first_greatest _ pn_confidence rest x) as (i & H).
  exists i, (max_from pn_confidence x rest). split; [reflexivity | exact H].
Qed.

Lemma best_match_in : forall pool r, best_match pool = Some r -> In r pool.
Proof.
  intros pool r H. destruct pool as [|x rest]; [discriminate|].
  destruct (best_match_earliest_maximum (x :: rest))
    as (i & r' & Hr & Hnth & _); [discriminate|].
  rewrite H in Hr. injection Hr as <-. now apply nth_error_In with i.
Qed.

End Selection.

(** * [extract_patient_name] on an initialized service *)

Section Extraction.

Variable E : Env.

(** The pool of candidates of an initialized service. *)
Lemma found_names_ready : forall self t p reg,
  nlp self = Some p -> matcher self = Some reg ->
  found_names E t self
  = (Ok (match regex_names t with
         | [] => matcher_names (nlp_call E p t)
                   (matcher_call E reg (nlp_call E p t))
         | found => found
         end), self).
Proof.
  intros self t p reg Hp Hm. unfold found_names.
  destruct (regex_names t); [|reflexivity].
  unfold bind, call_nlp, call_matcher, ret. rewrite Hp, Hm. reflexivity.
Qed.

Lemma extract_ready : forall self t p reg,
  initialized self = true -> nlp self = Some p -> matcher self = Some reg ->
  extract_patient_name E t self
  = (Ok (best_match
           (match regex_names t with
            | [] => matcher_names (nlp_call E p t)
                      (matcher_call E reg (nlp_call E p t))
            | found => found
            end)), self).
Proof.
  intros self t p reg Hi Hp Hm. unfold extract_patient_name, bind at 1.
  unfold ensure_initialized. rewrite Hi. unfold bind.
  rewrite (found_names_ready self t p reg Hp Hm). reflexivity.
Qed.

Lemma matcher_candidate_tagged : forall doc m r,
  In r (matcher_candidate doc m) ->
  pn_method r = u "spacy_matching" /\ pn_confidence r = 0.8%Q.
Proof.
  intros doc [[label s] e] r. unfold matcher_candidate.
  destruct (text_eqb label (u "PATIENT_NAME")); [|contradiction].
  destruct (3 <? _)%nat; [|contradiction].
  intros [<- | []]. split; reflexivity.
Qed.

(** C1, amended.  When the regular expressions leave no candidate and the
    token matcher reports a [PATIENT_NAME] match whose part after the colon,
    once stripped, is longer than 3 characters, [extract_patient_name]
    returns a result whose method is "spacy_matching" and whose confidence
    is 0.8. *)
Theorem fallback_result_tagged : forall self t p reg,
  initialized self = true -> nlp self = Some p -> matcher self = Some reg ->
  regex_names t = [] ->
  (exists s e,
      In (u "PATIENT_NAME", s, e) (matcher_call E reg (nlp_call E p t))
      /\ 3 < length (strip (after_last 58
                              (span_text (nlp_call E p t) s e)))) ->
  exists r,
    extract_patient_name E t self = (Ok (Some r), self)
    /\ pn_method r = u "spacy_matching"
    /\ pn_confidence r = 0.8%Q.
Proof.
  intros self t p reg Hi Hp Hm Hre (s & e & Hin & Hlen).
  rewrite (extract_ready self t p reg Hi Hp Hm), Hre.
  set (doc := nlp_call E p t) in *.
  set (pool := matcher_names doc (matcher_call E reg doc)).
  assert (pool <> []) as Hne.
  { intro Hnil.
    assert (In {| pn_name := title (strip (after_last 58 (span_text doc s e)));
                  pn_start := Z.of_nat (span_start_char doc s e);
                  pn_end := Z.of_nat (span_end_char doc s e);
                  pn_confidence := 0.8%Q;
                  pn_method := u "spacy_matching" |} pool) as Hc.
    { unfold pool, matcher_names. apply in_flat_map.
      exists (u "PATIENT_NAME", s, e). split; [exact Hin|].
      unfold matcher_candidate. rewrite text_eqb_refl.
      apply Nat.ltb_lt in Hlen. rewrite Hlen. now left. }
    rewrite Hnil in Hc. contradiction. }
  destruct (best_match_earliest_maximum pool Hne) as (i & r & Hr & _).
  exists r. split; [now rewrite Hr|].
  apply best_match_in in Hr. unfold pool, matcher_names in Hr.
  apply in_flat_map in Hr. destruct Hr as (m & _ & Hr).
  now apply matcher_candidate_tagged with doc m.
Qed.

(** C8 fails on the code.  For "HASTA ADI SOYADI: ONUR AYDOĞDU" the result
    has method "pattern_matching" and confidence 0.9, but its name is
    "Onur Aydo", the characters 18 to 27 of the text: the letter G with
    breve (U+011E) is not in the upper-case set of the patterns, whose
    Turkish letters are stored double-encoded, so the match ends before
    it. *)
Theorem onur_aydogdu_is_cut_short : forall self p reg,
  initialized self = true -> nlp self = Some p -> matcher self = Some reg ->
  extract_patient_name E (u "HASTA ADI SOYADI: ONUR AYDOĞDU") self
  = (Ok (Some {| pn_name := u "Onur Aydo"; pn_start := 18; pn_end := 27;
                 pn_confidence := 0.9%Q;
                 pn_method := u "pattern_matching" |}), self)
  /\ u "Onur Aydo" <> u "Onur Aydoğdu"
  /\ in_class (upper_set ++ [CSpace]) 286 = false.
Proof.
  intros self p reg Hi Hp Hm.
  rewrite (extract_ready self _ p reg Hi Hp Hm).
  split; [|split].
  - vm_compute. reflexivity.
  - vm_compute. discriminate.
  - vm_compute. reflexivity.
Qed.

End Extraction.

Lemma blank_service_ready : ready blank_service.
Proof.
  split; [reflexivity|]. split; [|reflexivity].
  eexists. reflexivity.
Qed.

(** * The bound on the rounds of a quantifier is never met *)

Section Fuel.

Lemma reaches_refl : forall s pos, reaches s pos s pos.
Proof. intros. split; lia. Qed.

Lemma reaches_trans : forall s1 p1 s2 p2 s3 p3,
  reaches s1 p1 s2 p2 -> reaches s2 p2 s3 p3 -> reaches s1 p1 s3 p3.
Proof. unfold reaches. intros. lia. Qed.

Lemma star_loop_local : forall body,
  local_step body -> forall fuel, local_step (star_loop body fuel).
Proof.
  intros body Hbody. induction fuel as [|n IH]; intros k1 k2 s pos cap Hk.
  - simpl. apply Hk, reaches_refl.
  - simpl. rewrite (Hk s pos cap (reaches_refl s pos)).
    erewrite Hbody; [reflexivity|].
    intros s' pos' cap' Hr. cbv beta.
    destruct (pos <? pos'); [|reflexivity].
    apply IH. intros s2 p2 c2 Hr2. apply Hk.
    now apply reaches_trans with s' pos'.
Qed.

Lemma run_local : forall r, local_step (run r).
Proof.
  induction r as [|c|l|a IHa b IHb|a IHa|a IHa|a IHa|a IHa];
    cbn [run]; intros k1 k2 s pos cap Hk.
  - apply Hk, reaches_refl.
  - destruct s as [|x s']; [reflexivity|].
    destruct (x =? c)%N; [|reflexivity].
    apply Hk. split; simpl; lia.
  - destruct s as [|x s']; [reflexivity|].
    destruct (in_class l x); [|reflexivity].
    apply Hk. split; simpl; lia.
  - apply IHa. intros s1 p1 c1 Hr1. apply IHb. intros s2 p2 c2 Hr2.
    apply Hk. now apply reaches_trans with s1 p1.
  - now apply star_loop_local.
  - apply IHa. intros s1 p1 c1 Hr1. apply star_loop_local; [exact IHa|].
    intros s2 p2 c2 Hr2. apply Hk. now apply reaches_trans with s1 p1.
  - rewrite (Hk s pos cap (reaches_refl s pos)).
    now rewrite (IHa k1 k2 s pos cap Hk).
  - apply IHa. intros s1 p1 c1 Hr1. now apply Hk.
Qed.

(** Every round of a quantifier consumes a character, so a bound above
    the length of the input is as good as any other. *)
Lemma star_fuel_enough : forall body,
  local_step body ->
  forall bound s n m k pos cap,
    length s <= bound -> length s < n -> length s < m ->
    star_loop body n k s pos cap = star_loop body m k s pos cap.
Proof.
  intros body Hbody. induction bound as [|bound IH];
    intros s n m k pos cap Hb Hn Hm;
    destruct n as [|n]; try lia; destruct m as [|m]; try lia; simpl;
    (erewrite Hbody; [reflexivity|]);
    intros s' pos' cap' [Hr1 Hr2]; cbv beta;
    destruct (pos <? pos') eqn:Hlt; try reflexivity;
    apply Nat.ltb_lt in Hlt.
  - lia.
  - apply IH; lia.
Qed.

Lemma star_bound_is_enough : forall a n k s pos cap,
  length s < n ->
  star_loop (run a) n k s pos cap
  = star_loop (run a) (S (length s)) k s pos cap.
Proof.
  intros a n k s pos cap Hn.
  apply star_fuel_enough with (length s); try lia. apply run_local.
Qed.

End Fuel.

(** * What the regular expressions can capture *)

Section RegexInvariant.

Variable forbidden : list N.

Lemma star_loop_clean : forall body,
  consumes_clean forbidden body ->
  forall fuel, consumes_clean forbidden (star_loop body fuel).
Proof.
  intros body Hbody. induction fuel as [|n IH]; intros k s pos cap res H.
  - simpl in H. exists [], s, cap. rewrite Nat.add_0_r.
    repeat split; auto. constructor.
  - simpl in H.
    destruct (body _ s pos cap) as [r|] eqn:Hb.
    + injection H as ->.
      apply Hbody in Hb. destruct Hb as (w1 & s1 & cap1 & -> & Hw1 & Hc1 & Hk).
      destruct (pos <? pos + length w1); [|discriminate].
      apply IH in Hk. destruct Hk as (w2 & s2 & cap2 & -> & Hw2 & Hc2 & Hk).
      exists (w1 ++ w2), s2, cap2. rewrite length_app, Nat.add_assoc, app_assoc.
      repeat split; auto. now apply Forall_app.
    + exists [], s, cap. rewrite Nat.add_0_r.
      repeat split; auto. constructor.
Qed.

Lemma run_clean : forall r,
  avoids forbidden r = true -> consumes_clean forbidden (run r).
Proof.
  induction r as [|c|l|a IHa b IHb|a IHa|a IHa|a IHa|a IHa];
    cbn [run avoids]; intros Hav k s pos cap res H.
  - exists [], s, cap. rewrite Nat.add_0_r. repeat split; auto. constructor.
  - destruct s as [|x s']; [discriminate|].
    destruct (x =? c)%N eqn:Hx; [|discriminate]. apply N.eqb_eq in Hx. subst x.
    exists [c], s', cap. rewrite Nat.add_1_r. repeat split; auto.
    constructor; [|constructor]. intro Hin.
    rewrite forallb_forall in Hav. specialize (Hav c Hin).
    rewrite N.eqb_refl in Hav. discriminate.
  - destruct s as [|x s']; [discriminate|].
    destruct (in_class l x) eqn:Hx; [|discriminate].
    exists [x], s', cap. rewrite Nat.add_1_r. repeat split; auto.
    constructor; [|constructor]. intro Hin.
    rewrite forallb_forall in Hav. specialize (Hav x Hin).
    rewrite Hx in Hav. discriminate.
  - apply andb_true_iff in Hav. destruct Hav as [Ha Hb].
    apply (IHa Ha) in H. destruct H as (w1 & s1 & cap1 & -> & Hw1 & Hc1 & H).
    apply (IHb Hb) in H. destruct H as (w2 & s2 & cap2 & -> & Hw2 & Hc2 & H).
    exists (w1 ++ w2), s2, cap2. rewrite length_app, Nat.add_assoc, app_assoc.
    repeat split; auto. now apply Forall_app.
  - now apply (star_loop_clean _ (IHa Hav)) in H.
  - apply (IHa Hav) in H. destruct H as (w1 & s1 & cap1 & -> & Hw1 & Hc1 & H).
    apply (star_loop_clean _ (IHa Hav)) in H.
    destruct H as (w2 & s2 & cap2 & -> & Hw2 & Hc2 & H).
    exists (w1 ++ w2), s2, cap2. rewrite length_app, Nat.add_assoc, app_assoc.
    repeat split; auto. now apply Forall_app.
  - destruct (run a k s pos cap) as [r|] eqn:Ha.
    + injection H as ->. now apply (IHa Hav) in Ha.
    + exists [], s, cap. rewrite Nat.add_0_r.
      repeat split; auto. constructor.
  - apply (IHa Hav) in H. destruct H as (w & s' & cap' & -> & Hw & _ & H).
    replace (pos + length w - pos) with (length w) in H by lia.
    rewrite firstn_app, Nat.sub_diag, firstn_all in H. simpl in H.
    rewrite app_nil_r in H.
    exists w, s', (Some (pos, w)). repeat split; auto.
Qed.

Lemma match_at_clean : forall r s pos e cap,
  avoids forbidden r = true ->
  match_at r s pos = Some (e, cap) -> clean_capture forbidden cap.
Proof.
  intros r s pos e cap Hav H. unfold match_at in H.
  apply (run_clean r Hav) in H.
  destruct H as (w & s' & cap' & _ & _ & Hc & H).
  injection H as _ <-. apply Hc. exact I.
Qed.

Lemma mk_match_clean : forall pos e cap,
  clean_capture forbidden cap -> clean forbidden (g1_text (mk_match pos e cap)).
Proof.
  intros pos e [[gs gt]|] H; simpl; [exact H | constructor].
Qed.

Lemma scan_clean : forall r,
  avoids forbidden r = true ->
  forall s pos skip,
    Forall (fun m => clean forbidden (g1_text m)) (scan r s pos skip).
Proof.
  intros r Hav. induction s as [|c s IH]; intros pos skip.
  - destruct skip; simpl; [|constructor].
    destruct (match_at r [] pos) as [[e cap]|] eqn:Hm; constructor.
    + apply mk_match_clean. eapply match_at_clean; [exact Hav | exact Hm].
    + constructor.
  - destruct skip; simpl; [|apply IH].
    destruct (match_at r (c :: s) pos) as [[e cap]|] eqn:Hm; [|apply IH].
    constructor; [|apply IH].
    apply mk_match_clean. eapply match_at_clean; [exact Hav | exact Hm].
Qed.

Lemma finditer_clean : forall r s m,
  avoids forbidden r = true ->
  In m (finditer r s) -> clean forbidden (g1_text m).
Proof.
  intros r s m Hav Hin.
  pose proof (scan_clean r Hav s 0 0) as H.
  rewrite Forall_forall in H. now apply H.
Qed.

End RegexInvariant.

(** * Facts about the character tables *)

Section Tables.

Local Open Scope N_scope.

Lemma between_spec : forall lo hi c,
  between lo hi c = true <-> lo <= c /\ c <= hi.
Proof.
  intros. unfold between. now rewrite andb_true_iff, !N.leb_le.
Qed.

Lemma between_false : forall lo hi c,
  between lo hi c = false <-> c < lo \/ hi < c.
Proof.
  intros. unfold between. now rewrite andb_false_iff, !N.leb_gt.
Qed.

(** Turns the tests on a code point into arithmetic. *)
Ltac tests_to_arith :=
  repeat match goal with
         | H : _ = true |- _ =>
           rewrite ?orb_true_iff, ?between_spec, ?N.eqb_eq in H;
           revert H
         | H : _ = false |- _ =>
           rewrite ?orb_false_iff, ?between_false, ?N.eqb_neq in H;
           revert H
         end;
  intros.

Ltac split_table :=
  repeat match goal with
         | |- context [if ?b then _ else _] => destruct b eqn:?
         end.

(** A letter is neither whitespace nor a colon. *)
Lemma letter_not_space : forall c,
  isalpha_cp c = true -> isspace_cp c = false /\ c <> 58 /\ c <> 32.
Proof.
  intros c H. unfold isalpha_cp in H.
  destruct (isspace_cp c) eqn:Hs; unfold isspace_cp in Hs;
    tests_to_arith; repeat split; try reflexivity; lia.
Qed.

(** Only a space gives a space when its case is changed. *)
Lemma lower_cp_space : forall c, In 32 (lower_cp c) -> c = 32.
Proof.
  intros c. unfold lower_cp. split_table; tests_to_arith; simpl in *;
    intuition lia.
Qed.

Lemma title_cp_space : forall c, In 32 (title_cp c) -> c = 32.
Proof.
  intros c. unfold title_cp, upper_cp. split_table; tests_to_arith;
    simpl in *; intuition lia.
Qed.

(** The lower case of a character starts with a colon only for the
    colon. *)
Lemma lower_cp_head : forall c,
  exists y l, lower_cp c = y :: l /\ (y = 58 -> c = 58).
Proof.
  intros c. unfold lower_cp. split_table; tests_to_arith;
    eexists; eexists; (split; [reflexivity | lia]).
Qed.

(** The title case of a character starts with U+00DC only for U+00DC and
    U+00FC. *)
Lemma title_cp_head : forall c,
  exists y l, title_cp c = y :: l /\ (y = 220 -> c = 220 \/ c = 252).
Proof.
  intros c. unfold title_cp, upper_cp. split_table; tests_to_arith;
    eexists; eexists; (split; [reflexivity | lia]).
Qed.

End Tables.

(** * The cleaning steps keep the characters of a name *)

Section Cleaning.

Variable P : N -> Prop.

Lemma lstrip_Forall : forall s, Forall P s -> Forall P (lstrip s).
Proof.
  induction s as [|c r IH]; intro H; simpl; [constructor|].
  destruct (isspace_cp c); [|exact H].
  apply IH. now inversion H.
Qed.

Lemma strip_Forall : forall s, Forall P s -> Forall P (strip s).
Proof.
  intros s H. unfold strip, rstrip.
  apply Forall_rev, lstrip_Forall, Forall_rev, lstrip_Forall, H.
Qed.

Lemma collapse_ws_Forall : forall s in_run,
  P 32%N -> Forall P s -> Forall P (collapse_ws_from in_run s).
Proof.
  intros s in_run Hsp. revert in_run.
  induction s as [|c r IH]; intros in_run H; simpl; [constructor|].
  inversion H as [|? ? Hc Hr]; subst.
  destruct (isspace_cp c); [destruct in_run|]; try constructor; auto.
Qed.

(** The words of [split] are not empty and made of characters of the
    string. *)
Lemma split_ws_words : forall s cur,
  Forall P cur -> Forall P s ->
  Forall (fun w => w <> [] /\ Forall P w) (split_ws_from cur s).
Proof.
  assert (forall cur : text, cur <> [] -> rev cur <> []) as Hrev.
  { intros [|c cur] H; [congruence|]. simpl. intro Habs.
    apply app_eq_nil in Habs. destruct Habs. discriminate. }
  induction s as [|c r IH]; intros cur Hcur Hs; simpl.
  - destruct cur as [|x cur]; constructor; [|constructor].
    split; [apply Hrev; discriminate | now apply Forall_rev].
  - inversion Hs as [|? ? Hc Hr]; subst.
    destruct (isspace_cp c).
    + destruct cur as [|x cur]; [apply IH; auto|].
      constructor; [|apply IH; auto].
      split; [apply Hrev; discriminate | now apply Forall_rev].
    + apply IH; auto.
Qed.

End Cleaning.

(** * No candidate is named "Ümit Kanay" *)

Section UmitKanay.

Lemma patterns_avoid_u_diaeresis :
  forallb (avoids u_diaeresis) patterns = true.
Proof. vm_compute. reflexivity. Qed.

(** The properly cased name starts with the title case of a character of
    the name. *)
Lemma formatted_name_head : forall (P : N -> Prop) words x rest,
  Forall (fun w => w <> [] /\ Forall P w) words ->
  join (u " ") (map capitalize words) = x :: rest ->
  exists c, P c /\ exists l, title_cp c = x :: l.
Proof.
  intros P words x rest Hw Hj.
  destruct words as [|w ws]; [discriminate|].
  inversion Hw as [|? ? [Hne Hpw] _]; subst.
  destruct w as [|c w']; [congruence|].
  inversion Hpw as [|? ? Hc _]; subst.
  exists c. split; [exact Hc|].
  destruct (title_cp_head c) as (y & l & Hy & _).
  exists l. cbn [map capitalize] in Hj. rewrite Hy in Hj.
  destruct (map capitalize ws); simpl in Hj; injection Hj as -> _;
    exact Hy.
Qed.

Lemma regex_candidate_name : forall m r,
  clean u_diaeresis (g1_text m) ->
  In r (regex_candidate m) -> pn_name r <> u "Ümit Kanay".
Proof.
  intros m r Hclean Hin. unfold regex_candidate in Hin.
  set (name := strip (collapse_ws (strip (g1_text m)))) in *.
  destruct (negb _ && _); [|contradiction].
  destruct Hin as [<- | []]. cbn [pn_name]. intro Heq.
  assert (clean u_diaeresis name) as Hname.
  { apply strip_Forall, collapse_ws_Forall; [|now apply strip_Forall].
    unfold u_diaeresis. simpl. intros [H | [H | []]]; discriminate. }
  pose proof (split_ws_words _ name [] (Forall_nil _) Hname) as Hwords.
  change (u "Ümit Kanay") with (220%N :: u "mit Kanay") in Heq.
  destruct (formatted_name_head _ _ _ _ Hwords Heq) as (c & Hc & l & Ht).
  destruct (title_cp_head c) as (y & l' & Hy & Hcase).
  rewrite Ht in Hy. injection Hy as <- _.
  apply Hc. destruct (Hcase eq_refl) as [-> | ->]; simpl; auto.
Qed.

Lemma regex_names_not_umit_kanay : forall t r,
  In r (regex_names t) -> pn_name r <> u "Ümit Kanay".
Proof.
  intros t r Hin. unfold regex_names in Hin.
  apply in_flat_map in Hin. destruct Hin as (pattern & Hp & Hin).
  apply in_flat_map in Hin. destruct Hin as (m & Hm & Hin).
  apply regex_candidate_name with m; [|exact Hin].
  apply finditer_clean with pattern (upper t); [|exact Hm].
  pose proof patterns_avoid_u_diaeresis as Hall.
  rewrite forallb_forall in Hall. now apply Hall.
Qed.

(** ** The token matcher's candidates *)

Lemma toks_ok_app : forall p1 p2 toks,
  toks_ok (p1 ++ p2) toks = true ->
  exists t1 t2,
    toks = t1 ++ t2 /\ toks_ok p1 t1 = true /\ toks_ok p2 t2 = true.
Proof.
  induction p1 as [|ts p1 IH]; intros p2 toks H.
  - exists [], toks. auto.
  - destruct toks as [|t toks]; [discriminate|].
    cbn [app toks_ok] in H. apply andb_true_iff in H. destruct H as [Ht H].
    destruct (IH _ _ H) as (t1 & t2 & -> & H1 & H2).
    exists (t :: t1), t2. cbn [toks_ok]. rewrite Ht, H1. auto.
Qed.

Lemma tokens_text_app : forall t1 t2,
  t2 <> [] -> exists before, tokens_text (t1 ++ t2) = before ++ tokens_text t2.
Proof.
  induction t1 as [|t t1 IH]; intros t2 Hne.
  - exists []. reflexivity.
  - destruct (IH t2 Hne) as (b & Hb).
    exists (tok_text t ++ (if tok_ws t then [32%N] else []) ++ b).
    cbn [app tokens_text]. destruct (t1 ++ t2) eqn:Hl.
    + apply app_eq_nil in Hl. destruct Hl. congruence.
    + rewrite Hb, <- !app_assoc. reflexivity.
Qed.

Lemma after_last_absent : forall sep s,
  ~ In sep s -> after_last sep s = s.
Proof.
  intros sep [|c r] Hn; [reflexivity|]. simpl.
  destruct (c =? sep)%N eqn:Hc.
  - apply N.eqb_eq in Hc. exfalso. apply Hn. now left.
  - destruct (existsb (N.eqb sep) r) eqn:He; [|reflexivity].
    apply existsb_exists in He. destruct He as (x & Hx & Heq).
    apply N.eqb_eq in Heq. subst x. exfalso. apply Hn. now right.
Qed.

Lemma after_last_app : forall sep a b,
  ~ In sep b -> after_last sep (a ++ sep :: b) = b.
Proof.
  intros sep a b Hn. induction a as [|c a IH].
  - simpl. rewrite N.eqb_refl. now apply after_last_absent.
  - cbn [app after_last]. destruct (c =? sep)%N; [exact IH|].
    assert (existsb (N.eqb sep) (a ++ sep :: b) = true) as He.
    { apply existsb_exists. exists sep. split.
      - apply in_or_app. right. now left.
      - apply N.eqb_refl. }
    rewrite He. exact IH.
Qed.

Lemma lower_colon : forall s, lower s = [58%N] -> s = [58%N].
Proof.
  intros [|c r] H; [discriminate|].
  unfold lower in H. cbn [flat_map] in H.
  destruct (lower_cp_head c) as (y & l & Hy & Hcolon).
  rewrite Hy in H. injection H as -> Hrest.
  rewrite (Hcolon eq_refl). f_equal.
  apply app_eq_nil in Hrest. destruct Hrest as [_ Hr].
  destruct r as [|c' r']; [reflexivity|]. cbn [flat_map] in Hr.
  destruct (lower_cp_head c') as (y' & l' & Hy' & _).
  rewrite Hy' in Hr. discriminate.
Qed.

Lemma title_from_space : forall s prev,
  In 32%N (title_from prev s) -> In 32%N s.
Proof.
  induction s as [|c r IH]; intros prev H; [exact H|].
  cbn [title_from] in H. apply in_app_or in H. destruct H as [H | H].
  - left.
    destruct prev; [now apply lower_cp_space | now apply title_cp_space].
  - right. now apply IH with (iscased_cp c).
Qed.

(** The name part of a [PATIENT_NAME] match is its last token, a run of
    letters. *)
Lemma patient_match_name_part : forall p toks,
  In p patient_patterns -> toks_ok p toks = true ->
  Forall (fun c => isalpha_cp c = true)
         (strip (after_last 58 (tokens_text toks))).
Proof.
  intros p toks Hp Hok.
  assert (exists pre, p = pre ++ [LOWER ":"; IS_ALPHA_LENGTH_GE 2]) as [pre ->].
  { exists (removelast (removelast p)).
    unfold patient_patterns in Hp. simpl in Hp.
    destruct Hp as [<- | [<- | [<- | [<- | [<- | []]]]]]; reflexivity. }
  clear Hp. apply toks_ok_app in Hok.
  destruct Hok as (t1 & t2 & -> & _ & H2).
  destruct t2 as [|tc [|ta [|extra t2]]];
    [ discriminate
    | cbn [toks_ok] in H2; rewrite andb_false_r in H2; discriminate
    |
    | cbn [toks_ok] in H2; rewrite !andb_false_r in H2; discriminate ].
  - cbn [toks_ok] in H2. rewrite andb_true_r in H2.
    apply andb_true_iff in H2. destruct H2 as [Hc Ha].
    unfold tok_ok, LOWER, IS_ALPHA_LENGTH_GE in Hc, Ha.
    cbn [ts_lower ts_regex ts_is_alpha ts_min_length opt_holds] in Hc, Ha.
    rewrite !andb_true_r in Hc. apply text_eqb_eq in Hc.
    change (u ":") with [58%N] in Hc. apply lower_colon in Hc.
    cbn [andb] in Ha. apply andb_true_iff in Ha. destruct Ha as [Ha _].
    apply eqb_prop in Ha.
    assert (Forall (fun c => isalpha_cp c = true) (tok_text ta)) as Hletters.
    { unfold isalpha in Ha. destruct (tok_text ta); [discriminate|].
      apply Forall_forall. now apply forallb_forall. }
    destruct (tokens_text_app t1 [tc; ta]) as (before & ->); [discriminate|].
    cbn [tokens_text]. rewrite Hc. cbn [app].
    rewrite after_last_app.
    + unfold strip, rstrip. apply Forall_rev, lstrip_Forall, Forall_rev.
      destruct (tok_ws tc); cbn [app lstrip]; [|now apply lstrip_Forall].
      change (isspace_cp 32) with true. cbv iota.
      now apply lstrip_Forall.
    + intro Hin. apply in_app_or in Hin.
      rewrite Forall_forall in Hletters.
      destruct Hin as [Hin | Hin].
      * destruct (tok_ws tc); [|contradiction].
        destruct Hin as [Hin | []]. discriminate.
      * apply Hletters in Hin. apply letter_not_space in Hin.
        destruct Hin as (_ & Hne & _). congruence.
Qed.

Lemma patient_patterns_registered : forall pats,
  In (u "PATIENT_NAME", pats) medical_registry -> pats = patient_patterns.
Proof.
  intros pats H. unfold medical_registry in H. simpl in H.
  destruct H as [H | [H | [H | [H | [H | []]]]]];
    try (exfalso; apply (f_equal fst) in H; vm_compute in H; discriminate).
  apply (f_equal snd) in H. now symmetry.
Qed.

Lemma matcher_candidate_name : forall doc m r,
  justified medical_registry doc m ->
  In r (matcher_candidate doc m) -> pn_name r <> u "Ümit Kanay".
Proof.
  intros doc [[label s] e] r Hj Hin. unfold matcher_candidate in Hin.
  destruct (text_eqb label (u "PATIENT_NAME")) eqn:Hl; [|contradiction].
  apply text_eqb_eq in Hl. subst label.
  destruct (3 <? _)%nat; [|contradiction].
  destruct Hin as [<- | []]. cbn [pn_name]. intro Heq.
  destruct Hj as (pats & p & Hreg & Hp & Hok).
  apply patient_patterns_registered in Hreg. subst pats.
  pose proof (patient_match_name_part _ _ Hp Hok) as Hletters.
  fold (span_text doc s e) in Hletters.
  assert (In 32%N (title (strip (after_last 58 (span_text doc s e)))))
    as Hsp by (rewrite Heq; vm_compute; tauto).
  apply title_from_space in Hsp.
  rewrite Forall_forall in Hletters. apply Hletters in Hsp.
  apply letter_not_space in Hsp. destruct Hsp as (_ & _ & Hne). congruence.
Qed.

Variable E : Env.

(** C4.  Whatever the input, and so for "HASTA ADI SOYADI: ÃœMİT KANAY"
    and for every input one of whose candidates contains an entry of the
    exclusion list, an initialized service returns from
    [extract_patient_name] either no result or a result whose name is not
    "Ümit Kanay", whether the result comes from the regular expressions or
    from the token matcher.  The matcher is only assumed to report matches
    of the patterns registered with it. *)
Theorem umit_kanay_is_never_returned : forall self t,
  matcher_sound E -> ready self ->
  exists v,
    extract_patient_name E t self = (Ok v, self)
    /\ (v = None \/ exists r, v = Some r /\ pn_name r <> u "Ümit Kanay").
Proof.
  intros self t Hsound (Hi & [p Hp] & Hm).
  rewrite (extract_ready E self t p medical_registry Hi Hp Hm).
  eexists. split; [reflexivity|].
  destruct (best_match _) as [r|] eqn:Hbest; [right | now left].
  exists r. split; [reflexivity|].
  apply best_match_in in Hbest.
  destruct (regex_names t) as [|x found] eqn:Hre.
  - unfold matcher_names in Hbest. apply in_flat_map in Hbest.
    destruct Hbest as (m & Hm_in & Hr).
    apply matcher_candidate_name with (nlp_call E p t) m; [|exact Hr].
    now apply Hsound.
  - apply regex_names_not_umit_kanay with t. now rewrite Hre.
Qed.

End UmitKanay.

(** * The reference library, and the properties at concrete inputs *)

Lemma ref_matcher_sound : matcher_sound ref_env.
Proof.
  intros reg d m Hin. cbn [matcher_call ref_env] in Hin.
  unfold ref_matcher_call in Hin.
  apply in_flat_map in Hin. destruct Hin as (i & _ & Hin).
  unfold matches_at in Hin.
  apply in_flat_map in Hin. destruct Hin as ([key pats] & Hreg & Hin).
  apply in_flat_map in Hin. destruct Hin as (p & Hp & Hin).
  cbn [fst snd] in Hin.
  destruct (toks_ok p (span_tokens d i (i + length p))) eqn:Hok;
    [|contradiction].
  destruct Hin as [<- | []]. exists pats, p. auto.
Qed.

Lemma umit_kanay_is_never_returned_witness :
  exists v,
    extract_patient_name ref_env (u "HASTA ADI SOYADI: ÃœMİT KANAY")
                         blank_service
    = (Ok v, blank_service)
    /\ (v = None \/ exists r, v = Some r /\ pn_name r <> u "Ümit Kanay").
Proof.
  exact (umit_kanay_is_never_returned ref_env blank_service
           (u "HASTA ADI SOYADI: ÃœMİT KANAY")
           ref_matcher_sound blank_service_ready).
Defined.

(** On the input of the specification the regular expressions find
    nothing, and the reference matcher gives the first word of the name. *)
Lemma umit_kanay_by_the_reference_matcher :
  regex_names (u "HASTA ADI SOYADI: ÃœMİT KANAY") = []
  /\ extract_patient_name ref_env (u "HASTA ADI SOYADI: ÃœMİT KANAY")
                          blank_service
     = (Ok (Some {| pn_name := [195; 339; 109; 105; 775; 116]%N;
                    pn_start := 0; pn_end := 23;
                    pn_confidence := 0.8%Q;
                    pn_method := u "spacy_matching" |}), blank_service).
Proof. split; vm_compute; reflexivity. Qed.

Lemma fallback_result_tagged_witness :
  exists r,
    extract_patient_name ref_env (u "Patient Name: John Smith")
                         blank_service
    = (Ok (Some r), blank_service)
    /\ pn_method r = u "spacy_matching"
    /\ pn_confidence r = 0.8%Q.
Proof.
  apply (fallback_result_tagged ref_env blank_service
           (u "Patient Name: John Smith") blank_tr_sentencizer
           medical_registry); try reflexivity.
  exists 0, 4. split.
  - vm_compute. tauto.
  - vm_compute. lia.
Defined.

(** C1 as stated fails: for "Patient Name: John Smith" the regular
    expressions find nothing, the matcher reports a [PATIENT_NAME] match
    with the name part "John", and the result carries the method
    "spacy_matching", not "model_matching". *)
Lemma fallback_tag_is_not_model_matching :
  regex_names (u "Patient Name: John Smith") = []
  /\ In (u "PATIENT_NAME", 0, 4)
        (matcher_call ref_env medical_registry
           (nlp_call ref_env blank_tr_sentencizer
                     (u "Patient Name: John Smith")))
  /\ strip (after_last 58
              (span_text (nlp_call ref_env blank_tr_sentencizer
                                   (u "Patient Name: John Smith")) 0 4))
     = u "John"
  /\ exists r,
       extract_patient_name ref_env (u "Patient Name: John Smith")
                            blank_service
       = (Ok (Some r), blank_service)
       /\ pn_confidence r = 0.8%Q
       /\ pn_method r = u "spacy_matching"
       /\ pn_method r <> u "model_matching".
Proof.
  split; [vm_compute; reflexivity|].
  split; [vm_compute; tauto|].
  split; [vm_compute; reflexivity|].
  eexists. split; [vm_compute; reflexivity|].
  split; [reflexivity|]. split; [reflexivity|].
  vm_compute. discriminate.
Qed.

Lemma onur_aydogdu_is_cut_short_witness :
  extract_patient_name ref_env (u "HASTA ADI SOYADI: ONUR AYDOĞDU")
                       blank_service
  = (Ok (Some {| pn_name := u "Onur Aydo"; pn_start := 18; pn_end := 27;
                 pn_confidence := 0.9%Q;
                 pn_method := u "pattern_matching" |}), blank_service)
  /\ u "Onur Aydo" <> u "Onur Aydoğdu"
  /\ in_class (upper_set ++ [CSpace]) 286 = false.
Proof.
  apply (onur_aydogdu_is_cut_short ref_env blank_service
           blank_tr_sentencizer medical_registry); reflexivity.
Defined.

(** * The state of the service across calls *)

Section ServiceState.

Variable E : Env.

Lemma ensure_initialized_ready : forall self,
  initialized self = true -> ensure_initialized E self = (Ok tt, self).
Proof. intros self H. unfold ensure_initialized. now rewrite H. Qed.

Lemma initialize_outcome : forall self,
  (exists self', initialize E self = (Ok tt, self') /\ ready self'
                 /\ medical_terms self' = medical_terms_table)
  \/ (exists e self', initialize E self = (Raise e, self')
                      /\ initialized self' = false
                      /\ matcher self' = matcher self).
Proof.
  intro self. unfold initialize.
  destruct (load_first E models_to_try) as [p | | e].
  - left. eexists. split; [reflexivity|]. split; [|reflexivity].
    split; [reflexivity|]. split; [eexists|]; reflexivity.
  - left. eexists. split; [reflexivity|]. split; [|reflexivity].
    split; [reflexivity|]. split; [eexists|]; reflexivity.
  - right. exists e. eexists. split; [reflexivity|]. split; reflexivity.
Qed.

(** What a call can do to the service: nothing, or what [initialize]
    does when the service is not initialized yet. *)
Lemma ensure_initialized_state : forall self r self',
  ensure_initialized E self = (r, self') ->
  (self' = self /\ r = Ok tt /\ initialized self = true)
  \/ (initialized self = false /\ initialize E self = (r, self')).
Proof.
  intros self r self' H. unfold ensure_initialized in H.
  destruct (initialized self) eqn:Hi.
  - left. injection H as <- <-. auto.
  - right. auto.
Qed.

Lemma process_document_ready : forall self t doc_type p,
  initialized self = true -> nlp self = Some p ->
  matcher self = Some medical_registry ->
  process_document E t doc_type self
  = (match mapM (entity_of E) (doc_ents (nlp_call E p t)) with
     | Ok entities =>
       Ok {| pr_entities := entities;
             pr_custom_entities :=
               map (custom_entity (nlp_call E p t))
                   (matcher_call E medical_registry (nlp_call E p t));
             pr_classification := _classify_document t (nlp_call E p t);
             pr_medical_terms := _extract_medical_terms self t;
             pr_tokens := map token_info (doc_tokens (nlp_call E p t));
             pr_sentences := doc_sents (nlp_call E p t);
             pr_language := doc_lang (nlp_call E p t);
             pr_processing_time := now E |}
     | Raise e => Raise e
     end, self).
Proof.
  intros self t doc_type p Hi Hp Hm.
  unfold process_document, bind, ensure_initialized, call_nlp, lift,
    _extract_custom_entities, bind, call_nlp, call_matcher, ret.
  rewrite Hi, Hp. destruct (mapM _ _); [|reflexivity].
  rewrite Hp, Hm. reflexivity.
Qed.

Lemma calculate_similarity_ready : forall self t1 t2 p,
  initialized self = true -> nlp self = Some p ->
  calculate_similarity E t1 t2 self
  = (Ok {| sim_similarity :=
             doc_similarity E (nlp_call E p t1) (nlp_call E p t2);
           sim_text1_tokens :=
             Z.of_nat (length (doc_tokens (nlp_call E p t1)));
           sim_text2_tokens :=
             Z.of_nat (length (doc_tokens (nlp_call E p t2)));
           sim_method := u "spacy_vectors" |}, self).
Proof.
  intros self t1 t2 p Hi Hp.
  unfold calculate_similarity, bind, ensure_initialized, call_nlp, ret.
  rewrite Hi, Hp. cbv beta iota. rewrite Hp. reflexivity.
Qed.

(** X1.  The three public methods leave an initialized service exactly as
    they found it, whether they return or raise: only [initialize] assigns
    to the fields of the service. *)
Theorem initialized_service_is_not_modified : forall self,
  ready self ->
  (forall t, snd (extract_patient_name E t self) = self)
  /\ (forall t doc_type, snd (process_document E t doc_type self) = self)
  /\ (forall t1 t2, snd (calculate_similarity E t1 t2 self) = self).
Proof.
  intros self (Hi & [p Hp] & Hm). repeat split; intros.
  - now rewrite (extract_ready E self t p medical_registry Hi Hp Hm).
  - now rewrite (process_document_ready self t doc_type p Hi Hp Hm).
  - now rewrite (calculate_similarity_ready self t1 t2 p Hi Hp).
Qed.

(** X2.  Lazy initialization: when the service is not initialized and
    [initialize] succeeds, a call of a public method leaves the service
    initialized and gives the result and state that the same call gives on
    the service [initialize] produces. *)
Theorem first_call_initializes : forall self self',
  initialized self = false ->
  initialize E self = (Ok tt, self') ->
  ready self'
  /\ (forall t, extract_patient_name E t self
                = extract_patient_name E t self')
  /\ (forall t doc_type, process_document E t doc_type self
                         = process_document E t doc_type self')
  /\ (forall t1 t2, calculate_similarity E t1 t2 self
                    = calculate_similarity E t1 t2 self').
Proof.
  intros self self' Hi Hinit.
  pose proof (initialize_ready E self self' Hinit) as Hr.
  split; [exact Hr|]. destruct Hr as (Hi' & _).
  repeat split; intros;
    unfold extract_patient_name, process_document, calculate_similarity;
    unfold bind at 1; symmetry; unfold bind at 1; symmetry;
    rewrite (ensure_initialized_ready self' Hi');
    unfold ensure_initialized; rewrite Hi, Hinit; reflexivity.
Qed.

(** X3.  When the service is not initialized and [initialize] raises, every
    public method raises the same exception and leaves the service
    uninitialized, so that the next call tries again; the routes
    [/extract_patient] and [/process] then answer a request that carries a
    text with status 500 and the message of the exception. *)
Theorem failed_load_is_raised_by_every_method : forall self self' e,
  initialized self = false ->
  initialize E self = (Raise e, self') ->
  initialized self' = false
  /\ (forall t, extract_patient_name E t self = (Raise e, self'))
  /\ (forall t doc_type,
         process_document E t doc_type self = (Raise e, self'))
  /\ (forall t1 t2, calculate_similarity E t1 t2 self = (Raise e, self'))
  /\ (forall fields t,
         Routes.has_text fields "text" t ->
         Routes.extract_patient_name E (Ok (JObj fields)) self
         = ({| Routes.status := 500;
               Routes.body := Routes.FailureBody (exn_str e) (now E) |},
            self')
         /\ Routes.process_document E (Ok (JObj fields)) self
            = ({| Routes.status := 500;
                  Routes.body := Routes.FailureBody (exn_str e) (now E) |},
               self')).
Proof.
  intros self self' e Hi Hinit.
  assert (initialized self' = false) as Hi'.
  { destruct (initialize_outcome self)
      as [(s & Hs & _) | (e' & s & Hs & Hf & _)]; rewrite Hs in Hinit.
    - discriminate.
    - injection Hinit as _ <-. exact Hf. }
  assert (forall t, extract_patient_name E t self = (Raise e, self')) as Hx.
  { intro t. unfold extract_patient_name. unfold bind at 1.
    unfold ensure_initialized. now rewrite Hi, Hinit. }
  assert (forall t ty, process_document E t ty self = (Raise e, self'))
    as Hp.
  { intros t ty. unfold process_document. unfold bind at 1.
    unfold ensure_initialized. now rewrite Hi, Hinit. }
  split; [exact Hi'|]. split; [exact Hx|]. split; [exact Hp|]. split.
  - intros t1 t2. unfold calculate_similarity. unfold bind at 1.
    unfold ensure_initialized. now rewrite Hi, Hinit.
  - intros fields t [Hget Hne]. split.
    + unfold Routes.extract_patient_name, Routes.try_except, Routes.get.
      unfold bind at 1. unfold lift. unfold bind at 1. unfold ret at 1.
      rewrite Hget. destruct t as [|c t]; [congruence|].
      cbn [truthy negb]. cbv iota. unfold bind, Routes.with_text.
      now rewrite Hx.
    + unfold Routes.process_document, Routes.try_except, Routes.get.
      unfold bind at 1. unfold lift. unfold bind at 1. unfold ret at 1.
      rewrite Hget. unfold bind at 1. unfold ret at 1.
      destruct t as [|c t]; [congruence|].
      cbn [truthy negb]. cbv iota. unfold bind, Routes.with_text.
      now rewrite Hp.
Qed.

End ServiceState.

(** * The handlers and the state of the service *)

Section HandlerState.

Variable E : Env.

Lemma keeps_ret : forall (A : Type) (a : A), keeps_state (ret a).
Proof. intros A a self. reflexivity. Qed.

Lemma keeps_raise : forall (A : Type) e, keeps_state (@raise A e).
Proof. intros A e self. reflexivity. Qed.

Lemma keeps_lift : forall (A : Type) (r : result A), keeps_state (lift r).
Proof. intros A r self. reflexivity. Qed.

Lemma keeps_bind : forall (A B : Type) (m : M A) (k : A -> M B),
  keeps_state m -> (forall a, keeps_state (k a)) -> keeps_state (bind m k).
Proof.
  intros A B m k Hm Hk self. unfold bind. specialize (Hm self).
  destruct (m self) as [[a | e] s]; simpl in Hm; subst s.
  - apply Hk.
  - reflexivity.
Qed.

Lemma keeps_call_nlp : forall t, keeps_state (call_nlp E t).
Proof. intros t self. unfold call_nlp. now destruct (nlp self). Qed.

Lemma keeps_call_matcher : forall d, keeps_state (call_matcher E d).
Proof. intros d self. unfold call_matcher. now destruct (matcher self). Qed.

Lemma keeps_found_names : forall t, keeps_state (found_names E t).
Proof.
  intro t. unfold found_names. destruct (regex_names t).
  - apply keeps_bind; [apply keeps_call_nlp|]. intro doc.
    apply keeps_bind; [apply keeps_call_matcher|]. intro ms.
    apply keeps_ret.
  - apply keeps_ret.
Qed.

Lemma keeps_custom_entities : forall t,
  keeps_state (_extract_custom_entities E t).
Proof.
  intro t. unfold _extract_custom_entities.
  apply keeps_bind; [apply keeps_call_nlp|]. intro doc.
  apply keeps_bind; [apply keeps_call_matcher|]. intro ms.
  apply keeps_ret.
Qed.

Lemma keeps_at_most : forall (A : Type) (m : M A),
  keeps_state m -> at_most_initializes E m.
Proof. intros A m H self. left. apply H. Qed.

Lemma at_most_ensure : at_most_initializes E (ensure_initialized E).
Proof.
  intro self. unfold ensure_initialized.
  destruct (initialized self); [left | right]; auto.
Qed.

Lemma at_most_bind_keeps : forall (A B : Type) (m : M A) (k : A -> M B),
  at_most_initializes E m -> (forall a, keeps_state (k a)) ->
  at_most_initializes E (bind m k).
Proof.
  intros A B m k Hm Hk self. unfold bind. specialize (Hm self).
  destruct (m self) as [[a | e] s]; simpl in Hm; simpl.
  - rewrite (Hk a s). exact Hm.
  - exact Hm.
Qed.

Lemma keeps_bind_at_most : forall (A B : Type) (m : M A) (k : A -> M B),
  keeps_state m -> (forall a, at_most_initializes E (k a)) ->
  at_most_initializes E (bind m k).
Proof.
  intros A B m k Hm Hk self. unfold bind. specialize (Hm self).
  destruct (m self) as [[a | e] s]; simpl in Hm; subst s.
  - apply Hk.
  - left. reflexivity.
Qed.

Lemma at_most_extract : forall t,
  at_most_initializes E (extract_patient_name E t).
Proof.
  intro t. unfold extract_patient_name.
  apply at_most_bind_keeps; [apply at_most_ensure|]. intros _.
  apply keeps_bind; [apply keeps_found_names|]. intro f. apply keeps_ret.
Qed.

Lemma at_most_process : forall t doc_type,
  at_most_initializes E (process_document E t doc_type).
Proof.
  intros t doc_type. unfold process_document.
  apply at_most_bind_keeps; [apply at_most_ensure|]. intros _.
  apply keeps_bind; [apply keeps_call_nlp|]. intro doc.
  apply keeps_bind; [apply keeps_lift|]. intro ents.
  apply keeps_bind; [apply keeps_custom_entities|]. intro cs.
  intro self. reflexivity.
Qed.

Lemma at_most_similarity : forall t1 t2,
  at_most_initializes E (calculate_similarity E t1 t2).
Proof.
  intros t1 t2. unfold calculate_similarity.
  apply at_most_bind_keeps; [apply at_most_ensure|]. intros _.
  apply keeps_bind; [apply keeps_call_nlp|]. intro d1.
  apply keeps_bind; [apply keeps_call_nlp|]. intro d2.
  apply keeps_ret.
Qed.

Lemma at_most_not_a_string : forall (A : Type) e,
  at_most_initializes E (@Routes.not_a_string E A e).
Proof.
  intros A e. unfold Routes.not_a_string.
  apply at_most_bind_keeps; [apply at_most_ensure|]. intros _.
  apply keeps_raise.
Qed.

Lemma at_most_with_text : forall (A : Type) first_use v (f : text -> M A),
  (forall t, at_most_initializes E (f t)) ->
  at_most_initializes E (Routes.with_text E first_use v f).
Proof.
  intros A first_use v f Hf. destruct v; simpl; try apply at_most_not_a_string.
  apply Hf.
Qed.

Lemma keeps_get : forall data key default,
  keeps_state (Routes.get data key default).
Proof.
  intros data key default. destruct data; simpl;
    try apply keeps_raise. apply keeps_ret.
Qed.

Lemma try_except_state : forall (block : M Routes.Response) self,
  snd (Routes.try_except E block self) = snd (block self).
Proof.
  intros block self. unfold Routes.try_except.
  now destruct (block self) as [[r | e] s].
Qed.

(** The four handlers that read a request at most initialize the
    service. *)
Lemma post_handlers_state : forall request self,
  let changed (h : Routes.handler) :=
    snd (h self) = self
    \/ (initialized self = false
        /\ snd (h self) = snd (initialize E self)) in
  changed (Routes.process_document E request)
  /\ changed (Routes.calculate_similarity E request)
  /\ changed (Routes.extract_entities E request)
  /\ changed (Routes.extract_patient_name E request).
Proof.
  intros request self changed. unfold changed.
  unfold Routes.process_document, Routes.calculate_similarity,
    Routes.extract_entities, Routes.extract_patient_name.
  rewrite !try_except_state.
  repeat split.
  - apply keeps_bind_at_most; [apply keeps_lift|]. intro data.
    apply keeps_bind_at_most; [apply keeps_get|]. intro text.
    apply keeps_bind_at_most; [apply keeps_get|]. intro ty.
    destruct (negb (truthy text)); [apply keeps_at_most, keeps_ret|].
    apply at_most_bind_keeps; [|intro; apply keeps_ret].
    apply at_most_with_text. intro t. apply at_most_process.
  - apply keeps_bind_at_most; [apply keeps_lift|]. intro data.
    apply keeps_bind_at_most; [apply keeps_get|]. intro text1.
    apply keeps_bind_at_most; [apply keeps_get|]. intro text2.
    destruct (negb (truthy text1) || negb (truthy text2));
      [apply keeps_at_most, keeps_ret|].
    apply at_most_bind_keeps; [|intro; apply keeps_ret].
    apply at_most_with_text. intro t1.
    apply at_most_with_text. intro t2. apply at_most_similarity.
  - apply keeps_bind_at_most; [apply keeps_lift|]. intro data.
    apply keeps_bind_at_most; [apply keeps_get|]. intro text.
    destruct (negb (truthy text)); [apply keeps_at_most, keeps_ret|].
    apply at_most_bind_keeps; [|intro; apply keeps_ret].
    apply at_most_with_text. intro t. apply at_most_process.
  - apply keeps_bind_at_most; [apply keeps_lift|]. intro data.
    apply keeps_bind_at_most; [apply keeps_get|]. intro text.
    destruct (negb (truthy text)); [apply keeps_at_most, keeps_ret|].
    apply at_most_bind_keeps; [|intro; apply keeps_ret].
    apply at_most_with_text. intro t. apply at_most_extract.
Qed.

Lemma initialize_consistent : forall self,
  consistent (snd (initialize E self)).
Proof.
  intros self Hi.
  destruct (initialize_outcome E self)
    as [(s & Hs & (_ & Hp & Hm) & Ht) | (e & s & Hs & Hf & _)];
    rewrite Hs in *; simpl in *.
  - auto.
  - congruence.
Qed.

(** X4.  The service is consistent when it is created, and every handler
    keeps it so, whatever the request: a service marked initialized always
    holds a pipeline, the registered patterns and the term dictionary. *)
Theorem handlers_keep_service_consistent :
  consistent __init__
  /\ forall self request,
       consistent self ->
       consistent (snd (Routes.health_check E self))
       /\ consistent (snd (Routes.initialize_nlp E self))
       /\ consistent (snd (Routes.process_document E request self))
       /\ consistent (snd (Routes.calculate_similarity E request self))
       /\ consistent (snd (Routes.extract_entities E request self))
       /\ consistent (snd (Routes.extract_patient_name E request self)).
Proof.
  split; [intro H; discriminate|].
  intros self request Hc.
  assert (forall s, s = self
                    \/ (initialized self = false
                        /\ s = snd (initialize E self)) ->
                    consistent s) as Hstep.
  { intros s [-> | [_ ->]]; [exact Hc | apply initialize_consistent]. }
  destruct (post_handlers_state request self) as (H1 & H2 & H3 & H4).
  split; [exact Hc|]. split.
  - unfold Routes.initialize_nlp. rewrite try_except_state.
    unfold bind, ret.
    pose proof (initialize_consistent self) as Hi.
    destruct (initialize E self) as [[[] | e] s]; exact Hi.
  - repeat split; apply Hstep; assumption.
Qed.

(** X5.  A request whose JSON body could not be read, or is not an object
    (null, a number, a string, an array), is answered with status 500 by
    the four POST routes, not with 400, and the service is left as it
    was. *)
Theorem non_object_body_is_answered_500 : forall self,
  let failed (h : Routes.handler) :=
    Routes.status (fst (h self)) = 500 /\ snd (h self) = self in
  (forall e,
      failed (Routes.process_document E (Raise e))
      /\ failed (Routes.calculate_similarity E (Raise e))
      /\ failed (Routes.extract_entities E (Raise e))
      /\ failed (Routes.extract_patient_name E (Raise e)))
  /\ (forall data,
         (forall fields, data <> JObj fields) ->
         failed (Routes.process_document E (Ok data))
         /\ failed (Routes.calculate_similarity E (Ok data))
         /\ failed (Routes.extract_entities E (Ok data))
         /\ failed (Routes.extract_patient_name E (Ok data))).
Proof.
  intros self failed. unfold failed. split.
  - intro e. repeat split; reflexivity.
  - intros data Hd.
    destruct data; try (repeat split; reflexivity).
    exfalso. now apply (Hd fields).
Qed.

(** X6.  For a request that carries a non-empty text, the answer of
    [/extract_patient] follows the outcome of [extract_patient_name] on
    that text: when the method returns, status 200 with its result, also
    when the result is [None]; when it raises, status 500 with the message
    of the exception; the service is left as the method left it.
    [/similarity] answers a request that carries two non-empty texts in
    the same way from the outcome of [calculate_similarity]. *)
Theorem route_answer_follows_the_method : forall self fields,
  (forall t,
      Routes.has_text fields "text" t ->
      Routes.extract_patient_name E (Ok (JObj fields)) self
      = match extract_patient_name E t self with
        | (Ok patient_info, self') =>
          ({| Routes.status := 200;
              Routes.body := Routes.PatientBody patient_info (now E) |},
           self')
        | (Raise e, self') =>
          ({| Routes.status := 500;
              Routes.body := Routes.FailureBody (exn_str e) (now E) |},
           self')
        end)
  /\ (forall t1 t2,
         Routes.has_text fields "text1" t1 ->
         Routes.has_text fields "text2" t2 ->
         Routes.calculate_similarity E (Ok (JObj fields)) self
         = match calculate_similarity E t1 t2 self with
           | (Ok result, self') =>
             ({| Routes.status := 200;
                 Routes.body := Routes.SimilarityBody result (now E) |},
              self')
           | (Raise e, self') =>
             ({| Routes.status := 500;
                 Routes.body := Routes.FailureBody (exn_str e) (now E) |},
              self')
           end).
Proof.
  intros self fields. split.
  - intros t [Hget Hne].
    unfold Routes.extract_patient_name, Routes.try_except, Routes.get.
    unfold bind at 1. unfold lift. unfold bind at 1. unfold ret at 1.
    rewrite Hget. destruct t as [|c t]; [congruence|].
    cbn [truthy negb]. cbv iota. unfold bind, Routes.with_text.
    destruct (extract_patient_name E (c :: t) self) as [[v | e] s];
      reflexivity.
  - intros t1 t2 [Hg1 Hn1] [Hg2 Hn2].
    unfold Routes.calculate_similarity, Routes.try_except, Routes.get.
    unfold bind at 1. unfold lift. unfold bind at 1. unfold ret at 1.
    rewrite Hg1. unfold bind at 1. unfold ret at 1. rewrite Hg2.
    destruct t1 as [|c1 t1]; [congruence|].
    destruct t2 as [|c2 t2]; [congruence|].
    cbn [truthy negb orb]. cbv iota. unfold bind, Routes.with_text.
    destruct (calculate_similarity E (c1 :: t1) (c2 :: t2) self)
      as [[v | e] s]; reflexivity.
Qed.

(** X7.  [/initialize] answers with status 200 or 500, and a [/health]
    request that follows it reports the service as initialized exactly
    when that status was 200. *)
Theorem health_reports_initialization : forall self,
  (Routes.status (fst (Routes.initialize_nlp E self)) = 200
   \/ Routes.status (fst (Routes.initialize_nlp E self)) = 500)
  /\ Routes.health_check E (snd (Routes.initialize_nlp E self))
     = ({| Routes.status := 200;
           Routes.body :=
             Routes.HealthBody
               (Routes.status (fst (Routes.initialize_nlp E self)) =? 200)
               (now E) |},
        snd (Routes.initialize_nlp E self)).
Proof.
  intro self. unfold Routes.initialize_nlp, Routes.try_except, bind, ret,
    Routes.health_check, Routes.ok.
  destruct (initialize_outcome E self)
    as [(s & Hs & (Hi & _) & _) | (e & s & Hs & Hf & _)];
    rewrite Hs; simpl.
  - rewrite Hi. auto.
  - rewrite Hf. auto.
Qed.

Lemma process_route_object : forall fields self,
  Routes.process_document E (Ok (JObj fields)) self
  = if negb (truthy (dict_get fields (u "text") (JStr [])))
    then (Routes.bad_request "No text provided", self)
    else
      match Routes.with_text E (nlp_refuses E) (dict_get fields (u "text") (JStr []))
              (fun t => process_document E t (JStr (u "medical"))) self with
      | (Ok result, s) => (Routes.ok (Routes.ProcessBody result (now E)), s)
      | (Raise e, s) =>
        ({| Routes.status := 500;
            Routes.body := Routes.FailureBody (exn_str e) (now E) |}, s)
      end.
Proof.
  intros fields self.
  unfold Routes.process_document, Routes.try_except, Routes.get, bind,
    lift, ret.
  destruct (negb (truthy (dict_get fields (u "text") (JStr []))));
    [reflexivity|].
  change (fun t : text =>
            process_document E t
              (dict_get fields (u "type") (JStr (u "medical"))))
    with (fun t : text => process_document E t (JStr (u "medical"))).
  destruct (Routes.with_text E _ _ _ self) as [[r | e] s]; reflexivity.
Qed.

Lemma entities_route_object : forall fields self,
  Routes.extract_entities E (Ok (JObj fields)) self
  = if negb (truthy (dict_get fields (u "text") (JStr [])))
    then (Routes.bad_request "No text provided", self)
    else
      match Routes.with_text E (nlp_refuses E) (dict_get fields (u "text") (JStr []))
              (fun t => process_document E t (JStr (u "medical"))) self with
      | (Ok result, s) =>
        (Routes.ok (Routes.EntitiesBody (pr_entities result)
                                        (pr_custom_entities result)
                                        (pr_medical_terms result) (now E)),
         s)
      | (Raise e, s) =>
        ({| Routes.status := 500;
            Routes.body := Routes.FailureBody (exn_str e) (now E) |}, s)
      end.
Proof.
  intros fields self.
  unfold Routes.extract_entities, Routes.try_except, Routes.get, bind,
    lift, ret.
  destruct (negb (truthy (dict_get fields (u "text") (JStr []))));
    [reflexivity|].
  destruct (Routes.with_text E _ _ _ self) as [[r | e] s]; reflexivity.
Qed.

(** X8.  On every request [/entities] leaves the service in the same state
    as [/process] and answers with the same status; where [/process]
    answers with a result, [/entities] answers with the entities, custom
    entities and medical terms of that result, and otherwise with the same
    body.  The field "type" of the request has no effect. *)
Theorem entities_is_a_view_of_process : forall request self,
  snd (Routes.extract_entities E request self)
  = snd (Routes.process_document E request self)
  /\ Routes.status (fst (Routes.extract_entities E request self))
     = Routes.status (fst (Routes.process_document E request self))
  /\ Routes.body (fst (Routes.extract_entities E request self))
     = match Routes.body (fst (Routes.process_document E request self)) with
       | Routes.ProcessBody result timestamp =>
         Routes.EntitiesBody (pr_entities result)
                             (pr_custom_entities result)
                             (pr_medical_terms result) timestamp
       | other => other
       end.
Proof.
  intros request self.
  destruct request as [data | e]; [|repeat split; reflexivity].
  destruct data; try (repeat split; reflexivity).
  rewrite process_route_object, entities_route_object.
  destruct (negb (truthy (dict_get fields (u "text") (JStr []))));
    [repeat split; reflexivity|].
  destruct (Routes.with_text E _ _ _ self) as [[r | e] s];
    repeat split; reflexivity.
Qed.

End HandlerState.

(** * Literals that can never match *)

Section FiniteTable.

Local Open Scope N_scope.

Lemma in_table_range : forall c, c <= 383 -> In c table_range.
Proof.
  intros c H. unfold table_range. apply in_map_iff.
  exists (N.to_nat c). split; [apply N2Nat.id|].
  apply in_seq. lia.
Qed.

Lemma beyond_table : forall c,
  383 < c ->
  lower_cp c = [c] /\ upper_cp c = [c] /\ title_cp c = [c]
  /\ isalpha_cp c = false.
Proof.
  intros c H.
  assert (forall lo hi, hi <= 383 -> between lo hi c = false) as Hb
    by (intros; apply between_false; lia).
  assert (forall k, k <= 383 -> (c =? k) = false) as He
    by (intros; apply N.eqb_neq; lia).
  unfold title_cp, upper_cp, lower_cp, isalpha_cp.
  rewrite !Hb, !He by lia. repeat split; reflexivity.
Qed.

(** A property of code points holds everywhere when it holds on the table
    and beyond it. *)
Lemma table_check : forall P : N -> bool,
  forallb P table_range = true ->
  (forall c, 383 < c -> P c = true) ->
  forall c, P c = true.
Proof.
  intros P Htable Hbeyond c.
  destruct (N.le_gt_cases c 383) as [Hle | Hgt].
  - rewrite forallb_forall in Htable. apply Htable. now apply in_table_range.
  - now apply Hbeyond.
Qed.

Lemma changed_beyond_table : forall c,
  383 < c -> changed_by_lower c = false /\ changed_by_upper c = false.
Proof.
  intros c H. destruct (beyond_table c H) as (Hl & Hu & _).
  unfold changed_by_lower, changed_by_upper. rewrite Hl, Hu.
  simpl. rewrite N.eqb_refl. auto.
Qed.

(** What [lower] produces is left alone by [lower]; the same for
    [upper]. *)
Lemma lower_image_fixed : forall c x,
  In x (lower_cp c) -> changed_by_lower x = false.
Proof.
  intros c x Hin.
  assert (forallb (fun y => negb (changed_by_lower y)) (lower_cp c) = true)
    as H.
  { apply (table_check
             (fun c => forallb (fun y => negb (changed_by_lower y))
                               (lower_cp c))).
    - vm_compute. reflexivity.
    - intros c' Hc'. destruct (beyond_table c' Hc') as (-> & _).
      destruct (changed_beyond_table c' Hc') as (Hl & _).
      simpl. now rewrite Hl. }
  rewrite forallb_forall in H. apply negb_true_iff. now apply H.
Qed.

Lemma upper_image_fixed : forall c x,
  In x (upper_cp c) -> changed_by_upper x = false.
Proof.
  intros c x Hin.
  assert (forallb (fun y => negb (changed_by_upper y)) (upper_cp c) = true)
    as H.
  { apply (table_check
             (fun c => forallb (fun y => negb (changed_by_upper y))
                               (upper_cp c))).
    - vm_compute. reflexivity.
    - intros c' Hc'. destruct (beyond_table c' Hc') as (_ & -> & _).
      destruct (changed_beyond_table c' Hc') as (_ & Hu).
      simpl. now rewrite Hu. }
  rewrite forallb_forall in H. apply negb_true_iff. now apply H.
Qed.

End FiniteTable.

Section DeadLiterals.

Lemma startswith_incl : forall sub s,
  startswith sub s = true -> incl sub s.
Proof.
  induction sub as [|a sub IH]; intros s H x Hx; [contradiction|].
  destruct s as [|b s]; [discriminate|]. simpl in H.
  apply andb_true_iff in H. destruct H as [Hab Hs].
  apply N.eqb_eq in Hab. subst b.
  destruct Hx as [<- | Hx]; [now left | right; now apply (IH s)].
Qed.

Lemma str_in_incl : forall sub s, str_in sub s = true -> incl sub s.
Proof.
  intros sub s. induction s as [|c s IH]; intro H.
  - simpl in H. rewrite orb_false_r in H. now apply startswith_incl.
  - rewrite str_in_cons in H. apply orb_true_iff in H.
    destruct H as [H | H]; [now apply startswith_incl|].
    intros x Hx. right. now apply IH.
Qed.

Lemma capital_never_in_lower : forall k t,
  has_capital k = true -> str_in k (lower t) = false.
Proof.
  intros k t Hk. destruct (str_in k (lower t)) eqn:Hin; [|reflexivity].
  exfalso. unfold has_capital in Hk. apply existsb_exists in Hk.
  destruct Hk as (c & Hc & Hchanged).
  apply (str_in_incl _ _ Hin) in Hc. unfold lower in Hc.
  apply in_flat_map in Hc. destruct Hc as (c0 & _ & Hc).
  apply lower_image_fixed in Hc. congruence.
Qed.

Lemma small_never_in_upper : forall k t,
  has_small k = true -> str_in k (upper t) = false.
Proof.
  intros k t Hk. destruct (str_in k (upper t)) eqn:Hin; [|reflexivity].
  exfalso. unfold has_small in Hk. apply existsb_exists in Hk.
  destruct Hk as (c & Hc & Hchanged).
  apply (str_in_incl _ _ Hin) in Hc. unfold upper in Hc.
  apply in_flat_map in Hc. destruct Hc as (c0 & _ & Hc).
  apply upper_image_fixed in Hc. congruence.
Qed.

Lemma existsb_filter_dead : forall (dead : text -> bool) s ks,
  (forall k, dead k = true -> str_in k s = false) ->
  existsb (fun k => str_in k s) ks
  = existsb (fun k => str_in k s) (filter (fun k => negb (dead k)) ks).
Proof.
  intros dead s ks Hdead. induction ks as [|k ks IH]; [reflexivity|].
  simpl. destruct (dead k) eqn:Hk; simpl.
  - now rewrite (Hdead k Hk).
  - now rewrite IH.
Qed.

(** X9.  The classification keywords that hold a capital letter, which are
    the double-encoded ones, can never occur in a lower-cased text: the
    classification is decided by "sgk" and "cihaz raporu", then
    "prescription", then "odyometri" and "audiometry", then "rapor",
    "muayene" and "bulgular", with the results of the four rules
    unchanged. *)
Theorem double_encoded_keywords_never_match : forall t doc,
  _classify_document t doc = first_rule effective_rules (lower t)
  /\ map fst effective_rules
     = [ [u "sgk"; u "cihaz raporu"];
         [u "prescription"];
         [u "odyometri"; u "audiometry"];
         [u "rapor"; u "muayene"; u "bulgular"] ]
  /\ map snd effective_rules = map snd classification_rules.
Proof.
  intros t doc. split; [|split; reflexivity].
  rewrite classify_is_first_rule. unfold effective_rules.
  induction classification_rules as [|[kws c] rules IH]; [reflexivity|].
  cbn [map first_rule fst snd]. rewrite IH. unfold any_in.
  now rewrite <- (existsb_filter_dead has_capital (lower t) kws
                    (fun k => capital_never_in_lower k t)).
Qed.

(** X10.  The exclusion entries that hold a small letter can never occur in
    an upper-cased name: whether a name is excluded is decided by the
    fourteen other entries alone. *)
Theorem double_encoded_exclusions_never_match : forall name,
  existsb (fun exclude_term => str_in exclude_term (upper name))
          exclude_terms
  = existsb (fun exclude_term => str_in exclude_term (upper name))
            effective_exclude_terms
  /\ effective_exclude_terms
     = [ u "DOKTOR"; u "DR"; u "SORUMLU"; u "HEKIM"; u "UZMAN"; u "PROF";
         u "DOÃ‡"; u "SGK"; u "HASTANE"; u "KLINIK"; u "MERKEZ"; u "TIP";
         u "UNIVERSITE"; u "UMIT KANAY" ].
Proof.
  intro name. split; [|reflexivity].
  apply (existsb_filter_dead has_small (upper name) exclude_terms).
  intros k Hk. now apply small_never_in_upper.
Qed.

Lemma dead_spec_never_holds : forall ts t,
  lower_has_capital ts = true -> tok_ok ts t = false.
Proof.
  intros ts t H. unfold lower_has_capital in H. unfold tok_ok.
  destruct (ts_lower ts) as [s|]; [|discriminate]. cbn [opt_holds].
  destruct (text_eqb (lower (tok_text t)) s) eqn:He; [|reflexivity].
  exfalso. apply text_eqb_eq in He. subst s.
  unfold has_capital in H. apply existsb_exists in H.
  destruct H as (c & Hc & Hchanged). unfold lower in Hc.
  apply in_flat_map in Hc. destruct Hc as (c0 & _ & Hc).
  apply lower_image_fixed in Hc. congruence.
Qed.

Lemma dead_pattern_never_holds : forall p toks,
  toks_ok p toks = true -> existsb lower_has_capital p = false.
Proof.
  induction p as [|ts p IH]; intros toks H; [reflexivity|].
  destruct toks as [|t toks]; [discriminate|]. cbn [toks_ok] in H.
  apply andb_true_iff in H. destruct H as [Ht Hp]. cbn [existsb].
  rewrite (IH toks Hp), orb_false_r.
  destruct (lower_has_capital ts) eqn:Hd; [|reflexivity].
  rewrite (dead_spec_never_holds ts t Hd) in Ht. discriminate.
Qed.

(** X11.  A token pattern one of whose [LOWER] values holds a capital
    letter is satisfied by no tokens: every match that the registered
    patterns justify is justified by the thirteen patterns that remain,
    three of them for [PATIENT_NAME]. *)
Theorem double_encoded_patterns_never_match :
  (forall d m, justified medical_registry d m ->
               justified effective_registry d m)
  /\ effective_registry
     = [ (u "TC_NUMBER", [tc_pattern]);
         (u "MEDICAL_DEVICE",
          [ [LOWER "hearing"; LOWER "aid"];
            [LOWER "koklear"; LOWER "implant"];
            [LOWER "cochlear"; LOWER "implant"] ]);
         (u "MEDICAL_CONDITION",
          [ [LOWER "hearing"; LOWER "loss"];
            [LOWER "tinnitus"];
            [LOWER "vertigo"] ]);
         (u "PATIENT_NAME",
          [ [LOWER "hasta"; LOWER "adi"; LOWER "soyadi"; LOWER ":";
             IS_ALPHA_LENGTH_GE 2];
            [LOWER "hasta"; LOWER "adi"; LOWER ":"; IS_ALPHA_LENGTH_GE 2];
            [LOWER "patient"; LOWER "name"; LOWER ":";
             IS_ALPHA_LENGTH_GE 2] ]);
         (u "DOCTOR_STAFF",
          [ [LOWER "dr"; LOWER "."; IS_ALPHA];
            [LOWER "doktor"; IS_ALPHA];
            [LOWER "sorumlu"; IS_ALPHA] ]) ].
Proof.
  split; [|reflexivity].
  intros d [[key s] e] (pats & p & Hreg & Hp & Hok).
  exists (filter (fun p => negb (existsb lower_has_capital p)) pats), p.
  split; [|split; [|exact Hok]].
  - unfold effective_registry. apply in_map_iff.
    exists (key, pats). split; [reflexivity | exact Hreg].
  - apply filter_In. split; [exact Hp|].
    now rewrite (dead_pattern_never_holds p _ Hok).
Qed.

(** X12.  Every listed term that is not written in ASCII holds, once
    lower-cased, a small a with tilde, diaeresis or ring.  So in a text
    whose lower-cased form [text.lower()] holds none of these three
    letters (as that of a text in the Turkish alphabet does), only the
    terms written in ASCII are reported. *)
Theorem only_ascii_terms_in_clean_text : forall self t,
  medical_terms self = medical_terms_table ->
  forallb (fun c => negb (between 227 229 c)) (lower t) = true ->
  Forall (fun h => is_ascii (hit_term h) = true)
         (_extract_medical_terms self t).
Proof.
  intros self t Hd Hclean. rewrite extract_by_entries, Hd.
  apply Forall_forall. intros h Hh.
  apply in_map_iff in Hh. destruct Hh as ([c term] & <- & He).
  apply filter_In in He. destruct He as [Hentry Hocc].
  cbn [hit_of hit_term fst snd] in *.
  assert (forallb (fun e => is_ascii (snd e)
                            || existsb (between 227 229) (lower (snd e)))
                  (term_entries medical_terms_table) = true) as Htable
    by (vm_compute; reflexivity).
  rewrite forallb_forall in Htable. specialize (Htable _ Hentry).
  cbn [snd] in Htable. apply orb_true_iff in Htable.
  destruct Htable as [Ha | Hacc]; [exact Ha|]. exfalso.
  apply existsb_exists in Hacc. destruct Hacc as (x & Hx & Hrange).
  apply (str_in_incl _ _ Hocc) in Hx.
  rewrite forallb_forall in Hclean. specialize (Hclean x Hx).
  rewrite Hrange in Hclean. discriminate.
Qed.

End DeadLiterals.

(** * Where a term hit lies, and what a larger text keeps *)

Section Occurrences.

Lemma startswith_firstn : forall sub s,
  startswith sub s = true ->
  firstn (length sub) s = sub /\ length sub <= length s.
Proof.
  induction sub as [|a sub IH]; intros s H; [split; [reflexivity | simpl; lia]|].
  destruct s as [|b s]; [discriminate|]. simpl in H.
  apply andb_true_iff in H. destruct H as [Hab Hs].
  apply N.eqb_eq in Hab. subst b. destruct (IH s Hs) as [Hf Hl].
  simpl. rewrite Hf. split; [reflexivity | lia].
Qed.

Lemma startswith_app : forall sub s b,
  startswith sub s = true -> startswith sub (s ++ b) = true.
Proof.
  induction sub as [|a sub IH]; intros s b H; [reflexivity|].
  destruct s as [|c s]; [discriminate|]. simpl in *.
  apply andb_true_iff in H. destruct H as [Hac Hs].
  rewrite Hac. simpl. now apply IH.
Qed.

Lemma occurs_at_slice : forall sub s n,
  occurs_at sub s n ->
  slice s n (n + length sub) = sub /\ n + length sub <= length s.
Proof.
  intros sub s n [Hs Hn]. apply startswith_firstn in Hs.
  destruct Hs as [Hf Hl]. rewrite length_skipn in Hl.
  unfold slice. replace (n + length sub - n) with (length sub) by lia.
  split; [exact Hf | lia].
Qed.

Lemma occurs_at_embedded : forall sub s n a b,
  occurs_at sub s n -> occurs_at sub (a ++ s ++ b) (length a + n).
Proof.
  intros sub s n a b [Hs Hn]. split.
  - rewrite skipn_app. rewrite skipn_all2 by lia.
    replace (length a + n - length a) with n by lia. cbn [app].
    rewrite skipn_app. replace (n - length s) with 0 by lia.
    cbn [skipn]. now apply startswith_app.
  - rewrite !length_app. lia.
Qed.

Lemma occurs_at_str_in : forall sub s n,
  occurs_at sub s n -> str_in sub s = true.
Proof.
  intros sub s. induction s as [|c s IH]; intros n [Hs Hn].
  - simpl in Hn. assert (n = 0) by lia. subst n. simpl in *.
    now rewrite Hs.
  - rewrite str_in_cons. destruct n as [|n].
    + simpl in Hs. now rewrite Hs.
    + apply orb_true_iff. right. apply (IH n). split.
      * exact Hs.
      * simpl in Hn. lia.
Qed.

Lemma lower_app : forall a b, lower (a ++ b) = lower a ++ lower b.
Proof. intros. unfold lower. apply flat_map_app. Qed.

Lemma str_in_embedded : forall sub s a b,
  str_in sub s = true -> str_in sub (a ++ s ++ b) = true.
Proof.
  intros sub s a b H.
  destruct (find_first_occurrence sub s H) as (n & _ & Ho & _).
  apply occurs_at_str_in with (length a + n).
  now apply occurs_at_embedded.
Qed.

Lemma table_terms_keep_length :
  forallb (fun e : text * text =>
             Nat.eqb (length (lower (snd e))) (length (snd e)))
          (term_entries medical_terms_table) = true.
Proof. vm_compute. reflexivity. Qed.

(** X13.  Every hit of [_extract_medical_terms] delimits an occurrence: its
    start and end are offsets into the lower-cased text, with
    0 <= start < end <= len, and the lower-cased text between them is the
    lower-cased term. *)
Theorem term_hit_delimits_occurrence : forall self t,
  medical_terms self = medical_terms_table ->
  Forall (fun h =>
            (0 <= hit_start h)%Z
            /\ (hit_start h < hit_end h)%Z
            /\ (hit_end h <= len (lower t))%Z
            /\ slice (lower t) (Z.to_nat (hit_start h))
                               (Z.to_nat (hit_end h))
               = lower (hit_term h))
         (_extract_medical_terms self t).
Proof.
  intros self t Hd. rewrite extract_by_entries, Hd.
  apply Forall_forall. intros h Hh.
  apply in_map_iff in Hh. destruct Hh as ([c term] & <- & He).
  apply filter_In in He. destruct He as [Hentry Hocc].
  cbn [hit_of hit_term hit_start hit_end fst snd] in *.
  pose proof table_terms_keep_length as Hlen.
  rewrite forallb_forall in Hlen. specialize (Hlen _ Hentry).
  cbn [snd] in Hlen. apply Nat.eqb_eq in Hlen.
  assert (forallb (fun e : text * text => negb (Nat.eqb (length (snd e)) 0))
                  (term_entries medical_terms_table) = true) as Hne
    by (vm_compute; reflexivity).
  rewrite forallb_forall in Hne. specialize (Hne _ Hentry).
  cbn [snd] in Hne. apply negb_true_iff, Nat.eqb_neq in Hne.
  destruct (find_first_occurrence _ _ Hocc) as (n & Hn & Ho & _).
  rewrite Hn. apply occurs_at_slice in Ho. destruct Ho as [Hs Hle].
  unfold len. rewrite <- Hlen.
  replace (Z.to_nat (Z.of_nat n)) with n by lia.
  replace (Z.to_nat (Z.of_nat n + Z.of_nat (length (lower term))))
    with (n + length (lower term)) by lia.
  repeat split; try lia. exact Hs.
Qed.

(** X14.  A term found in a text is found in every text that contains it:
    the larger text has a hit for the same term and category, which starts
    no later than the occurrence carried over. *)
Theorem found_terms_survive_embedding : forall self t before after h,
  In h (_extract_medical_terms self t) ->
  exists h',
    In h' (_extract_medical_terms self (before ++ t ++ after))
    /\ hit_term h' = hit_term h
    /\ hit_category h' = hit_category h
    /\ (hit_start h' <= len (lower before) + hit_start h)%Z.
Proof.
  intros self t a b h Hh. rewrite extract_by_entries in *.
  apply in_map_iff in Hh. destruct Hh as ([c term] & <- & He).
  apply filter_In in He. destruct He as [Hentry Hocc].
  cbn [fst snd] in *.
  assert (str_in (lower term) (lower (a ++ t ++ b)) = true) as Hocc'.
  { rewrite !lower_app. now apply str_in_embedded. }
  exists (hit_of (lower (a ++ t ++ b)) c term).
  split; [|split; [reflexivity | split; [reflexivity|]]].
  - apply in_map_iff. exists (c, term). split; [reflexivity|].
    apply filter_In. split; [exact Hentry | exact Hocc'].
  - cbn [hit_of hit_start].
    destruct (find_first_occurrence _ _ Hocc) as (n & Hn & Ho & _).
    destruct (find_first_occurrence _ _ Hocc') as (n' & Hn' & _ & Hmin).
    rewrite Hn, Hn'. unfold len.
    destruct (Nat.le_gt_cases n' (length (lower a) + n)) as [Hle | Hgt];
      [lia|].
    exfalso. apply (Hmin _ Hgt). rewrite !lower_app.
    now apply occurs_at_embedded.
Qed.

Lemma any_in_embedded : forall keywords t before after,
  any_in keywords (lower t) = true ->
  any_in keywords (lower (before ++ t ++ after)) = true.
Proof.
  intros kws t a b H. unfold any_in in *.
  apply existsb_exists in H. destruct H as (k & Hk & Hin).
  apply existsb_exists. exists k. split; [exact Hk|].
  rewrite !lower_app. now apply str_in_embedded.
Qed.

(** X15.  Text added before or after a document never takes the type
    sgk_device_report away from it, and a document classified as other
    contains no part that is classified otherwise. *)
Theorem classification_survives_embedding :
  forall t before after doc doc',
  (cls_type (_classify_document t doc) = u "sgk_device_report" ->
   cls_type (_classify_document (before ++ t ++ after) doc')
   = u "sgk_device_report")
  /\ (cls_type (_classify_document (before ++ t ++ after) doc') = u "other" ->
      cls_type (_classify_document t doc) = u "other").
Proof.
  intros t a b doc doc'.
  pose proof (fun kws => any_in_embedded kws t a b) as Hmono.
  unfold _classify_document.
  repeat match goal with
         | |- context [any_in ?k (lower t)] =>
           let H := fresh "H" in
           pose proof (Hmono k) as H;
           destruct (any_in k (lower t));
           [rewrite (H eq_refl) | clear H]
         end;
    split; intro Hc; try reflexivity;
    try (vm_compute in Hc; discriminate);
    repeat match goal with
           | _ : context [if ?x then _ else _] |- _ => destruct x
           | |- context [if ?x then _ else _] => destruct x
           end;
    try reflexivity; vm_compute in Hc; discriminate.
Qed.

End Occurrences.

(** * Which candidate is returned, and from which path *)

Section Paths.

Lemma regex_candidate_tagged : forall m r,
  In r (regex_candidate m) ->
  pn_method r = u "pattern_matching" /\ pn_confidence r = 0.9%Q.
Proof.
  intros m r. unfold regex_candidate.
  destruct (negb _ && _); [|contradiction].
  intros [<- | []]. split; reflexivity.
Qed.

Lemma regex_names_tagged : forall t r,
  In r (regex_names t) ->
  pn_method r = u "pattern_matching" /\ pn_confidence r = 0.9%Q.
Proof.
  intros t r Hin. unfold regex_names in Hin.
  apply in_flat_map in Hin. destruct Hin as (pattern & _ & Hin).
  apply in_flat_map in Hin. destruct Hin as (m & _ & Hin).
  now apply regex_candidate_tagged with m.
Qed.

Lemma matcher_names_tagged : forall doc ms r,
  In r (matcher_names doc ms) ->
  pn_method r = u "spacy_matching" /\ pn_confidence r = 0.8%Q.
Proof.
  intros doc ms r Hin. unfold matcher_names in Hin.
  apply in_flat_map in Hin. destruct Hin as (m & _ & Hin).
  now apply matcher_candidate_tagged with doc m.
Qed.

(** With equal confidences [max] keeps the first element. *)
Lemma best_match_same_confidence : forall pool q,
  (forall r, In r pool -> pn_confidence r = q) ->
  best_match pool = hd_error pool.
Proof.
  intros [|x rest] q H; [reflexivity|]. simpl. f_equal.
  assert (forall r, In r rest -> pn_confidence r = pn_confidence x) as Hx.
  { intros r Hr. rewrite (H x) by now left. apply H. now right. }
  clear H. induction rest as [|y rest IH]; [reflexivity|]. simpl.
  replace (Qgtb (pn_confidence y) (pn_confidence x)) with false.
  - apply IH. intros r Hr. apply Hx. now right.
  - symmetry. apply Qgtb_le. rewrite (Hx y) by now left. apply Qle_refl.
Qed.

Variable E : Env.

(** X16.  On an initialized service the result of [extract_patient_name] is
    the first candidate of the pool, or [None] when the pool is empty: all
    candidates of a pool have the same confidence, so the choice by
    confidence never prefers a later one. *)
Theorem first_candidate_is_returned : forall self t,
  ready self ->
  exists pool,
    found_names E t self = (Ok pool, self)
    /\ extract_patient_name E t self = (Ok (hd_error pool), self).
Proof.
  intros self t (Hi & [p Hp] & Hm).
  eexists. split; [apply (found_names_ready E self t p _ Hp Hm)|].
  rewrite (extract_ready E self t p _ Hi Hp Hm). f_equal. f_equal.
  destruct (regex_names t) as [|x found] eqn:Hre.
  - apply best_match_same_confidence with 0.8%Q.
    intros r Hr. now apply matcher_names_tagged in Hr.
  - apply best_match_same_confidence with 0.9%Q.
    intros r Hr. rewrite <- Hre in Hr. now apply regex_names_tagged in Hr.
Qed.

(** X17.  When the regular expressions find a candidate, the result is the
    first of them, with method "pattern_matching" and confidence 0.9,
    whatever the pipeline and the matcher are: two initialized services
    with different libraries return the same result. *)
Theorem regex_result_ignores_the_library : forall E' self self' t,
  ready self -> ready self' ->
  regex_names t <> [] ->
  exists r,
    hd_error (regex_names t) = Some r
    /\ extract_patient_name E t self = (Ok (Some r), self)
    /\ extract_patient_name E' t self' = (Ok (Some r), self')
    /\ pn_method r = u "pattern_matching"
    /\ pn_confidence r = 0.9%Q.
Proof.
  intros E' self self' t (Hi & [p Hp] & Hm) (Hi' & [p' Hp'] & Hm') Hne.
  rewrite (extract_ready E self t p _ Hi Hp Hm).
  rewrite (extract_ready E' self' t p' _ Hi' Hp' Hm').
  destruct (regex_names t) as [|x found] eqn:Hre; [congruence|].
  assert (best_match (x :: found) = Some x) as Hb.
  { rewrite (best_match_same_confidence (x :: found) 0.9%Q);
      [reflexivity|].
    intros r Hr. rewrite <- Hre in Hr. now apply regex_names_tagged in Hr. }
  exists x. rewrite Hb. repeat split.
  - apply (regex_names_tagged t). rewrite Hre. now left.
  - apply (regex_names_tagged t). rewrite Hre. now left.
Qed.

(** X18.  The method of a result tells where it comes from: it is
    "pattern_matching" with confidence 0.9 exactly when the regular
    expressions found a candidate, and "spacy_matching" with confidence 0.8
    exactly when they found none. *)
Theorem method_tells_the_path : forall self t r,
  ready self ->
  fst (extract_patient_name E t self) = Ok (Some r) ->
  (regex_names t <> []
   /\ pn_method r = u "pattern_matching" /\ pn_confidence r = 0.9%Q)
  \/ (regex_names t = []
      /\ pn_method r = u "spacy_matching" /\ pn_confidence r = 0.8%Q).
Proof.
  intros self t r (Hi & [p Hp] & Hm) Hx.
  rewrite (extract_ready E self t p _ Hi Hp Hm) in Hx. simpl in Hx.
  injection Hx as Hb. apply best_match_in in Hb.
  destruct (regex_names t) as [|x found] eqn:Hre.
  - right. split; [reflexivity|]. now apply matcher_names_tagged in Hb.
  - left. split; [discriminate|]. apply (regex_names_tagged t).
    now rewrite Hre.
Qed.

(** ** [process_document] *)

Lemma mapM_ok : forall (A B : Type) (f : A -> result B) l bs,
  mapM f l = Ok bs <-> Forall2 (fun a b => f a = Ok b) l bs.
Proof.
  intros A B f. induction l as [|a l IH]; intro bs; simpl.
  - split; intro H.
    + injection H as <-. constructor.
    + inversion H. reflexivity.
  - split; intro H.
    + destruct (f a) as [b | e] eqn:Hf; [|discriminate].
      destruct (mapM f l) as [bs' | e]; [|discriminate].
      injection H as <-. constructor; [exact Hf | now apply IH].
    + inversion H as [|? b ? bs' Hf Hrest]; subst.
      rewrite Hf. apply IH in Hrest. now rewrite Hrest.
Qed.

Lemma mapM_raise : forall (A B : Type) (f : A -> result B) l e,
  mapM f l = Raise e -> exists a, In a l /\ f a = Raise e.
Proof.
  intros A B f. induction l as [|a l IH]; intros e H; simpl in H.
  - discriminate.
  - destruct (f a) as [b | e'] eqn:Hf.
    + destruct (mapM f l) as [bs | e'] eqn:Hm; [discriminate|].
      injection H as ->. destruct (IH e eq_refl) as (a' & Ha' & Hf').
      exists a'. split; [now right | exact Hf'].
    + injection H as ->. exists a. split; [now left | exact Hf].
Qed.

Lemma entity_of_ok : forall ent es,
  entity_of E ent = Ok es ->
  ent_confidence E ent = Ok (es_confidence es)
  /\ es_text es = ent_text ent /\ es_label es = ent_label ent
  /\ es_start es = Z.of_nat (ent_start_char ent)
  /\ es_end es = Z.of_nat (ent_end_char ent).
Proof.
  intros ent es H. unfold entity_of in H.
  destruct (ent_confidence E ent) as [q | e]; [|discriminate].
  injection H as <-. repeat split.
Qed.

Lemma mapM_first_raise : forall (A B : Type) (f : A -> result B)
  before a after e,
  Forall (fun x => exists b, f x = Ok b) before ->
  f a = Raise e ->
  mapM f (before ++ a :: after) = Raise e.
Proof.
  intros A B f before a after e Hb Ha.
  induction Hb as [|x l [b Hx] _ IH]; simpl.
  - now rewrite Ha.
  - now rewrite Hx, IH.
Qed.

(** X19.  On an initialized service, with the document that the pipeline
    has returned for the text: when the confidence lookup raises on an
    entity, and has succeeded on the entities before it, [process_document]
    raises that exception and leaves the service as it was; and a result
    that [process_document] returns has one entry per entity of the
    document, with the confidence that the lookup gave, one per token and
    one per match of the token matcher, and holds the classification and
    the medical terms of the text. *)
Theorem process_document_outcome : forall self t doc_type p,
  initialized self = true -> nlp self = Some p ->
  matcher self = Some medical_registry ->
  (forall before ent after e,
      doc_ents (nlp_call E p t) = before ++ ent :: after ->
      Forall (fun x => exists q, ent_confidence E x = Ok q) before ->
      ent_confidence E ent = Raise e ->
      process_document E t doc_type self = (Raise e, self))
  /\ (forall result self',
         process_document E t doc_type self = (Ok result, self') ->
         self' = self
         /\ Forall2 (fun ent es =>
                       ent_confidence E ent = Ok (es_confidence es)
                       /\ es_text es = ent_text ent
                       /\ es_label es = ent_label ent)
                    (doc_ents (nlp_call E p t)) (pr_entities result)
         /\ pr_classification result
            = _classify_document t (nlp_call E p t)
         /\ pr_medical_terms result = _extract_medical_terms self t
         /\ length (pr_custom_entities result)
            = length (matcher_call E medical_registry (nlp_call E p t))
         /\ length (pr_tokens result)
            = length (doc_tokens (nlp_call E p t))).
Proof.
  intros self t doc_type p Hi Hp Hm.
  rewrite (process_document_ready E self t doc_type p Hi Hp Hm).
  split.
  - intros before ent after e Hents Hbefore Hent.
    rewrite Hents.
    rewrite (mapM_first_raise _ _ (entity_of E) before ent after e);
      [reflexivity | |].
    + eapply Forall_impl; [|exact Hbefore].
      intros x [q Hq]. unfold entity_of. rewrite Hq. eexists. reflexivity.
    + unfold entity_of. now rewrite Hent.
  - intros result self' H.
    destruct (mapM (entity_of E) (doc_ents (nlp_call E p t)))
      as [entities | e] eqn:Hents; [|discriminate].
    injection H as <- <-.
    cbn [pr_entities pr_classification pr_medical_terms
         pr_custom_entities pr_tokens].
    split; [reflexivity|].
    split; [|repeat split; try reflexivity; apply length_map].
    apply mapM_ok in Hents.
    induction Hents as [|ent es l l' Hf _ IH]; constructor.
    + apply entity_of_ok in Hf. tauto.
    + exact IH.
Qed.

(** X20.  On a service that holds a pipeline and the registered patterns,
    [_extract_custom_entities] returns one entity per match of the token
    matcher, each with confidence 0.9 and one of the five registered
    labels.  The matcher is only assumed to report matches of the patterns
    registered with it. *)
Theorem custom_entities_carry_registered_labels : forall self t p,
  matcher_sound E ->
  nlp self = Some p -> matcher self = Some medical_registry ->
  exists entities,
    _extract_custom_entities E t self = (Ok entities, self)
    /\ length entities
       = length (matcher_call E medical_registry (nlp_call E p t))
    /\ Forall (fun es =>
                 es_confidence es = 0.9%Q
                 /\ In (es_label es)
                       [ u "TC_NUMBER"; u "MEDICAL_DEVICE";
                         u "MEDICAL_CONDITION"; u "PATIENT_NAME";
                         u "DOCTOR_STAFF" ])
              entities.
Proof.
  intros self t p Hsound Hp Hm.
  unfold _extract_custom_entities, bind, call_nlp, call_matcher, ret.
  rewrite Hp, Hm. eexists. split; [reflexivity|].
  split; [apply length_map|].
  apply Forall_forall. intros es Hes. apply in_map_iff in Hes.
  destruct Hes as ([[key s] e] & <- & Hin). split; [reflexivity|].
  apply Hsound in Hin. destruct Hin as (pats & q & Hreg & _).
  cbn [custom_entity es_label].
  change [u "TC_NUMBER"; u "MEDICAL_DEVICE"; u "MEDICAL_CONDITION";
          u "PATIENT_NAME"; u "DOCTOR_STAFF"]
    with (map fst medical_registry).
  apply in_map_iff. exists (key, pats). split; [reflexivity | exact Hreg].
Qed.

End Paths.

(** * The offsets of a regular-expression candidate *)

Section Offsets.

Variable whole : text.

Lemma located_app : forall w s pos,
  located whole (w ++ s) pos -> located whole s (pos + length w).
Proof.
  intros w s pos [Heq Hle].
  assert (length (w ++ s) = length whole - pos) as Hlen
    by (rewrite Heq; apply length_skipn).
  rewrite length_app in Hlen. split; [|lia].
  rewrite Nat.add_comm, <- skipn_skipn, <- Heq.
  rewrite skipn_app, skipn_all, Nat.sub_diag. reflexivity.
Qed.

Lemma star_loop_captures : forall body,
  keeps_captures whole body ->
  forall fuel, keeps_captures whole (star_loop body fuel).
Proof.
  intros body Hbody. induction fuel as [|n IH];
    intros k s pos cap res Hloc Hcap H.
  - simpl in H. exists [], s, cap. rewrite Nat.add_0_r. auto.
  - simpl in H.
    destruct (body _ s pos cap) as [r|] eqn:Hb.
    + injection H as ->.
      apply Hbody in Hb; [|exact Hloc | exact Hcap].
      destruct Hb as (w1 & s1 & cap1 & -> & Hc1 & Hk).
      destruct (pos <? pos + length w1); [|discriminate].
      apply IH in Hk; [|now apply located_app | exact Hc1].
      destruct Hk as (w2 & s2 & cap2 & -> & Hc2 & Hk).
      exists (w1 ++ w2), s2, cap2.
      rewrite length_app, Nat.add_assoc, app_assoc. auto.
    + exists [], s, cap. rewrite Nat.add_0_r. auto.
Qed.

Lemma run_captures : forall r, keeps_captures whole (run r).
Proof.
  induction r as [|c|l|a IHa b IHb|a IHa|a IHa|a IHa|a IHa];
    cbn [run]; intros k s pos cap res Hloc Hcap H.
  - exists [], s, cap. rewrite Nat.add_0_r. auto.
  - destruct s as [|x s']; [discriminate|].
    destruct (x =? c)%N; [|discriminate].
    exists [x], s', cap. rewrite Nat.add_1_r. auto.
  - destruct s as [|x s']; [discriminate|].
    destruct (in_class l x); [|discriminate].
    exists [x], s', cap. rewrite Nat.add_1_r. auto.
  - apply IHa in H; [|exact Hloc | exact Hcap].
    destruct H as (w1 & s1 & cap1 & -> & Hc1 & H).
    apply IHb in H; [|now apply located_app | exact Hc1].
    destruct H as (w2 & s2 & cap2 & -> & Hc2 & H).
    exists (w1 ++ w2), s2, cap2.
    rewrite length_app, Nat.add_assoc, app_assoc. auto.
  - now apply (star_loop_captures _ IHa) in H.
  - apply IHa in H; [|exact Hloc | exact Hcap].
    destruct H as (w1 & s1 & cap1 & -> & Hc1 & H).
    apply (star_loop_captures _ IHa) in H;
      [|now apply located_app | exact Hc1].
    destruct H as (w2 & s2 & cap2 & -> & Hc2 & H).
    exists (w1 ++ w2), s2, cap2.
    rewrite length_app, Nat.add_assoc, app_assoc. auto.
  - destruct (run a k s pos cap) as [r|] eqn:Ha.
    + injection H as ->. now apply IHa in Ha.
    + exists [], s, cap. rewrite Nat.add_0_r. auto.
  - apply IHa in H; [|exact Hloc | exact Hcap].
    destruct H as (w & s' & cap' & -> & _ & H).
    replace (pos + length w - pos) with (length w) in H by lia.
    rewrite firstn_app, Nat.sub_diag, firstn_all in H. simpl in H.
    rewrite app_nil_r in H.
    exists w, s', (Some (pos, w)). split; [reflexivity|]. split; [|exact H].
    destruct Hloc as [Heq Hle]. simpl. unfold slice.
    replace (pos + length w - pos) with (length w) by lia.
    rewrite <- Heq, firstn_app, Nat.sub_diag, firstn_all. simpl.
    rewrite app_nil_r. split; [reflexivity|].
    assert (length (w ++ s') = length whole - pos) as Hlen
      by (rewrite Heq; apply length_skipn).
    rewrite length_app in Hlen. lia.
Qed.

Lemma match_at_in_place : forall r s pos e cap,
  located whole s pos ->
  match_at r s pos = Some (e, cap) -> in_place whole (mk_match pos e cap).
Proof.
  intros r s pos e cap Hloc H. unfold match_at in H.
  apply run_captures in H; [|exact Hloc | exact I].
  destruct H as (w & s' & cap' & _ & Hc & H). injection H as _ <-.
  unfold in_place, g1_end. destruct cap' as [[gs gt]|]; simpl in *.
  - exact Hc.
  - rewrite Nat.add_0_r. unfold slice. rewrite Nat.sub_diag.
    split; [reflexivity | apply Hloc].
Qed.

Lemma scan_in_place : forall r s pos skip,
  located whole s pos -> Forall (in_place whole) (scan r s pos skip).
Proof.
  intros r. induction s as [|c s IH]; intros pos skip Hloc.
  - destruct skip; simpl; [|constructor].
    destruct (match_at r [] pos) as [[e cap]|] eqn:Hm; constructor.
    + now apply match_at_in_place with r [].
    + constructor.
  - assert (located whole s (S pos)) as Hloc'.
    { rewrite <- Nat.add_1_r. now apply (located_app [c]). }
    destruct skip; simpl; [|now apply IH].
    destruct (match_at r (c :: s) pos) as [[e cap]|] eqn:Hm;
      [|now apply IH].
    constructor; [|now apply IH].
    now apply match_at_in_place with r (c :: s).
Qed.

End Offsets.

Lemma finditer_in_place : forall r s m,
  In m (finditer r s) -> in_place s m.
Proof.
  intros r s m Hin.
  assert (located s s 0) as Hloc by (split; [reflexivity | lia]).
  pose proof (scan_in_place s r s 0 0 Hloc) as H.
  rewrite Forall_forall in H. now apply H.
Qed.

(** X21.  The offsets of a candidate of the regular expressions are offsets
    into the upper-cased text: 0 <= start < end <= len, and the name is
    the properly cased form of the upper-cased text between them, once
    cleaned, which is longer than 3 characters. *)
Theorem regex_offsets_delimit_the_capture : forall t r,
  In r (regex_names t) ->
  exists raw,
    slice (upper t) (Z.to_nat (pn_start r)) (Z.to_nat (pn_end r)) = raw
    /\ (0 <= pn_start r)%Z
    /\ (pn_start r < pn_end r)%Z
    /\ (pn_end r <= len (upper t))%Z
    /\ 3 < length (cleaned raw)
    /\ pn_name r
       = join (u " ") (map capitalize (split_ws (cleaned raw))).
Proof.
  intros t r Hin. unfold regex_names in Hin.
  apply in_flat_map in Hin. destruct Hin as (pattern & _ & Hin).
  apply in_flat_map in Hin. destruct Hin as (m & Hm & Hin).
  apply finditer_in_place in Hm. destruct Hm as [Hslice Hend].
  unfold regex_candidate in Hin. fold (cleaned (g1_text m)) in Hin.
  destruct (negb _) in Hin; [|contradiction]. cbn [andb] in Hin.
  destruct (3 <? length (cleaned (g1_text m))) eqn:Hlen; [|contradiction].
  apply Nat.ltb_lt in Hlen. destruct Hin as [<- | []].
  exists (g1_text m). cbn [pn_start pn_end pn_name].
  rewrite !Nat2Z.id. unfold len.
  assert (g1_text m <> []) as Hne.
  { intro Hnil. rewrite Hnil in Hlen. vm_compute in Hlen. lia. }
  assert (0 < length (g1_text m)) as Hpos
    by (destruct (g1_text m); [congruence | simpl; lia]).
  unfold g1_end in *. repeat split; try lia. exact Hslice.
Qed.

(** * The shape of a returned name *)

Section NameShape.

Local Abbreviation solid := (fun c : N => isspace_cp c = false).

(** Changing the case of a character that is not whitespace gives no
    whitespace. *)
Lemma case_keeps_solid : forall c,
  isspace_cp c = false ->
  Forall solid (lower_cp c) /\ Forall solid (title_cp c).
Proof.
  intros c Hc.
  assert (isspace_cp c
          || (forallb (fun x => negb (isspace_cp x)) (lower_cp c)
              && forallb (fun x => negb (isspace_cp x)) (title_cp c))
          = true) as H.
  { apply (table_check
             (fun c => isspace_cp c
                       || (forallb (fun x => negb (isspace_cp x)) (lower_cp c)
                           && forallb (fun x => negb (isspace_cp x))
                                      (title_cp c)))).
    - vm_compute. reflexivity.
    - intros c' Hc'. destruct (beyond_table c' Hc') as (-> & _ & -> & _).
      simpl. now destruct (isspace_cp c'). }
  rewrite Hc in H. simpl in H. apply andb_true_iff in H.
  destruct H as [Hl Ht]. rewrite forallb_forall in Hl, Ht.
  split; apply Forall_forall; intros x Hx; apply negb_true_iff; auto.
Qed.

Lemma lower_solid : forall s, Forall solid s -> Forall solid (lower s).
Proof.
  induction s as [|c s IH]; intro H; [constructor|].
  inversion H as [|? ? Hc Hs]; subst. unfold lower. cbn [flat_map].
  apply Forall_app. split; [now apply case_keeps_solid | now apply IH].
Qed.

Lemma capitalize_solid : forall w,
  w <> [] -> Forall solid w ->
  capitalize w <> [] /\ Forall solid (capitalize w).
Proof.
  intros [|c w] Hne H; [congruence|].
  inversion H as [|? ? Hc Hw]; subst. cbn [capitalize]. split.
  - destruct (title_cp_head c) as (y & l & -> & _). discriminate.
  - apply Forall_app. split; [now apply case_keeps_solid|].
    now apply lower_solid.
Qed.

Lemma title_from_solid : forall s prev,
  s <> [] -> Forall solid s ->
  title_from prev s <> [] /\ Forall solid (title_from prev s).
Proof.
  intros s prev Hne H. split.
  - destruct s as [|c s]; [congruence|]. cbn [title_from].
    destruct prev.
    + destruct (lower_cp_head c) as (y & l & -> & _). discriminate.
    + destruct (title_cp_head c) as (y & l & -> & _). discriminate.
  - clear Hne. revert prev.
    induction s as [|c s IH]; intro prev; [constructor|].
    inversion H as [|? ? Hc Hs]; subst. cbn [title_from].
    apply Forall_app. split; [|now apply IH].
    destruct prev; now apply case_keeps_solid.
Qed.

(** The words of [split] hold no whitespace. *)
Lemma split_ws_solid : forall s cur,
  Forall solid cur ->
  Forall (fun w => w <> [] /\ Forall solid w) (split_ws_from cur s).
Proof.
  assert (forall cur : text, cur <> [] -> rev cur <> []) as Hrev.
  { intros [|c cur] H; [congruence|]. simpl. intro Habs.
    apply app_eq_nil in Habs. destruct Habs. discriminate. }
  induction s as [|c s IH]; intros cur Hcur; simpl.
  - destruct cur as [|x cur]; constructor; [|constructor].
    split; [apply Hrev; discriminate | now apply Forall_rev].
  - destruct (isspace_cp c) eqn:Hc.
    + destruct cur as [|x cur]; [apply IH; constructor|].
      constructor; [|apply IH; constructor].
      split; [apply Hrev; discriminate | now apply Forall_rev].
    + apply IH. now constructor.
Qed.

Lemma split_ws_some : forall s cur,
  cur <> [] \/ (exists c, In c s /\ isspace_cp c = false) ->
  split_ws_from cur s <> [].
Proof.
  induction s as [|c s IH]; intros cur H; simpl.
  - destruct cur; [|discriminate].
    destruct H as [H | (c & [] & _)]. congruence.
  - destruct (isspace_cp c) eqn:Hc.
    + destruct cur; [|discriminate]. apply IH. right.
      destruct H as [H | (x & [<- | Hx] & Hs)]; [congruence | congruence |].
      now exists x.
    + apply IH. left. discriminate.
Qed.

Lemma lstrip_head : forall s c r,
  lstrip s = c :: r -> isspace_cp c = false.
Proof.
  induction s as [|x s IH]; intros c r H; [discriminate|].
  simpl in H. destruct (isspace_cp x) eqn:Hx.
  - now apply IH with r.
  - injection H as <- _. exact Hx.
Qed.

Lemma strip_has_solid : forall s,
  strip s <> [] -> exists c, In c (strip s) /\ isspace_cp c = false.
Proof.
  intros s Hne. unfold strip, rstrip in *.
  destruct (lstrip (rev (lstrip s))) as [|c r] eqn:Hl; [now simpl in Hne|].
  exists c. split.
  - apply -> in_rev. now left.
  - now apply lstrip_head with (rev (lstrip s)) r.
Qed.

Lemma regex_candidate_words : forall m r,
  In r (regex_candidate m) ->
  exists words, plain_words words /\ pn_name r = join (u " ") words.
Proof.
  intros m r Hin. unfold regex_candidate in Hin.
  fold (cleaned (g1_text m)) in Hin.
  destruct (negb _) in Hin; [|contradiction]. cbn [andb] in Hin.
  destruct (3 <? length (cleaned (g1_text m))) eqn:Hlen; [|contradiction].
  apply Nat.ltb_lt in Hlen. destruct Hin as [<- | []]. cbn [pn_name].
  exists (map capitalize (split_ws (cleaned (g1_text m)))).
  split; [|reflexivity].
  pose proof (split_ws_solid (cleaned (g1_text m)) [] (Forall_nil _))
    as Hwords.
  fold (split_ws (cleaned (g1_text m))) in Hwords.
  assert (split_ws (cleaned (g1_text m)) <> []) as Hsome.
  { apply split_ws_some. right. apply strip_has_solid.
    fold (cleaned (g1_text m)). intro Hnil. rewrite Hnil in Hlen.
    simpl in Hlen. lia. }
  split.
  - destruct (split_ws (cleaned (g1_text m))); [congruence | discriminate].
  - apply Forall_map. eapply Forall_impl; [|exact Hwords].
    intros w [Hne Hw]. now apply capitalize_solid.
Qed.

Lemma matcher_candidate_words : forall doc m r,
  justified medical_registry doc m ->
  In r (matcher_candidate doc m) ->
  exists words, plain_words words /\ pn_name r = join (u " ") words.
Proof.
  intros doc [[label s] e] r Hj Hin. unfold matcher_candidate in Hin.
  destruct (text_eqb label (u "PATIENT_NAME")) eqn:Hl; [|contradiction].
  apply text_eqb_eq in Hl. subst label.
  destruct (3 <? _)%nat eqn:Hlen; [|contradiction].
  apply Nat.ltb_lt in Hlen. destruct Hin as [<- | []]. cbn [pn_name].
  destruct Hj as (pats & p & Hreg & Hp & Hok).
  apply patient_patterns_registered in Hreg. subst pats.
  pose proof (patient_match_name_part _ _ Hp Hok) as Hletters.
  fold (span_text doc s e) in Hletters.
  set (name_part := strip (after_last 58 (span_text doc s e))) in *.
  assert (Forall solid name_part) as Hsolid.
  { eapply Forall_impl; [|exact Hletters].
    intros c Hc. now apply letter_not_space in Hc. }
  assert (name_part <> []) as Hne
    by (intro Hnil; rewrite Hnil in Hlen; simpl in Hlen; lia).
  destruct (title_from_solid name_part false Hne Hsolid) as [Hte Hts].
  exists [title name_part]. split; [|reflexivity].
  split; [discriminate|]. constructor; [|constructor]. now split.
Qed.

Variable E : Env.

(** X22.  A name returned by an initialized service is a non-empty
    sequence of non-empty words without whitespace, joined by single
    spaces: it has no leading, trailing or doubled space.  The matcher is
    only assumed to report matches of the patterns registered with it. *)
Theorem returned_name_is_words_joined_by_spaces : forall self t r,
  matcher_sound E -> ready self ->
  fst (extract_patient_name E t self) = Ok (Some r) ->
  exists words, plain_words words /\ pn_name r = join (u " ") words.
Proof.
  intros self t r Hsound (Hi & [p Hp] & Hm) Hx.
  rewrite (extract_ready E self t p _ Hi Hp Hm) in Hx. simpl in Hx.
  injection Hx as Hb. apply best_match_in in Hb.
  destruct (regex_names t) as [|x found] eqn:Hre.
  - unfold matcher_names in Hb. apply in_flat_map in Hb.
    destruct Hb as (m & Hm_in & Hr).
    apply matcher_candidate_words with (nlp_call E p t) m; [|exact Hr].
    now apply Hsound.
  - rewrite <- Hre in Hb. unfold regex_names in Hb.
    apply in_flat_map in Hb. destruct Hb as (pattern & _ & Hb).
    apply in_flat_map in Hb. destruct Hb as (m & _ & Hb).
    now apply regex_candidate_words with m.
Qed.

End NameShape.

(** * Keywords as substrings *)

Section Keywords.

Lemma startswith_refl : forall sub, startswith sub sub = true.
Proof.
  induction sub as [|a sub IH]; [reflexivity|].
  simpl. now rewrite N.eqb_refl, IH.
Qed.

(** [sub in s] holds exactly when [s] is [sub] with something before and
    after it. *)
Lemma str_in_substring : forall sub s,
  str_in sub s = true <-> substring sub s.
Proof.
  intros sub s. split.
  - intro H. destruct (find_first_occurrence sub s H) as (n & _ & [Hs Hn] & _).
    apply startswith_firstn in Hs. destruct Hs as [Hf _].
    exists (firstn n s), (skipn (length sub) (skipn n s)).
    rewrite <- (firstn_skipn n s) at 1. f_equal.
    rewrite <- (firstn_skipn (length sub) (skipn n s)) at 1.
    now rewrite Hf.
  - intros (a & b & ->). apply occurs_at_str_in with (length a + 0).
    apply occurs_at_embedded. split; [apply startswith_refl | lia].
Qed.

Lemma any_in_mentions : forall keywords s,
  any_in keywords s = true <-> mentions keywords s.
Proof.
  intros keywords s. unfold any_in, mentions. rewrite existsb_exists.
  split; intros (k & Hk & H); exists k; (split; [exact Hk|]);
    now apply str_in_substring.
Qed.

Lemma any_in_not_mentions : forall keywords s,
  any_in keywords s = false <-> ~ mentions keywords s.
Proof.
  intros keywords s. rewrite <- any_in_mentions.
  destruct (any_in keywords s); split; intro H; try reflexivity;
    try discriminate; try (intro; discriminate).
  exfalso. now apply H.
Qed.

(** C3.  The classification tries four keyword lists in a fixed order on
    the lower-cased text and returns the type and confidence of the first
    list one of whose keywords is a substring of it: sgk_device_report with
    0.95, else prescription with 0.90, else audiometry_report with 0.88,
    else medical_report with 0.75, and other with 0.50 when no keyword of
    any list is a substring.  A later list counts only when no keyword of
    an earlier list is in the text.  Hence a text that contains both "sgk"
    and "reçete", in any case, is classified sgk_device_report with
    confidence 0.95. *)
Theorem classification_first_rule_wins : forall t doc,
  let sgk := [u "sgk"; u "sosyal gÃ¼venlik"; u "cihaz raporu"] in
  let prescription := [u "reÃ§ete"; u "prescription"; u "ilaÃ§"] in
  let audiometry := [u "odyometri"; u "audiometry"; u "iÅŸitme testi"] in
  let report := [u "rapor"; u "muayene"; u "bulgular"] in
  (mentions sgk (lower t) ->
   _classify_document t doc
   = {| cls_type := u "sgk_device_report"; cls_confidence := 0.95%Q |})
  /\ (~ mentions sgk (lower t) -> mentions prescription (lower t) ->
      _classify_document t doc
      = {| cls_type := u "prescription"; cls_confidence := 0.90%Q |})
  /\ (~ mentions sgk (lower t) -> ~ mentions prescription (lower t) ->
      mentions audiometry (lower t) ->
      _classify_document t doc
      = {| cls_type := u "audiometry_report"; cls_confidence := 0.88%Q |})
  /\ (~ mentions sgk (lower t) -> ~ mentions prescription (lower t) ->
      ~ mentions audiometry (lower t) -> mentions report (lower t) ->
      _classify_document t doc
      = {| cls_type := u "medical_report"; cls_confidence := 0.75%Q |})
  /\ (~ mentions sgk (lower t) -> ~ mentions prescription (lower t) ->
      ~ mentions audiometry (lower t) -> ~ mentions report (lower t) ->
      _classify_document t doc
      = {| cls_type := u "other"; cls_confidence := 0.50%Q |})
  /\ (substring (u "sgk") (lower t) -> substring (u "reçete") (lower t) ->
      _classify_document t doc
      = {| cls_type := u "sgk_device_report"; cls_confidence := 0.95%Q |}).
Proof.
  intros t doc sgk prescription audiometry report.
  unfold _classify_document.
  fold sgk. fold prescription. fold audiometry. fold report.
  repeat split.
  - intro H1. apply any_in_mentions in H1. now rewrite H1.
  - intros H1 H2. apply any_in_not_mentions in H1.
    apply any_in_mentions in H2. now rewrite H1, H2.
  - intros H1 H2 H3. apply any_in_not_mentions in H1, H2.
    apply any_in_mentions in H3. now rewrite H1, H2, H3.
  - intros H1 H2 H3 H4. apply any_in_not_mentions in H1, H2, H3.
    apply any_in_mentions in H4. now rewrite H1, H2, H3, H4.
  - intros H1 H2 H3 H4. apply any_in_not_mentions in H1, H2, H3, H4.
    now rewrite H1, H2, H3, H4.
  - intros H1 _.
    assert (any_in sgk (lower t) = true) as H.
    { apply any_in_mentions. exists (u "sgk"). split; [now left | exact H1]. }
    now rewrite H.
Qed.

End Keywords.

Lemma classification_first_rule_wins_witness :
  let sgk := [u "sgk"; u "sosyal gÃ¼venlik"; u "cihaz raporu"] in
  let prescription := [u "reÃ§ete"; u "prescription"; u "ilaÃ§"] in
  let audiometry := [u "odyometri"; u "audiometry"; u "iÅŸitme testi"] in
  let report := [u "rapor"; u "muayene"; u "bulgular"] in
  (substring (u "sgk") (lower (u "SGK onaylı reçete, prescription"))
   /\ substring (u "reçete") (lower (u "SGK onaylı reçete, prescription"))
   /\ mentions prescription (lower (u "SGK onaylı reçete, prescription"))
   /\ _classify_document (u "SGK onaylı reçete, prescription")
        (ref_nlp_call blank_tr (u "SGK onaylı reçete, prescription"))
      = {| cls_type := u "sgk_device_report"; cls_confidence := 0.95%Q |})
  /\ (~ mentions sgk (lower (u "Prescription ve odyometri raporu"))
      /\ mentions prescription (lower (u "Prescription ve odyometri raporu"))
      /\ mentions audiometry (lower (u "Prescription ve odyometri raporu"))
      /\ mentions report (lower (u "Prescription ve odyometri raporu"))
      /\ _classify_document (u "Prescription ve odyometri raporu")
           (ref_nlp_call blank_tr (u "Prescription ve odyometri raporu"))
         = {| cls_type := u "prescription"; cls_confidence := 0.90%Q |})
  /\ (~ mentions sgk (lower (u "Odyometri raporu"))
      /\ ~ mentions prescription (lower (u "Odyometri raporu"))
      /\ mentions audiometry (lower (u "Odyometri raporu"))
      /\ mentions report (lower (u "Odyometri raporu"))
      /\ _classify_document (u "Odyometri raporu")
           (ref_nlp_call blank_tr (u "Odyometri raporu"))
         = {| cls_type := u "audiometry_report"; cls_confidence := 0.88%Q |})
  /\ (~ mentions sgk (lower (u "Muayene sonucu"))
      /\ ~ mentions prescription (lower (u "Muayene sonucu"))
      /\ ~ mentions audiometry (lower (u "Muayene sonucu"))
      /\ mentions report (lower (u "Muayene sonucu"))
      /\ _classify_document (u "Muayene sonucu")
           (ref_nlp_call blank_tr (u "Muayene sonucu"))
         = {| cls_type := u "medical_report"; cls_confidence := 0.75%Q |})
  /\ (~ mentions sgk (lower (u "Kontrol randevusu"))
      /\ ~ mentions prescription (lower (u "Kontrol randevusu"))
      /\ ~ mentions audiometry (lower (u "Kontrol randevusu"))
      /\ ~ mentions report (lower (u "Kontrol randevusu"))
      /\ _classify_document (u "Kontrol randevusu")
           (ref_nlp_call blank_tr (u "Kontrol randevusu"))
         = {| cls_type := u "other"; cls_confidence := 0.50%Q |}).
Proof.
  intros sgk prescription audiometry report.
  assert (forall K t, any_in K (lower (u t)) = true ->
                      mentions K (lower (u t))) as Hyes
    by (intros K t H; now apply any_in_mentions).
  assert (forall K t, any_in K (lower (u t)) = false ->
                      ~ mentions K (lower (u t))) as Hno
    by (intros K t H; now apply any_in_not_mentions).
  assert (forall k t, str_in (u k) (lower (u t)) = true ->
                      substring (u k) (lower (u t))) as Hsub
    by (intros k t H; now apply str_in_substring).
  split; [|split; [|split; [|split]]].
  - pose proof (Hsub "sgk"%string "SGK onaylı reçete, prescription"%string eq_refl) as H1.
    pose proof (Hsub "reçete"%string "SGK onaylı reçete, prescription"%string eq_refl) as H2.
    pose proof (Hyes prescription "SGK onaylı reçete, prescription"%string eq_refl)
      as H3.
    refine (conj H1 (conj H2 (conj H3 _))).
    exact (proj2 (proj2 (proj2 (proj2 (proj2
             (classification_first_rule_wins
                (u "SGK onaylı reçete, prescription")
                (ref_nlp_call blank_tr
                   (u "SGK onaylı reçete, prescription"))))))) H1 H2).
  - pose proof (Hno sgk "Prescription ve odyometri raporu"%string eq_refl) as H1.
    pose proof (Hyes prescription "Prescription ve odyometri raporu"%string eq_refl)
      as H2.
    pose proof (Hyes audiometry "Prescription ve odyometri raporu"%string eq_refl)
      as H3.
    pose proof (Hyes report "Prescription ve odyometri raporu"%string eq_refl) as H4.
    refine (conj H1 (conj H2 (conj H3 (conj H4 _)))).
    exact (proj1 (proj2
             (classification_first_rule_wins
                (u "Prescription ve odyometri raporu")
                (ref_nlp_call blank_tr
                   (u "Prescription ve odyometri raporu")))) H1 H2).
  - pose proof (Hno sgk "Odyometri raporu"%string eq_refl) as H1.
    pose proof (Hno prescription "Odyometri raporu"%string eq_refl) as H2.
    pose proof (Hyes audiometry "Odyometri raporu"%string eq_refl) as H3.
    pose proof (Hyes report "Odyometri raporu"%string eq_refl) as H4.
    refine (conj H1 (conj H2 (conj H3 (conj H4 _)))).
    exact (proj1 (proj2 (proj2
             (classification_first_rule_wins
                (u "Odyometri raporu")
                (ref_nlp_call blank_tr (u "Odyometri raporu")))))
             H1 H2 H3).
  - pose proof (Hno sgk "Muayene sonucu"%string eq_refl) as H1.
    pose proof (Hno prescription "Muayene sonucu"%string eq_refl) as H2.
    pose proof (Hno audiometry "Muayene sonucu"%string eq_refl) as H3.
    pose proof (Hyes report "Muayene sonucu"%string eq_refl) as H4.
    refine (conj H1 (conj H2 (conj H3 (conj H4 _)))).
    exact (proj1 (proj2 (proj2 (proj2
             (classification_first_rule_wins
                (u "Muayene sonucu")
                (ref_nlp_call blank_tr (u "Muayene sonucu"))))))
             H1 H2 H3 H4).
  - pose proof (Hno sgk "Kontrol randevusu"%string eq_refl) as H1.
    pose proof (Hno prescription "Kontrol randevusu"%string eq_refl) as H2.
    pose proof (Hno audiometry "Kontrol randevusu"%string eq_refl) as H3.
    pose proof (Hno report "Kontrol randevusu"%string eq_refl) as H4.
    refine (conj H1 (conj H2 (conj H3 (conj H4 _)))).
    exact (proj1 (proj2 (proj2 (proj2 (proj2
             (classification_first_rule_wins
                (u "Kontrol randevusu")
                (ref_nlp_call blank_tr (u "Kontrol randevusu")))))))
             H1 H2 H3 H4).
Defined.

(** * Offsets of a term hit *)

Section HitOffsets.









End HitOffsets.



(** * The order in which candidates are discovered *)

Section MatchOrder.

Lemma capture_between_le : forall lo cap hi hi',
  capture_between lo cap hi -> hi <= hi' -> capture_between lo cap hi'.
Proof.
  intros lo [[gs gt]|] hi hi' H Hle; simpl in *; [lia | exact I].
Qed.

Lemma star_loop_between : forall lo body,
  keeps_between lo body ->
  forall fuel, keeps_between lo (star_loop body fuel).
Proof.
  intros lo body Hbody. induction fuel as [|n IH];
    intros k s pos cap res Hlo Hcap H.
  - simpl in H. exists [], s, cap. rewrite Nat.add_0_r. auto.
  - simpl in H.
    destruct (body _ s pos cap) as [r|] eqn:Hb.
    + injection H as ->.
      apply Hbody in Hb; [|exact Hlo | exact Hcap].
      destruct Hb as (w1 & s1 & cap1 & -> & Hc1 & Hk).
      destruct (pos <? pos + length w1); [|discriminate].
      apply IH in Hk; [|lia | exact Hc1].
      destruct Hk as (w2 & s2 & cap2 & -> & Hc2 & Hk).
      exists (w1 ++ w2), s2, cap2.
      rewrite length_app, Nat.add_assoc, app_assoc. auto.
    + exists [], s, cap. rewrite Nat.add_0_r. auto.
Qed.

Lemma run_between : forall lo r, keeps_between lo (run r).
Proof.
  intros lo.
  induction r as [|c|l|a IHa b IHb|a IHa|a IHa|a IHa|a IHa];
    cbn [run]; intros k s pos cap res Hlo Hcap H.
  - exists [], s, cap. rewrite Nat.add_0_r. auto.
  - destruct s as [|x s']; [discriminate|].
    destruct (x =? c)%N; [|discriminate].
    exists [x], s', cap. rewrite Nat.add_1_r.
    split; [reflexivity|]. split; [|exact H].
    apply capture_between_le with pos; [exact Hcap | lia].
  - destruct s as [|x s']; [discriminate|].
    destruct (in_class l x); [|discriminate].
    exists [x], s', cap. rewrite Nat.add_1_r.
    split; [reflexivity|]. split; [|exact H].
    apply capture_between_le with pos; [exact Hcap | lia].
  - apply IHa in H; [|exact Hlo | exact Hcap].
    destruct H as (w1 & s1 & cap1 & -> & Hc1 & H).
    apply IHb in H; [|lia | exact Hc1].
    destruct H as (w2 & s2 & cap2 & -> & Hc2 & H).
    exists (w1 ++ w2), s2, cap2.
    rewrite length_app, Nat.add_assoc, app_assoc. auto.
  - now apply (star_loop_between lo _ IHa) in H.
  - apply IHa in H; [|exact Hlo | exact Hcap].
    destruct H as (w1 & s1 & cap1 & -> & Hc1 & H).
    apply (star_loop_between lo _ IHa) in H; [|lia | exact Hc1].
    destruct H as (w2 & s2 & cap2 & -> & Hc2 & H).
    exists (w1 ++ w2), s2, cap2.
    rewrite length_app, Nat.add_assoc, app_assoc. auto.
  - destruct (run a k s pos cap) as [r|] eqn:Ha.
    + injection H as ->. now apply IHa in Ha.
    + exists [], s, cap. rewrite Nat.add_0_r. auto.
  - apply IHa in H; [|exact Hlo | exact Hcap].
    destruct H as (w & s' & cap' & -> & _ & H).
    replace (pos + length w - pos) with (length w) in H by lia.
    rewrite firstn_app, Nat.sub_diag, firstn_all in H. simpl in H.
    rewrite app_nil_r in H.
    exists w, s', (Some (pos, w)). split; [reflexivity|]. split; [|exact H].
    simpl. lia.
Qed.

(** A match ends no earlier than it starts, and group 1 lies inside it. *)
Lemma match_at_well_placed : forall r s pos e cap,
  match_at r s pos = Some (e, cap) ->
  pos <= e /\ well_placed (mk_match pos e cap).
Proof.
  intros r s pos e cap H. unfold match_at in H.
  apply (run_between pos) in H; [|lia | exact I].
  destruct H as (w & s' & cap' & _ & Hc & H). injection H as <- <-.
  split; [lia|]. unfold well_placed, g1_end.
  destruct cap' as [[gs gt]|]; simpl in *; lia.
Qed.

Lemma mk_match_bounds : forall pos e cap,
  m_start (mk_match pos e cap) = pos /\ m_end (mk_match pos e cap) = e.
Proof. intros pos e [[gs gt]|]; split; reflexivity. Qed.

(** The matches of [finditer] come from left to right and do not overlap:
    each starts where the one before it has ended, or later. *)
Lemma scan_ordered : forall r s pos skip,
  Forall (fun m => pos + skip <= m_start m /\ well_placed m)
         (scan r s pos skip)
  /\ StronglySorted (fun a b => g1_end a <= g1_start b) (scan r s pos skip).
Proof.
  intro r. induction s as [|c s IH]; intros pos skip.
  - destruct skip; simpl; [|split; constructor].
    destruct (match_at r [] pos) as [[e cap]|] eqn:Hm;
      [|split; constructor].
    destruct (match_at_well_placed _ _ _ _ _ Hm) as [Hle Hw].
    destruct (mk_match_bounds pos e cap) as [Hs _].
    split.
    + constructor; [split; [lia | exact Hw] | constructor].
    + constructor; constructor.
  - destruct skip as [|skip]; simpl.
    + destruct (match_at r (c :: s) pos) as [[e cap]|] eqn:Hm.
      * destruct (match_at_well_placed _ _ _ _ _ Hm) as [Hle Hw].
        destruct (mk_match_bounds pos e cap) as [Hs He].
        destruct (IH (S pos) (e - pos - 1)) as [Hall Hsorted].
        split.
        -- constructor; [split; [lia | exact Hw]|].
           eapply Forall_impl; [|exact Hall].
           intros m [Hm1 Hm2]. split; [lia | exact Hm2].
        -- constructor; [exact Hsorted|].
           eapply Forall_impl; [|exact Hall].
           intros m [Hm1 [Hm2 _]]. destruct Hw as [_ Hw]. lia.
      * destruct (IH (S pos) 0) as [Hall Hsorted].
        split; [|exact Hsorted].
        eapply Forall_impl; [|exact Hall].
        intros m [Hm1 Hm2]. split; [lia | exact Hm2].
    + destruct (IH (S pos) skip) as [Hall Hsorted].
      split; [|exact Hsorted].
      eapply Forall_impl; [|exact Hall].
      intros m [Hm1 Hm2]. split; [lia | exact Hm2].
Qed.

Lemma regex_candidate_offsets : forall m c,
  In c (regex_candidate m) ->
  regex_candidate m = [c]
  /\ pn_start c = Z.of_nat (g1_start m)
  /\ pn_end c = Z.of_nat (g1_end m).
Proof.
  intros m c Hin. unfold regex_candidate in *.
  destruct (negb _ && _); [|contradiction].
  destruct Hin as [<- | []]. repeat split.
Qed.

(** The candidates of one pattern stand in the text from left to right,
    none overlapping the next. *)
Lemma candidates_ordered : forall t pattern,
  StronglySorted precedes (candidates_of t pattern).
Proof.
  intros t pattern. unfold candidates_of, finditer.
  destruct (scan_ordered pattern (upper t) 0 0) as [_ Hsorted].
  induction Hsorted as [|m l Hl IH Hm]; [constructor|].
  cbn [flat_map].
  destruct (regex_candidate m) as [|c rest] eqn:Hc; [exact IH|].
  destruct (regex_candidate_offsets m c) as (Hone & Hs & He);
    [rewrite Hc; now left|].
  rewrite Hc in Hone. injection Hone as ->. cbn [app].
  constructor; [exact IH|].
  apply Forall_forall. intros c' Hc'.
  apply in_flat_map in Hc'. destruct Hc' as (m' & Hm' & Hc').
  destruct (regex_candidate_offsets m' c' Hc') as (_ & Hs' & _).
  rewrite Forall_forall in Hm. specialize (Hm m' Hm').
  unfold precedes. lia.
Qed.

Lemma sorted_nth : forall (A : Type) (R : A -> A -> Prop) l i j a b,
  StronglySorted R l -> i < j ->
  nth_error l i = Some a -> nth_error l j = Some b -> R a b.
Proof.
  intros A R l i j a b Hs. revert i j.
  induction Hs as [|x l Hl IH Hx]; intros i j Hij Ha Hb.
  - destruct i; discriminate.
  - destruct j as [|j]; [lia|]. cbn [nth_error] in Hb.
    destruct i as [|i].
    + injection Ha as <-. apply nth_error_In in Hb.
      rewrite Forall_forall in Hx. now apply Hx.
    + cbn [nth_error] in Ha. apply (IH i j); [lia | exact Ha | exact Hb].
Qed.

Lemma concat_nth_in : forall (A : Type) (groups : list (list A)) k b,
  nth_error (concat groups) k = Some b ->
  exists g lb, nth_error groups g = Some lb /\ In b lb.
Proof.
  intros A groups k b H. apply nth_error_In in H.
  apply in_concat in H. destruct H as (lb & Hl & Hb).
  apply In_nth_error in Hl. destruct Hl as [g Hg]. now exists g, lb.
Qed.

(** Of two elements of a concatenation, the earlier one lies in an
    earlier group, or in the same group at an earlier place. *)
Lemma concat_order : forall (A : Type) (groups : list (list A)) i j a b,
  i < j ->
  nth_error (concat groups) i = Some a ->
  nth_error (concat groups) j = Some b ->
  exists gi gj la lb,
    nth_error groups gi = Some la /\ nth_error groups gj = Some lb
    /\ In a la /\ In b lb
    /\ (gi < gj
        \/ (gi = gj /\ exists i' j', i' < j' /\ nth_error la i' = Some a
                                     /\ nth_error la j' = Some b)).
Proof.
  intros A groups. induction groups as [|g gs IH]; intros i j a b Hij Ha Hb.
  - destruct i; discriminate.
  - cbn [concat] in Ha, Hb.
    destruct (Nat.lt_ge_cases j (length g)) as [Hj | Hj].
    + rewrite nth_error_app1 in Ha, Hb by lia.
      exists 0, 0, g, g. repeat split;
        try (eapply nth_error_In; eassumption).
      right. split; [reflexivity|]. now exists i, j.
    + rewrite (nth_error_app2 g (concat gs) Hj) in Hb.
      destruct (Nat.lt_ge_cases i (length g)) as [Hi | Hi].
      * rewrite nth_error_app1 in Ha by lia.
        destruct (concat_nth_in A gs _ b Hb) as (gj & lb & Hg & Hin).
        exists 0, (S gj), g, lb. repeat split;
          try assumption; try (eapply nth_error_In; eassumption).
        left. lia.
      * rewrite (nth_error_app2 g (concat gs) Hi) in Ha.
        destruct (IH (i - length g) (j - length g) a b) as
          (gi & gj & la & lb & Hgi & Hgj & Hina & Hinb & Hord);
          [lia | exact Ha | exact Hb|].
        exists (S gi), (S gj), la, lb. repeat split; try assumption.
        destruct Hord as [Hlt | [-> Hsame]]; [left; lia | right].
        split; [reflexivity | exact Hsame].
Qed.

Lemma regex_names_discovery_order : forall t,
  discovery_order t (regex_names t).
Proof.
  intros t i j a b Hij Ha Hb. unfold regex_names in Ha, Hb.
  fold (candidates_of t) in Ha, Hb.
  change (flat_map (fun pattern => candidates_of t pattern) patterns)
    with (flat_map (candidates_of t) patterns) in Ha, Hb.
  rewrite flat_map_concat_map in Ha, Hb.
  destruct (concat_order _ _ i j a b Hij Ha Hb)
    as (gi & gj & la & lb & Hgi & Hgj & Hina & Hinb & Hord).
  rewrite nth_error_map in Hgi, Hgj.
  destruct (nth_error patterns gi) as [ri|] eqn:Hri; [|discriminate].
  destruct (nth_error patterns gj) as [rj|] eqn:Hrj; [|discriminate].
  injection Hgi as <-. injection Hgj as <-.
  exists gi, gj, ri, rj. repeat split; try assumption.
  destruct Hord as [Hlt | [-> (i' & j' & Hij' & Ha' & Hb')]];
    [now left | right].
  split; [reflexivity|].
  rewrite Hri in Hrj. injection Hrj as <-.
  exact (sorted_nth _ precedes _ i' j' a b (candidates_ordered t ri)
                    Hij' Ha' Hb').
Qed.

Variable E : Env.

(** C7.  On an initialized service [extract_patient_name] returns the best
    match of the pool of candidates it assembles.  The pool holds the
    candidates of the regular expressions, those of every pattern, in the
    order of discovery: of two candidates the earlier one comes from a
    pattern earlier in the pattern list or, when both come from the same
    pattern, stands before the other in the text; when the regular
    expressions find none, the pool holds the candidates of the token
    matcher in the order of its matches.  When the pool is not empty the
    result is a candidate of greatest confidence, and the earliest of the
    pool with that confidence; when the pool is empty the result is
    [None], returned normally. *)
Theorem best_candidate_is_returned : forall self t,
  ready self ->
  exists pool,
    found_names E t self = (Ok pool, self)
    /\ extract_patient_name E t self = (Ok (best_match pool), self)
    /\ (forall c, In c (regex_names t) <->
                  exists pattern,
                    In pattern patterns /\ In c (candidates_of t pattern))
    /\ discovery_order t (regex_names t)
    /\ (forall pattern, StronglySorted precedes (candidates_of t pattern))
    /\ (regex_names t <> [] -> pool = regex_names t)
    /\ (regex_names t = [] ->
        exists d, doc_of E self t = Some d
                  /\ pool = matcher_names d (matches_of E self d))
    /\ (pool = [] -> best_match pool = None)
    /\ (pool <> [] ->
        exists i r, best_match pool = Some r /\ earliest_maximum pool i r).
Proof.
  intros self t (Hi & [p Hp] & Hm).
  eexists.
  split; [apply (found_names_ready E self t p medical_registry Hp Hm)|].
  split; [apply (extract_ready E self t p medical_registry Hi Hp Hm)|].
  split; [intro c; unfold regex_names; apply in_flat_map|].
  split; [apply regex_names_discovery_order|].
  split; [intro pattern; apply candidates_ordered|].
  split; [|split; [|split]].
  - destruct (regex_names t); [congruence | reflexivity].
  - intros ->. exists (nlp_call E p t). unfold doc_of, matches_of.
    rewrite Hp, Hm. split; reflexivity.
  - intros ->. reflexivity.
  - apply best_match_earliest_maximum.
Qed.

End MatchOrder.

Lemma best_candidate_is_returned_witness :
  let t := u "HASTA ADI: AYSE KAYA. HASTA ADI SOYADI: ALI VELI" in
  let ali := {| pn_name := u "Ali Veli"; pn_start := 40; pn_end := 48;
                pn_confidence := 0.9%Q;
                pn_method := u "pattern_matching" |} in
  let ayse := {| pn_name := u "Ayse Kaya"; pn_start := 11; pn_end := 20;
                 pn_confidence := 0.9%Q;
                 pn_method := u "pattern_matching" |} in
  ready blank_service
  /\ map (candidates_of t) patterns = [[ali]; [ayse]; []; []; []; []]
  /\ found_names ref_env t blank_service = (Ok [ali; ayse], blank_service)
  /\ extract_patient_name ref_env t blank_service
     = (Ok (Some ali), blank_service)
  /\ earliest_maximum [ali; ayse] 0 ali
  /\ precedes ayse ali
  /\ exists pi pj ri rj,
       nth_error patterns pi = Some ri /\ nth_error patterns pj = Some rj
       /\ In ali (candidates_of t ri) /\ In ayse (candidates_of t rj)
       /\ pi < pj.
Proof.
  intros t ali ayse.
  destruct (best_candidate_is_returned ref_env blank_service t
              blank_service_ready)
    as (pool & Hf & He & _ & Horder & _ & _ & _ & _ & Hbest).
  assert (found_names ref_env t blank_service
          = (Ok [ali; ayse], blank_service)) as Hpool
    by (vm_compute; reflexivity).
  rewrite Hpool in Hf. injection Hf as <-.
  split; [exact blank_service_ready|].
  split; [vm_compute; reflexivity|].
  split; [exact Hpool|].
  split; [exact He|].
  split.
  - destruct Hbest as (i & r & Hb & Hem); [discriminate|].
    assert (r = ali) as -> by (vm_compute in Hb; now injection Hb as <-).
    destruct i as [|i]; [exact Hem|]. exfalso.
    destruct Hem as (_ & _ & Hlt).
    specialize (Hlt 0 ali (Nat.lt_0_succ i) eq_refl).
    vm_compute in Hlt. discriminate.
  - split; [unfold precedes; simpl; lia|].
    destruct (Horder 0 1 ali ayse) as
      (pi & pj & ri & rj & Hri & Hrj & Hali & Hayse & Hord);
      [lia | vm_compute; reflexivity | vm_compute; reflexivity|].
    exists pi, pj, ri, rj. repeat split; try assumption.
    destruct Hord as [Hlt | [_ Hp]]; [exact Hlt|].
    unfold precedes in Hp. simpl in Hp. lia.
Defined.

(** * The further properties at concrete inputs *)

Lemma initialized_service_is_not_modified_witness :
  ready blank_service
  /\ snd (extract_patient_name ref_env (u "HASTA ADI: ALI VELI")
                               blank_service)
     = blank_service
  /\ process_document ner_env (u "Ali Ankara") JNull blank_service
     = (Raise (TypeError
                 (u "get() takes 2 positional arguments but 3 were given")),
        blank_service).
Proof.
  split; [exact blank_service_ready|]. split.
  - apply (proj1 (initialized_service_is_not_modified ref_env blank_service
                    blank_service_ready)).
  - pose proof (proj1 (proj2 (initialized_service_is_not_modified ner_env
                                blank_service blank_service_ready))
                  (u "Ali Ankara") JNull) as Hstate.
    destruct (process_document ner_env (u "Ali Ankara") JNull
                               blank_service) as [r s] eqn:Hrun.
    cbn [snd] in Hstate. subst s.
    vm_compute in Hrun. injection Hrun as <-. reflexivity.
Defined.

Lemma first_call_initializes_witness :
  extract_patient_name ref_env (u "HASTA ADI: ALI VELI") __init__
  = extract_patient_name ref_env (u "HASTA ADI: ALI VELI") blank_service.
Proof.
  apply (proj1 (proj2 (first_call_initializes ref_env __init__ blank_service
                         eq_refl eq_refl))).
Defined.

Lemma failed_load_is_raised_by_every_method_witness :
  extract_patient_name broken_env (u "HASTA ADI: ALI VELI") __init__
  = (Raise (OtherError (u "[E002] Can't find factory")),
     {| nlp := Some blank_tr; medical_terms := []; initialized := false;
        matcher := None |}).
Proof.
  apply (proj1 (proj2 (failed_load_is_raised_by_every_method broken_env
                         __init__ _ _ eq_refl eq_refl))).
Defined.

Lemma handlers_keep_service_consistent_witness :
  consistent
    (snd (Routes.extract_patient_name ref_env
            (Ok (JObj [(u "text", JStr (u "HASTA ADI: ALI VELI"))]))
            __init__)).
Proof.
  apply (proj2 (handlers_keep_service_consistent ref_env) __init__
               (Ok (JObj [(u "text", JStr (u "HASTA ADI: ALI VELI"))]))).
  intro H. discriminate.
Defined.

Lemma non_object_body_is_answered_500_witness :
  Routes.status (fst (Routes.process_document ref_env (Ok JNull)
                                              blank_service)) = 500
  /\ snd (Routes.process_document ref_env (Ok JNull) blank_service)
     = blank_service.
Proof.
  apply (proj2 (non_object_body_is_answered_500 ref_env blank_service)
               JNull).
  intros fields H. discriminate.
Defined.

Lemma route_answer_follows_the_method_witness :
  Routes.extract_patient_name ref_env
    (Ok (JObj [(u "text", JStr (u "no label here"))])) blank_service
  = ({| Routes.status := 200;
        Routes.body := Routes.PatientBody None (now ref_env) |},
     blank_service)
  /\ Routes.extract_patient_name broken_env
       (Ok (JObj [(u "text", JStr (u "no label here"))])) __init__
     = ({| Routes.status := 500;
           Routes.body :=
             Routes.FailureBody (u "[E002] Can't find factory")
                                (now broken_env) |},
        {| nlp := Some blank_tr; medical_terms := []; initialized := false;
           matcher := None |}).
Proof.
  split.
  - rewrite (proj1 (route_answer_follows_the_method ref_env blank_service
                      [(u "text", JStr (u "no label here"))])
                   (u "no label here"))
      by (split; [reflexivity | discriminate]).
    reflexivity.
  - rewrite (proj1 (route_answer_follows_the_method broken_env __init__
                      [(u "text", JStr (u "no label here"))])
                   (u "no label here"))
      by (split; [reflexivity | discriminate]).
    reflexivity.
Defined.

Lemma double_encoded_patterns_never_match_witness :
  justified effective_registry
            (ref_nlp_call blank_tr (u "hearing aid"))
            (u "MEDICAL_DEVICE", 0, 2).
Proof.
  apply (proj1 double_encoded_patterns_never_match).
  exists device_patterns, [LOWER "hearing"; LOWER "aid"].
  split; [|split].
  - unfold medical_registry. right. left. reflexivity.
  - unfold device_patterns. right. left. reflexivity.
  - reflexivity.
Defined.

Lemma only_ascii_terms_in_clean_text_witness :
  Forall (fun h => is_ascii (hit_term h) = true)
         (_extract_medical_terms blank_service
            (u "Hastada işitme kaybı var, hearing aid önerildi")).
Proof.
  apply (only_ascii_terms_in_clean_text blank_service
           (u "Hastada işitme kaybı var, hearing aid önerildi"));
    reflexivity.
Defined.

Lemma term_hit_delimits_occurrence_witness :
  Forall (fun h =>
            (0 <= hit_start h)%Z
            /\ (hit_start h < hit_end h)%Z
            /\ (hit_end h
                <= len (lower (u "İlk ABR testi ve hearing aid")))%Z
            /\ slice (lower (u "İlk ABR testi ve hearing aid"))
                     (Z.to_nat (hit_start h)) (Z.to_nat (hit_end h))
               = lower (hit_term h))
         (_extract_medical_terms blank_service
            (u "İlk ABR testi ve hearing aid")).
Proof.
  apply (term_hit_delimits_occurrence blank_service
           (u "İlk ABR testi ve hearing aid")).
  reflexivity.
Defined.

Lemma found_terms_survive_embedding_witness :
  exists h',
    In h' (_extract_medical_terms blank_service
             (u "ABR, " ++ u "ABR" ++ u " test"))
    /\ hit_term h' = u "ABR"
    /\ hit_category h' = u "procedures"
    /\ (hit_start h' <= len (lower (u "ABR, ")) + 0)%Z.
Proof.
  apply (found_terms_survive_embedding blank_service (u "ABR")
           (u "ABR, ") (u " test")
           {| hit_term := u "ABR"; hit_category := u "procedures";
              hit_start := 0; hit_end := 3 |}).
  vm_compute. left. reflexivity.
Defined.

Lemma classification_survives_embedding_witness :
  cls_type (_classify_document (u "reçete: " ++ u "SGK" ++ u " raporu")
                               (ref_nlp_call blank_tr []))
  = u "sgk_device_report".
Proof.
  apply (proj1 (classification_survives_embedding (u "SGK") (u "reçete: ")
                  (u " raporu") (ref_nlp_call blank_tr [])
                  (ref_nlp_call blank_tr []))).
  reflexivity.
Defined.

Lemma first_candidate_is_returned_witness :
  let t := u "HASTA ADI: ALI VELI. HASTA ADI: AYSE KAYA" in
  let ali := {| pn_name := u "Ali Veli"; pn_start := 11; pn_end := 19;
                pn_confidence := 0.9%Q;
                pn_method := u "pattern_matching" |} in
  let ayse := {| pn_name := u "Ayse Kaya"; pn_start := 32; pn_end := 41;
                 pn_confidence := 0.9%Q;
                 pn_method := u "pattern_matching" |} in
  found_names ref_env t blank_service = (Ok [ali; ayse], blank_service)
  /\ extract_patient_name ref_env t blank_service
     = (Ok (Some ali), blank_service).
Proof.
  intros t ali ayse.
  destruct (first_candidate_is_returned ref_env blank_service t
              blank_service_ready) as (pool & Hf & He).
  assert (found_names ref_env t blank_service
          = (Ok [ali; ayse], blank_service)) as Hpool
    by (vm_compute; reflexivity).
  rewrite Hpool in Hf. injection Hf as <-.
  split; [exact Hpool | exact He].
Defined.

Lemma regex_result_ignores_the_library_witness :
  exists r,
    hd_error (regex_names (u "HASTA ADI: ALI VELI")) = Some r
    /\ extract_patient_name ref_env (u "HASTA ADI: ALI VELI") blank_service
       = (Ok (Some r), blank_service)
    /\ extract_patient_name broken_env (u "HASTA ADI: ALI VELI")
                            blank_service
       = (Ok (Some r), blank_service)
    /\ pn_method r = u "pattern_matching"
    /\ pn_confidence r = 0.9%Q.
Proof.
  apply (regex_result_ignores_the_library ref_env broken_env blank_service
           blank_service (u "HASTA ADI: ALI VELI")
           blank_service_ready blank_service_ready).
  vm_compute. discriminate.
Defined.

Lemma method_tells_the_path_witness :
  (regex_names (u "Patient Name: John Smith") <> []
   /\ pn_method {| pn_name := u "John"; pn_start := 0; pn_end := 18;
                   pn_confidence := 0.8%Q;
                   pn_method := u "spacy_matching" |}
      = u "pattern_matching"
   /\ pn_confidence {| pn_name := u "John"; pn_start := 0; pn_end := 18;
                       pn_confidence := 0.8%Q;
                       pn_method := u "spacy_matching" |} = 0.9%Q)
  \/ (regex_names (u "Patient Name: John Smith") = []
      /\ pn_method {| pn_name := u "John"; pn_start := 0; pn_end := 18;
                      pn_confidence := 0.8%Q;
                      pn_method := u "spacy_matching" |}
         = u "spacy_matching"
      /\ pn_confidence {| pn_name := u "John"; pn_start := 0; pn_end := 18;
                          pn_confidence := 0.8%Q;
                          pn_method := u "spacy_matching" |} = 0.8%Q).
Proof.
  apply (method_tells_the_path ref_env blank_service
           (u "Patient Name: John Smith") _ blank_service_ready).
  vm_compute. reflexivity.
Defined.

Lemma process_document_outcome_witness :
  process_document ner_env (u "Ali Ankara") JNull blank_service
  = (Raise (TypeError
              (u "get() takes 2 positional arguments but 3 were given")),
     blank_service)
  /\ exists result,
       process_document ner_env (u "Ali geldi") JNull blank_service
       = (Ok result, blank_service)
       /\ map (fun es => (es_text es, es_label es, es_confidence es))
              (pr_entities result)
          = [(u "Ali", u "PERSON", 0.8%Q)]
       /\ pr_medical_terms result
          = _extract_medical_terms blank_service (u "Ali geldi")
       /\ length (pr_tokens result) = 2.
Proof.
  split.
  - apply (proj1 (process_document_outcome ner_env blank_service
                    (u "Ali Ankara") JNull blank_tr_sentencizer
                    eq_refl eq_refl eq_refl)
                 [ {| ent_text := u "Ali"; ent_label := u "PERSON";
                      ent_start_char := 0; ent_end_char := 3 |} ]
                 {| ent_text := u "Ankara"; ent_label := u "LOC";
                    ent_start_char := 4; ent_end_char := 10 |}
                 []).
    + vm_compute. reflexivity.
    + constructor; [|constructor]. eexists. vm_compute. reflexivity.
    + vm_compute. reflexivity.
  - destruct (process_document ner_env (u "Ali geldi") JNull blank_service)
      as [[result | e] s] eqn:Hrun; [|vm_compute in Hrun; discriminate].
    destruct (proj2 (process_document_outcome ner_env blank_service
                       (u "Ali geldi") JNull blank_tr_sentencizer
                       eq_refl eq_refl eq_refl) result s Hrun)
      as (-> & _ & _ & Hterms & _ & Htokens).
    exists result. split; [reflexivity|].
    split; [|split; [exact Hterms | exact Htokens]].
    vm_compute in Hrun. injection Hrun as <-. reflexivity.
Defined.

Lemma custom_entities_carry_registered_labels_witness :
  exists entities,
    _extract_custom_entities ref_env (u "hearing aid 12345678901")
                             blank_service
    = (Ok entities, blank_service)
    /\ length entities
       = length (matcher_call ref_env medical_registry
                   (nlp_call ref_env blank_tr_sentencizer
                             (u "hearing aid 12345678901")))
    /\ Forall (fun es =>
                 es_confidence es = 0.9%Q
                 /\ In (es_label es)
                       [ u "TC_NUMBER"; u "MEDICAL_DEVICE";
                         u "MEDICAL_CONDITION"; u "PATIENT_NAME";
                         u "DOCTOR_STAFF" ])
              entities.
Proof.
  apply (custom_entities_carry_registered_labels ref_env blank_service
           (u "hearing aid 12345678901") blank_tr_sentencizer
           ref_matcher_sound eq_refl eq_refl).
Defined.

Lemma regex_offsets_delimit_the_capture_witness :
  exists raw,
    slice (upper (u "Hasta adı: ali veli")) 11 19 = raw
    /\ (0 <= 11)%Z /\ (11 < 19)%Z
    /\ (19 <= len (upper (u "Hasta adı: ali veli")))%Z
    /\ 3 < length (cleaned raw)
    /\ u "Ali Veli"
       = join (u " ") (map capitalize (split_ws (cleaned raw))).
Proof.
  apply (regex_offsets_delimit_the_capture (u "Hasta adı: ali veli")
           {| pn_name := u "Ali Veli"; pn_start := 11; pn_end := 19;
              pn_confidence := 0.9%Q;
              pn_method := u "pattern_matching" |}).
  vm_compute. left. reflexivity.
Defined.

Lemma returned_name_is_words_joined_by_spaces_witness :
  exists words,
    plain_words words /\ u "Ali Veli" = join (u " ") words.
Proof.
  apply (returned_name_is_words_joined_by_spaces ref_env blank_service
           (u "HASTA ADI:  ALI   VELI ")
           {| pn_name := u "Ali Veli"; pn_start := 12; pn_end := 23;
              pn_confidence := 0.9%Q;
              pn_method := u "pattern_matching" |}
           ref_matcher_sound blank_service_ready).
  vm_compute. reflexivity.
Defined.
